(** * zk: the [mv] command and the project-root search

  A shallow embedding of [main.go] of the [zk] command line tool:
  [IsRootDir], [ZkRoot] and the body of the [mv] sub-command (the
  directory walk with its callback, and the final rename); then
  [PrintHelpText] and [main] itself, with the [version] and [serve]
  sub-commands and the choice between them.

  The operating system is a tree of directories and regular files, the
  process has a working directory, and the program's effects (standard
  output, calls that write or rename) are recorded in the state.  The
  model is the POSIX build of the program: [runtime.GOOS] is not
  ["windows"] and [os.PathSeparator] is ['/'].  There are no symbolic
  links. *)

From Stdlib Require Import String Ascii List Bool Arith ZArith Lia DecimalString.
From Equations Require Import Equations.
Import ListNotations.
Open Scope string_scope.

Set Implicit Arguments.
Set Warnings "-register-all".

(* ================================================================= *)
(** * Go strings *)

Module Strings.

(** [s[:n]] for [n <= len(s)]. *)
Fixpoint take (n : nat) (s : string) : string :=
  match n, s with
  | S n', String c s' => String c (take n' s')
  | _, _ => EmptyString
  end.

(** [s[n:]] for [n <= len(s)]. *)
Fixpoint drop (n : nat) (s : string) : string :=
  match n, s with
  | S n', String _ s' => drop n' s'
  | _, _ => s
  end.

(** [s[n:]] with Go's bounds check: [None] is the run-time panic
    "slice bounds out of range". *)
Definition slice_from (s : string) (n : nat) : option string :=
  if Nat.leb n (String.length s) then Some (drop n s) else None.

(** [strings.HasPrefix]. *)
Fixpoint HasPrefix (s p : string) : bool :=
  match p, s with
  | EmptyString, _ => true
  | String a p', String b s' => Ascii.eqb a b && HasPrefix s' p'
  | String _ _, EmptyString => false
  end.

(** [strings.HasSuffix]. *)
Definition HasSuffix (s suffix : string) : bool :=
  Nat.leb (String.length suffix) (String.length s)
  && String.eqb (drop (String.length s - String.length suffix) s) suffix.

(** [strings.TrimSuffix]. *)
Definition TrimSuffix (s suffix : string) : string :=
  if HasSuffix s suffix
  then take (String.length s - String.length suffix) s
  else s.

(** The scan behind [strings.LastIndex] for a one-byte separator: [i] is
    the index of the head of [s], [acc] the last hit so far. *)
Fixpoint last_index_from (i : Z) (acc : Z) (sep : ascii) (s : string) : Z :=
  match s with
  | EmptyString => acc
  | String c s' =>
      last_index_from (i + 1) (if Ascii.eqb c sep then i else acc) sep s'
  end.

(** [strings.LastIndex(s, string(sep))]: the index of the last [sep] in
    [s], or [-1]. *)
Definition LastIndex (s : string) (sep : ascii) : Z :=
  last_index_from 0 (-1) sep s.

(** [strings.Split(s, string(sep))]. *)
Fixpoint Split (sep : ascii) (s : string) : list string :=
  match s with
  | EmptyString => [EmptyString]
  | String c s' =>
      if Ascii.eqb c sep then EmptyString :: Split sep s'
      else match Split sep s' with
           | h :: t => String c h :: t
           | [] => [String c EmptyString]
           end
  end.

(** [strings.Join(elems, sep)]. *)
Fixpoint Join (elems : list string) (sep : string) : string :=
  match elems with
  | [] => EmptyString
  | [e] => e
  | e :: rest => e ++ sep ++ Join rest sep
  end.

End Strings.

(* ================================================================= *)
(** * Go path/filepath, POSIX flavour *)

Module Filepath.
Import Strings.

Definition Separator : ascii := "/"%char.

Definition rooted (path : string) : bool :=
  match path with
  | String c _ => Ascii.eqb c Separator
  | EmptyString => false
  end.

(** One step of [Clean]'s loop: [out] is the stack of elements written
    so far, innermost first. *)
Definition clean_step (is_rooted : bool) (out : list string) (elem : string)
  : list string :=
  if String.eqb elem "" || String.eqb elem "." then out
  else if String.eqb elem ".." then
    match out with
    | top :: below =>
        if String.eqb top ".." then elem :: out else below
    | [] => if is_rooted then out else [elem]
    end
  else elem :: out.

(** [filepath.Clean]: the shortest path name equivalent to [path] by
    purely lexical processing. *)
Definition Clean (path : string) : string :=
  if String.eqb path "" then "."
  else
    let is_rooted := rooted path in
    let out := rev (fold_left (clean_step is_rooted) (Split Separator path) []) in
    if is_rooted then "/" ++ Strings.Join out "/"
    else match out with
         | [] => "."
         | _ => Strings.Join out "/"
         end.

(** [filepath.Join]: empty elements are ignored, the rest is joined by
    the separator and cleaned; all-empty gives the empty string. *)
Definition Join (elem : list string) : string :=
  match filter (fun e => negb (String.eqb e "")) elem with
  | [] => ""
  | nonempty => Clean (Strings.Join nonempty "/")
  end.

(** Removes the trailing separators of [Base]'s first loop. *)
Fixpoint strip_trailing_seps (rev_path : list ascii) : list ascii :=
  match rev_path with
  | c :: rest => if Ascii.eqb c Separator then strip_trailing_seps rest
                 else rev_path
  | [] => []
  end.

(** [filepath.Base]: the last element of [path]. *)
Definition Base (path : string) : string :=
  if String.eqb path "" then "."
  else
    let stripped :=
      string_of_list_ascii
        (rev (strip_trailing_seps (rev (list_ascii_of_string path)))) in
    let last :=
      match LastIndex stripped Separator with
      | Z.neg _ => stripped
      | i => drop (Z.to_nat i + 1) stripped
      end in
    if String.eqb last "" then "/" else last.

(** [filepath.Dir]: all but the last element of [path], cleaned. *)
Definition Dir (path : string) : string :=
  Clean (take (Z.to_nat (LastIndex path Separator + 1)) path).

(** [filepath.IsAbs]. *)
Definition IsAbs (path : string) : bool := rooted path.

End Filepath.

(* ================================================================= *)
(** * Errors *)

(** The error numbers the modelled system calls report. *)
Inductive errno : Set :=
| ENOENT | ENOTDIR | EISDIR | EACCES | ENOTEMPTY | EINVAL | EEXIST.

(** A Go [error] value: a failed system call wrapped in a [*PathError] or
    [*LinkError], or a string made by [errors.New]. *)
Inductive error : Set :=
| SyscallError (e : errno)
| ErrorString (msg : string).

(** [errors.Is(err, os.ErrNotExist)]: true for [ENOENT] only. *)
Definition IsNotExist (err : option error) : bool :=
  match err with
  | Some (SyscallError ENOENT) => true
  | _ => false
  end.

(** [err.Error()], as far as the messages are told apart here. *)
Definition Error (err : error) : string :=
  match err with
  | ErrorString msg => msg
  | SyscallError ENOENT => "no such file or directory"
  | SyscallError ENOTDIR => "not a directory"
  | SyscallError EISDIR => "is a directory"
  | SyscallError EACCES => "permission denied"
  | SyscallError ENOTEMPTY => "directory not empty"
  | SyscallError EINVAL => "invalid argument"
  | SyscallError EEXIST => "file exists"
  end.

(* ================================================================= *)
(** * Parsed documents (golang.org/x/net/html, goquery) *)

Module Html.

(** [html.Attribute], without the namespace. *)
Record Attribute : Set := { Key : string; Val : string }.

(** [html.Node]: the kinds of node that matter to a selection of
    elements; every other kind has no attributes and no children. *)
Inductive HNode : Set :=
| TextNode (data : string)
| CommentNode (data : string)
| ElementNode (tag : string) (attr : list Attribute) (children : list HNode).

(** A parsed document: the children of its document node. *)
Definition Document : Set := list HNode.

(** [Selection.Attr]: the value of the first attribute named [name], and
    whether there is one. *)
Fixpoint Attr (attr : list Attribute) (name : string) : string * bool :=
  match attr with
  | [] => ("", false)
  | a :: rest => if String.eqb (Key a) name then (Val a, true)
                 else Attr rest name
  end.

(** [Selection.SetAttr] on one node: the first attribute named [name]
    gets the value [val]; without one, the attribute is appended. *)
Fixpoint SetAttr (attr : list Attribute) (name val : string)
  : list Attribute :=
  match attr with
  | [] => [{| Key := name; Val := val |}]
  | a :: rest => if String.eqb (Key a) name
                 then {| Key := Key a; Val := val |} :: rest
                 else a :: SetAttr rest name val
  end.

(** [doc.Find("a").Each(f)] for a callback [f] that changes the
    attributes of its element and a variable [acc] it has captured: the
    [a] elements are visited in document order. *)
Fixpoint each_a_node {S : Type}
  (f : list Attribute -> S -> list Attribute * S) (n : HNode) (acc : S)
  {struct n} : HNode * S :=
  match n with
  | ElementNode tag attr children =>
      let '(attr', acc1) :=
        if String.eqb tag "a" then f attr acc else (attr, acc) in
      let '(children', acc2) :=
        (fix each_a_list (l : list HNode) (acc : S) : list HNode * S :=
           match l with
           | [] => ([], acc)
           | c :: rest =>
               let '(c', acc') := each_a_node f c acc in
               let '(rest', acc'') := each_a_list rest acc' in
               (c' :: rest', acc'')
           end) children acc1 in
      (ElementNode tag attr' children', acc2)
  | _ => (n, acc)
  end.

Fixpoint FindEach_a {S : Type}
  (f : list Attribute -> S -> list Attribute * S) (doc : Document) (acc : S)
  : Document * S :=
  match doc with
  | [] => ([], acc)
  | n :: rest =>
      let '(n', acc') := each_a_node f n acc in
      let '(rest', acc'') := FindEach_a f rest acc' in
      (n' :: rest', acc'')
  end.

(** [doc.Find("a")]: the attribute lists of the [a] elements, in document
    order. *)
Fixpoint anchors_node (n : HNode) : list (list Attribute) :=
  match n with
  | ElementNode tag attr children =>
      ((if String.eqb tag "a" then [attr] else [])
       ++ flat_map anchors_node children)%list
  | _ => []
  end.

Definition Find_a (doc : Document) : list (list Attribute) :=
  flat_map anchors_node doc.

End Html.

(* ================================================================= *)
(** * The file system and the process *)

Section Model.

(** File contents are kept abstract: the program reads them only through
    goquery's parser and produces them only through its serialiser. *)
Variable bytes : Type.

(** [html.Parse] behind [goquery.NewDocumentFromReader]: it accepts every
    input, its only errors are those of the reader. *)
Variable ParseHTML : bytes -> Html.Document.

(** [Document.Html()], the serialiser. *)
Variable RenderHTML : Html.Document -> error + bytes.

(** The permission bits of a regular file that the program can run into. *)
Record FileMode : Set := { may_read : bool; may_write : bool }.

(** A directory lists its entries in the order [ReadDir] reports them,
    sorted by name. *)
Inductive Node : Type :=
| File (mode : FileMode) (data : bytes)
| Dir (may_list : bool) (entries : list (string * Node)).

(** A location: the names from the file system's root down to an entry. *)
Definition loc : Set := list string.

Fixpoint assoc {A : Type} (name : string) (es : list (string * A))
  : option A :=
  match es with
  | [] => None
  | (k, v) :: rest => if String.eqb name k then Some v else assoc name rest
  end.

Fixpoint assoc_replace {A : Type} (name : string) (v : A)
  (es : list (string * A)) : list (string * A) :=
  match es with
  | [] => []
  | (k, x) :: rest =>
      if String.eqb name k then (k, v) :: rest
      else (k, x) :: assoc_replace name v rest
  end.

Fixpoint assoc_insert {A : Type} (name : string) (v : A)
  (es : list (string * A)) : list (string * A) :=
  match es with
  | [] => [(name, v)]
  | (k, x) :: rest =>
      if String.ltb name k then (name, v) :: es
      else (k, x) :: assoc_insert name v rest
  end.

(** The entry [name] gets the value [v]: in place when there is one,
    else as a new entry at its place in the order of the names. *)
Definition assoc_put {A : Type} (name : string) (v : A)
  (es : list (string * A)) : list (string * A) :=
  match assoc name es with
  | Some _ => assoc_replace name v es
  | None => assoc_insert name v es
  end.

Fixpoint assoc_del {A : Type} (name : string) (es : list (string * A))
  : list (string * A) :=
  match es with
  | [] => []
  | (k, x) :: rest =>
      if String.eqb name k then rest else (k, x) :: assoc_del name rest
  end.

Fixpoint lookup (n : Node) (l : loc) : option Node :=
  match l with
  | [] => Some n
  | x :: l' =>
      match n with
      | Dir _ es => match assoc x es with
                    | Some c => lookup c l'
                    | None => None
                    end
      | File _ _ => None
      end
  end.

(** Puts [v] at location [l], replacing the entry there or adding one to
    its parent directory. *)
Fixpoint put_at (l : loc) (v : Node) (n : Node) : Node :=
  match l with
  | [] => v
  | x :: l' =>
      match n with
      | Dir m es =>
          match l', assoc x es with
          | [], _ => Dir m (assoc_put x v es)
          | _, Some c => Dir m (assoc_put x (put_at l' v c) es)
          | _, None => n
          end
      | File _ _ => n
      end
  end.

(** Removes the entry at location [l]. *)
Fixpoint del_at (l : loc) (n : Node) : Node :=
  match l with
  | [] => n
  | x :: l' =>
      match n with
      | Dir m es =>
          match l', assoc x es with
          | [], _ => Dir m (assoc_del x es)
          | _, Some c => Dir m (assoc_put x (del_at l' c) es)
          | _, None => n
          end
      | File _ _ => n
      end
  end.

(** Path resolution, one component at a time from location [cur]. *)
Fixpoint namei (root : Node) (cur : loc) (comps : list string)
  : errno + loc :=
  match comps with
  | [] => inr cur
  | c :: rest =>
      match lookup root cur with
      | Some (Dir _ es) =>
          if String.eqb c "" || String.eqb c "." then namei root cur rest
          else if String.eqb c ".." then namei root (removelast cur) rest
          else match assoc c es with
               | Some _ => namei root (cur ++ [c])%list rest
               | None => inl ENOENT
               end
      | Some (File _ _) => inl ENOTDIR
      | None => inl ENOENT
      end
  end.

(** A system call made by the program that can change the file system. *)
Inductive call : Set :=
| CallWriteFile (path : string) (target : option loc) (result : option error)
| CallRename (oldpath newpath : string) (result : option error).

(** The operating system as the process sees it. *)
Record OS : Type := {
  tree : Node;            (* the directory [/] *)
  cwd : string;           (* the working directory, an absolute path *)
  stdout : list string;   (* what was printed, oldest first *)
  calls : list call       (* the calls made, oldest first *)
}.

Definition with_tree (s : OS) (t : Node) : OS :=
  {| tree := t; cwd := cwd s; stdout := stdout s; calls := calls s |}.

Definition log_call (s : OS) (c : call) : OS :=
  {| tree := tree s; cwd := cwd s; stdout := stdout s;
     calls := (calls s ++ [c])%list |}.

Definition print (s : OS) (line : string) : OS :=
  {| tree := tree s; cwd := cwd s; stdout := (stdout s ++ [line])%list;
     calls := calls s |}.

(** The components of [path], taken from [/]: a relative path starts at
    the working directory. *)
Definition components (s : OS) (path : string) : list string :=
  if Filepath.IsAbs path then Strings.Split Filepath.Separator path
  else (Strings.Split Filepath.Separator (cwd s)
        ++ Strings.Split Filepath.Separator path)%list.

(** The location [path] names, when it names an entry. *)
Definition resolve (s : OS) (path : string) : errno + loc :=
  if String.eqb path "" then inl ENOENT
  else namei (tree s) [] (components s path).

Definition is_special (name : string) : bool :=
  String.eqb name "" || String.eqb name "." || String.eqb name "..".

(** The directory and the last name of [path], for the calls that can
    create or remove the entry [path] names. *)
Definition resolve_parent (s : OS) (path : string) : errno + loc * string :=
  if String.eqb path "" then inl ENOENT
  else
    let comps := components s path in
    let name := last comps "" in
    if is_special name then inl EINVAL
    else match namei (tree s) [] (removelast comps) with
         | inl e => inl e
         | inr parent =>
             match lookup (tree s) parent with
             | Some (Dir _ _) => inr (parent, name)
             | Some (File _ _) => inl ENOTDIR
             | None => inl ENOENT
             end
         end.

(** [fs.DirEntry] and [fs.FileInfo], as far as they are used. *)
Record DirEntry : Set := { Name : string; IsDir : bool }.

Definition is_dir (n : Node) : bool :=
  match n with
  | Dir _ _ => true
  | File _ _ => false
  end.

(** The name [os.Lstat] gives the entry it was asked about: [path] without
    its trailing separators and its leading directories. *)
Definition basename (path : string) : string :=
  match path with
  | EmptyString => EmptyString
  | String c rest =>
      let stripped :=
        String c (string_of_list_ascii
          (rev (Filepath.strip_trailing_seps (rev (list_ascii_of_string rest))))) in
      if String.eqb stripped "/" then stripped
      else match Strings.LastIndex stripped Filepath.Separator with
           | Z.neg _ => stripped
           | i => Strings.drop (Z.to_nat i + 1) stripped
           end
  end.

(** [os.Stat] and [os.Lstat] (there are no symbolic links). *)
Definition Stat (s : OS) (path : string) : error + DirEntry :=
  match resolve s path with
  | inl e => inl (SyscallError e)
  | inr l =>
      match lookup (tree s) l with
      | Some n => inr {| Name := basename path; IsDir := is_dir n |}
      | None => inl (SyscallError ENOENT)
      end
  end.

Definition Lstat := Stat.

(** The error of a call that returns a value and an error. *)
Definition err_of {A : Type} (r : error + A) : option error :=
  match r with
  | inl e => Some e
  | inr _ => None
  end.

(** [os.Open]: the open file is identified by its location. *)
Definition Open (s : OS) (path : string) : error + loc :=
  match resolve s path with
  | inl e => inl (SyscallError e)
  | inr l =>
      match lookup (tree s) l with
      | Some (File mode _) =>
          if may_read mode then inr l else inl (SyscallError EACCES)
      | Some (Dir listable _) =>
          if listable then inr l else inl (SyscallError EACCES)
      | None => inl (SyscallError ENOENT)
      end
  end.

(** Reading an open file to its end. *)
Definition ReadAll (s : OS) (f : loc) : error + bytes :=
  match lookup (tree s) f with
  | Some (File _ data) => inr data
  | Some (Dir _ _) => inl (SyscallError EISDIR)
  | None => inl (SyscallError ENOENT)
  end.

(** [goquery.NewDocumentFromReader]. *)
Definition NewDocumentFromReader (s : OS) (f : loc)
  : error + Html.Document :=
  match ReadAll s f with
  | inl e => inl e
  | inr data => inr (ParseHTML data)
  end.

(* ================================================================= *)
(** * Running the program *)

(** A computation either returns, or ends the process by [os.Exit], or
    ends it by a run-time panic. *)
Inductive Result (A : Type) : Type :=
| Return (a : A) (s : OS)
| Exit (code : Z) (s : OS)
| Panic (s : OS).

Arguments Exit {A} code s.
Arguments Panic {A} s.

Definition M (A : Type) : Type := OS -> Result A.

Definition ret {A : Type} (a : A) : M A := fun s => Return a s.

Definition bind {A B : Type} (c : M A) (k : A -> M B) : M B :=
  fun s => match c s with
           | Return a s' => k a s'
           | Exit code s' => Exit code s'
           | Panic s' => Panic s'
           end.

Notation "x <- c ;; k" := (bind c (fun x => k))
  (at level 61, c at next level, right associativity).
Notation "c ;;; k" := (bind c (fun _ => k))
  (at level 61, right associativity).

(** A call that only looks at the system. *)
Definition reads {A : Type} (f : OS -> A) : M A := fun s => Return (f s) s.

Definition os_Exit {A : Type} (code : Z) : M A := fun s => Exit code s.

Definition panic {A : Type} : M A := fun s => Panic s.

Definition newline : string := String (ascii_of_nat 10) EmptyString.
Definition tab : string := String (ascii_of_nat 9) EmptyString.

(** [fmt.Printf] with the arguments already formatted, and [fmt.Println]. *)
Definition Printf (text : string) : M unit := fun s => Return tt (print s text).
Definition Println (text : string) : M unit := Printf (text ++ newline).

(** [os.Getwd]. *)
Definition Getwd : M string := reads cwd.

(** [ioutil.WriteFile(path, data, 0777)]: the file is opened for writing,
    created if it is missing, truncated, and gets [data]; the mode of a
    file that exists is left as it is. *)
Definition WriteFile (path : string) (data : bytes) : M (option error) :=
  fun s =>
    match resolve s path with
    | inr l =>
        match lookup (tree s) l with
        | Some (File mode _) =>
            if may_write mode then
              Return None
                (log_call (with_tree s (put_at l (File mode data) (tree s)))
                   (CallWriteFile path (Some l) None))
            else
              Return (Some (SyscallError EACCES))
                (log_call s (CallWriteFile path (Some l)
                               (Some (SyscallError EACCES))))
        | _ =>
            Return (Some (SyscallError EISDIR))
              (log_call s (CallWriteFile path (Some l)
                             (Some (SyscallError EISDIR))))
        end
    | inl ENOENT =>
        match resolve_parent s path with
        | inr (parent, name) =>
            let l := (parent ++ [name])%list in
            let created :=
              File {| may_read := true; may_write := true |} data in
            Return None
              (log_call (with_tree s (put_at l created (tree s)))
                 (CallWriteFile path (Some l) None))
        | inl e =>
            Return (Some (SyscallError e))
              (log_call s (CallWriteFile path None (Some (SyscallError e))))
        end
    | inl e =>
        Return (Some (SyscallError e))
          (log_call s (CallWriteFile path None (Some (SyscallError e))))
    end.

Fixpoint loc_eqb (a b : loc) : bool :=
  match a, b with
  | [], [] => true
  | x :: a', y :: b' => String.eqb x y && loc_eqb a' b'
  | _, _ => false
  end.

Fixpoint is_prefix (a b : loc) : bool :=
  match a, b with
  | [], _ => true
  | x :: a', y :: b' => String.eqb x y && is_prefix a' b'
  | _ :: _, [] => false
  end.

(** The system call [rename(2)]: what it answers, and the tree it leaves. *)
Definition sys_rename (s : OS) (oldpath newpath : string)
  : option errno * Node :=
  let t := tree s in
  match resolve_parent s oldpath with
  | inl e => (Some e, t)
  | inr (oldparent, oldname) =>
      let lo := (oldparent ++ [oldname])%list in
      match lookup t lo with
      | None => (Some ENOENT, t)
      | Some src =>
          match resolve_parent s newpath with
          | inl e => (Some e, t)
          | inr (newparent, newname) =>
              let ln := (newparent ++ [newname])%list in
              if loc_eqb lo ln then (None, t)
              else
                let moved := put_at ln src (del_at lo t) in
                match src, lookup t ln with
                | Dir _ _, dst =>
                    if is_prefix lo ln then (Some EINVAL, t)
                    else match dst with
                         | None => (None, moved)
                         | Some (Dir _ []) => (None, moved)
                         | Some (Dir _ (_ :: _)) => (Some ENOTEMPTY, t)
                         | Some (File _ _) => (Some ENOTDIR, t)
                         end
                | File _ _, Some (Dir _ _) => (Some EISDIR, t)
                | File _ _, _ => (None, moved)
                end
          end
      end
  end.

(** [os.Rename]: a new name that is a directory is refused before the
    system call is made, unless it is another name of the old entry. *)
Definition Rename (oldpath newpath : string) : M (option error) :=
  fun s =>
    let refused :=
      match Lstat s newpath with
      | inr fi =>
          if IsDir fi then
            match Lstat s oldpath with
            | inl e => Some e
            | inr _ =>
                if String.eqb newpath oldpath
                   || negb (match resolve s oldpath, resolve s newpath with
                            | inr a, inr b => loc_eqb a b
                            | _, _ => false
                            end)
                then Some (SyscallError EEXIST)
                else None
            end
          else None
      | inl _ => None
      end in
    match refused with
    | Some e => Return (Some e) (log_call s (CallRename oldpath newpath (Some e)))
    | None =>
        let '(e, t) := sys_rename s oldpath newpath in
        let result := option_map SyscallError e in
        Return result
          (log_call (with_tree s t) (CallRename oldpath newpath result))
    end.

(** [filepath.WalkDir] below its root: [fn] is called on the entry, then,
    for a directory, on its entries in order; the first error ends the
    walk.  When the directory cannot be listed, [fn] is called a second
    time with the error.  The walk follows the tree [n] as it stood when
    it started: the function that [mv] passes only replaces the contents
    of files. *)
Fixpoint walkDir (fn : string -> option DirEntry -> option error -> M (option error))
  (path : string) (d : DirEntry) (n : Node) {struct n} : M (option error) :=
  err <- fn path (Some d) None ;;
  match err with
  | Some _ => ret err
  | None =>
      match n with
      | File _ _ => ret None
      | Dir listable entries =>
          if listable then
            (fix walk_entries (es : list (string * Node)) : M (option error) :=
               match es with
               | [] => ret None
               | (name, child) :: rest =>
                   err <- walkDir fn (Filepath.Join [path; name])
                            {| Name := name; IsDir := is_dir child |} child ;;
                   match err with
                   | Some _ => ret err
                   | None => walk_entries rest
                   end
               end) entries
          else
            fn path (Some d) (Some (SyscallError EACCES))
      end
  end.

(** [filepath.WalkDir]: when [os.Lstat] of the root fails, [fn] is called
    once, with a nil entry and the error. *)
Definition WalkDir (root : string)
  (fn : string -> option DirEntry -> option error -> M (option error))
  : M (option error) :=
  fun s =>
    match Lstat s root, resolve s root with
    | inr info, inr l =>
        match lookup (tree s) l with
        | Some n => walkDir fn root info n s
        | None => fn root None (Some (SyscallError ENOENT)) s
        end
    | inl err, _ => fn root None (Some err) s
    | inr _, inl e => fn root None (Some (SyscallError e)) s
    end.

(* ================================================================= *)
(** * main.go *)

Definition ZK_ROOT_FILENAME : string := ".zk-root".

(** [runtime.GOOS] of the modelled build, and [filepath.VolumeName], which
    is empty on every system but Windows. *)
Definition GOOS : string := "linux".
Definition VolumeName (path : string) : string := "".

Definition IsRootDir (path : string) : bool :=
  if String.eqb GOOS "windows"
  then String.eqb path (VolumeName path ++ "\")
  else String.eqb path "/".

Definition inspect {A : Type} (a : A) : {b : A | a = b} :=
  exist _ a eq_refl.

(** [ZkRoot]: the result is Go's pair of a path and an error. *)
Equations? ZkRoot (s : OS) (desiredPath : string) : string * option error
  by wf (String.length desiredPath) lt :=
ZkRoot s desiredPath
  with IsNotExist (err_of (Stat s (Filepath.Join [desiredPath; ZK_ROOT_FILENAME]))) => {
  | false := (desiredPath, None)
  | true with IsRootDir desiredPath => {
    | true := ("", Some (ErrorString ".zk-root cannot be found"))
    | false with inspect (Strings.LastIndex desiredPath Filepath.Separator) => {
      | exist _ lastSeparatorIndex _
          with inspect (Z.eqb lastSeparatorIndex (-1)) => {
        | exist _ true _ :=
            ("", Some (ErrorString ".zk-root cannot be found"))
        | exist _ false _ :=
            ZkRoot s (Strings.take (Z.to_nat lastSeparatorIndex) desiredPath)
        } } } }.
Proof.
  assert (upper : forall p k acc,
             (acc < k + Z.of_nat (String.length p))%Z ->
             (Strings.last_index_from k acc Filepath.Separator p
              < k + Z.of_nat (String.length p))%Z).
  { induction p as [|c p IH]; intros k acc H; simpl in *; [lia|].
    specialize (IH (k + 1)%Z (if Ascii.eqb c Filepath.Separator then k else acc)).
    destruct (Ascii.eqb c Filepath.Separator); lia. }
  assert (lower : forall p k acc,
             (-1 <= acc)%Z -> (0 <= k)%Z ->
             (-1 <= Strings.last_index_from k acc Filepath.Separator p)%Z).
  { induction p as [|c p IH]; intros k acc H H0; simpl in *; [lia|].
    apply IH; destruct (Ascii.eqb c Filepath.Separator); lia. }
  assert (len : forall n p,
             n < String.length p -> String.length (Strings.take n p) = n).
  { induction n; destruct p; simpl; intros; try lia. rewrite IHn; lia. }
  match goal with H : Z.eqb _ _ = false |- _ => apply Z.eqb_neq in H end.
  unfold Strings.LastIndex in *.
  pose proof (lower desiredPath 0%Z (-1)%Z ltac:(lia) ltac:(lia)).
  destruct desiredPath as [|c p]; [simpl in *; lia|].
  pose proof (upper (String c p) 0%Z (-1)%Z ltac:(simpl String.length; lia)).
  rewrite len; lia.
Qed.

(** The function given to [Each] in [mv]: [attr] are the attributes of
    the anchor [elem], [foundReference] is the captured variable. *)
Definition updateAnchor (zkRelativeFromPath zkRelativeToPath : string)
  (attr : list Html.Attribute) (foundReference : bool)
  : list Html.Attribute * bool :=
  let '(href, exists_) := Html.Attr attr "href" in
  let hrefMatchesDirectoryIndex :=
    String.eqb (Filepath.Base zkRelativeFromPath) "index.html"
    && String.eqb href (Filepath.Dir zkRelativeFromPath) in
  let hrefMatchesPageWithoutExtension :=
    Strings.HasSuffix zkRelativeFromPath ".html"
    && String.eqb href
         (Strings.take (String.length zkRelativeFromPath - 5)
            zkRelativeFromPath) in
  if exists_ && (String.eqb href zkRelativeFromPath
                 || hrefMatchesDirectoryIndex
                 || hrefMatchesPageWithoutExtension)
  then (Html.SetAttr attr "href" zkRelativeToPath, true)
  else (attr, foundReference).

(** The function given to [filepath.WalkDir] in [mv].  Calling
    [dirEntry.Name()] on a nil entry is a nil dereference. *)
Definition walkFn (zkRelativeFromPath zkRelativeToPath : string)
  (path : string) (dirEntry : option DirEntry) (err : option error)
  : M (option error) :=
  match dirEntry with
  | None => panic
  | Some d =>
      if Strings.HasSuffix (Name d) ".html" then
        opened <- reads (fun s => Open s path) ;;
        match opened with
        | inl err => ret (Some err)
        | inr fileContent =>
            parsed <- reads (fun s => NewDocumentFromReader s fileContent) ;;
            match parsed with
            | inl err => ret (Some err)
            | inr html =>
                let '(html', foundReference) :=
                  Html.FindEach_a
                    (updateAnchor zkRelativeFromPath zkRelativeToPath)
                    html false in
                if foundReference then
                  match RenderHTML html' with
                  | inl err => ret (Some err)
                  | inr newHtmlBytes =>
                      WriteFile path newHtmlBytes ;;;
                      ret None
                  end
                else ret None
            end
        end
      else ret None
  end.

(** The [mv] case of [main], from the check of the argument count on;
    [Args] is [os.Args]. *)
Definition mv (Args : list string) : M unit :=
  if Nat.ltb (length Args) 4 then
    Println "zk mv usage:" ;;;
    Println (tab ++ "zk mv frompath topath" ++ tab
             ++ "Move the item(s) at frompath to topath, updating references to them") ;;;
    os_Exit 1
  else
    let fromPath := nth 2 Args "" in
    let toPath := nth 3 Args "" in
    workingDir <- Getwd ;;
    root <- reads (fun s => ZkRoot s workingDir) ;;
    match root with
    | (_, Some err) =>
        Printf ("Error finding ZK root: " ++ Error err ++ newline) ;;;
        os_Exit 1
    | (zkRootDirectory, None) =>
        let absFromPath := Filepath.Join [workingDir; fromPath] in
        let absToPath := Filepath.Join [workingDir; toPath] in
        match Strings.slice_from absFromPath (String.length zkRootDirectory),
              Strings.slice_from absToPath (String.length zkRootDirectory) with
        | Some zkRelativeFromPath, Some zkRelativeToPath =>
            let zkRelativeToPath :=
              Strings.TrimSuffix zkRelativeToPath "/index.html" in
            stat <- reads (fun s => Stat s absFromPath) ;;
            if IsNotExist (err_of stat) then
              Printf ("File " ++ absFromPath ++ " does not exist" ++ newline) ;;;
              os_Exit 1
            else
              WalkDir zkRootDirectory
                (walkFn zkRelativeFromPath zkRelativeToPath) ;;;
              err <- Rename absFromPath absToPath ;;
              match err with
              | Some err =>
                  Printf ("Error moving item in file tree: "
                          ++ Error err ++ newline) ;;;
                  os_Exit 1
              | None => ret tt
              end
        | _, _ => panic
        end
    end.

End Model.

Arguments Return {bytes A} a s.
Arguments Exit {bytes A} code s.
Arguments Panic {bytes A} s.
Arguments File {bytes} mode data.
Arguments Dir {bytes} may_list entries.

(* ================================================================= *)
(** * Vocabulary of the statements *)

(** The state a computation ends in. *)
Definition final {bytes A : Type} (r : Result bytes A) : OS bytes :=
  match r with
  | Return _ s => s
  | Exit _ s => s
  | Panic s => s
  end.

(** The test that [updateAnchor] makes on the [href] of an anchor. *)
Definition hrefMatches (zkRelativeFromPath href : string) : bool :=
  String.eqb href zkRelativeFromPath
  || (String.eqb (Filepath.Base zkRelativeFromPath) "index.html"
      && String.eqb href (Filepath.Dir zkRelativeFromPath))
  || (Strings.HasSuffix zkRelativeFromPath ".html"
      && String.eqb href
           (Strings.take (String.length zkRelativeFromPath - 5)
              zkRelativeFromPath)).

(** An anchor is a reference to the moved path when it has an [href]
    that passes the test. *)
Definition isReference (zkRelativeFromPath : string)
  (attr : list Html.Attribute) : bool :=
  snd (Html.Attr attr "href")
  && hrefMatches zkRelativeFromPath (fst (Html.Attr attr "href")).

(** What [updateAnchor] does to the attributes of an anchor. *)
Definition retarget (zkRelativeFromPath zkRelativeToPath : string)
  (attr : list Html.Attribute) : list Html.Attribute :=
  if isReference zkRelativeFromPath attr
  then Html.SetAttr attr "href" zkRelativeToPath
  else attr.

(** The link forms of a project-relative path, in the words of the
    specification: the path itself; the parent directory when the last
    segment is the index file; the path without its extension when it
    ends in the document extension. *)
Definition LinkFormSet (relativePath : string) : list string :=
  ([relativePath]
   ++ (if String.eqb (Filepath.Base relativePath) "index.html"
       then [Filepath.Dir relativePath] else [])
   ++ (if Strings.HasSuffix relativePath ".html"
       then [Strings.take (String.length relativePath - 5) relativePath]
       else []))%list.

(** The [href] values of the anchors of a document, in document order;
    an anchor without the attribute gives [None]. *)
Definition href (attr : list Html.Attribute) : option string :=
  let '(v, found) := Html.Attr attr "href" in
  if found then Some v else None.

Definition hrefs (doc : Html.Document) : list (option string) :=
  map href (Html.Find_a doc).

(** Applying a function to the attributes of every anchor. *)
Fixpoint map_a_node (g : list Html.Attribute -> list Html.Attribute)
  (n : Html.HNode) : Html.HNode :=
  match n with
  | Html.ElementNode tag attr children =>
      Html.ElementNode tag (if String.eqb tag "a" then g attr else attr)
        (map (map_a_node g) children)
  | _ => n
  end.

Definition map_a (g : list Html.Attribute -> list Html.Attribute)
  (doc : Html.Document) : Html.Document :=
  map (map_a_node g) doc.

(** The project-relative path that [mv] computes: the absolute path
    without its first [len(zkRootDirectory)] bytes. *)
Definition zkRelative (zkRootDirectory absPath : string) : option string :=
  Strings.slice_from absPath (String.length zkRootDirectory).

(** The loop of [walkDir] over the entries of the directory [path]. *)
Fixpoint walkEntries {bytes : Type}
  (fn : string -> option DirEntry -> option error -> M bytes (option error))
  (path : string) (es : list (string * Node bytes)) : M bytes (option error) :=
  match es with
  | [] => ret None
  | (name, child) :: rest =>
      bind (walkDir fn (Filepath.Join [path; name])
              {| Name := name; IsDir := is_dir child |} child)
        (fun err => match err with
                    | Some _ => ret err
                    | None => walkEntries fn path rest
                    end)
  end.

(** The calls of [fn] that a walk makes when none of them fails. *)
Fixpoint visits {bytes : Type} (path : string) (d : DirEntry)
  (n : Node bytes) : list (string * DirEntry * option error) :=
  (path, d, None)
  :: match n with
     | File _ _ => []
     | Dir listable entries =>
         if listable then
           flat_map (fun e => visits (Filepath.Join [path; fst e])
                                {| Name := fst e; IsDir := is_dir (snd e) |}
                                (snd e)) entries
         else [(path, d, Some (SyscallError EACCES))]
     end.

(** The calls of [fn] in [vs], made in order until one of them returns an
    error: that error is the result, and the calls after it are not made. *)
Fixpoint run_calls {bytes : Type}
  (fn : string -> option DirEntry -> option error -> M bytes (option error))
  (vs : list (string * DirEntry * option error)) : M bytes (option error) :=
  match vs with
  | [] => ret None
  | (path, d, e) :: rest =>
      bind (fn path (Some d) e)
        (fun err => match err with
                    | Some _ => ret err
                    | None => run_calls fn rest
                    end)
  end.

(** A tree without the contents of its files. *)
Fixpoint shape {bytes : Type} (n : Node bytes) : Node unit :=
  match n with
  | File mode _ => File mode tt
  | Dir listable entries =>
      Dir listable (map (fun e => (fst e, shape (snd e))) entries)
  end.

(** The calls of [WriteFile] recorded for the location [l]. *)
Definition writes_to (l : loc) (cs : list call) : list call :=
  filter (fun c => match c with
                   | CallWriteFile _ (Some l') _ => loc_eqb l l'
                   | _ => false
                   end) cs.

(** The document held by the file at location [l]. *)
Definition document_at {bytes : Type} (ParseHTML : bytes -> Html.Document)
  (s : OS bytes) (l : loc) : option Html.Document :=
  match lookup (tree s) l with
  | Some (File _ data) => Some (ParseHTML data)
  | _ => None
  end.

(** The [href] values of the document held by the file at [l]. *)
Definition hrefs_at {bytes : Type} (ParseHTML : bytes -> Html.Document)
  (s : OS bytes) (l : loc) : option (list (option string)) :=
  option_map hrefs (document_at ParseHTML s l).

(** The absolute paths that [mv] makes of its two arguments. *)
Definition absFromPath {bytes : Type} (s : OS bytes) (Args : list string)
  : string :=
  Filepath.Join [cwd s; nth 2 Args ""].

Definition absToPath {bytes : Type} (s : OS bytes) (Args : list string)
  : string :=
  Filepath.Join [cwd s; nth 3 Args ""].

(** The end of [mv]: the answer of [os.Rename] is reported. *)
Definition report_rename {bytes : Type}
  (r : Result bytes (option error)) : Result bytes unit :=
  match r with
  | Return None s => Return tt s
  | Return (Some err) s =>
      Exit 1 (print s ("Error moving item in file tree: "
                       ++ Error err ++ newline))
  | Exit code s => Exit code s
  | Panic s => Panic s
  end.

(** The calls of [WriteFile] that failed. *)
Definition write_failed (c : call) : bool :=
  match c with
  | CallWriteFile _ _ (Some _) => true
  | _ => false
  end.

Definition failed_writes (cs : list call) : nat :=
  length (filter write_failed cs).

(* ================================================================= *)
(** * What one call of [walkFn] can do *)

Section Outcomes.
Variable bytes : Type.
Variable ParseHTML : bytes -> Html.Document.
Variable RenderHTML : Html.Document -> error + bytes.

(** The state in which a successful or refused write of [data] to the
    file at [l] leaves the system. *)
Definition after_write (s : OS bytes) (path : string) (l : loc)
  (mode : FileMode) (data : bytes) : OS bytes :=
  if may_write mode then
    log_call (with_tree s (put_at l (File mode data) (tree s)))
      (CallWriteFile path (Some l) None)
  else
    log_call s (CallWriteFile path (Some l) (Some (SyscallError EACCES))).

(** The outcomes of one call on an entry: nothing happens, or the entry is
    a readable [.html] file with a reference and is written back. *)
Inductive walkFn_outcome (from to path : string) (d : DirEntry) (s : OS bytes)
  : Result bytes (option error) -> Prop :=
| NotADocument :
    Strings.HasSuffix (Name d) ".html" = false ->
    walkFn_outcome from to path d s (Return None s)
| OpenFails err :
    Strings.HasSuffix (Name d) ".html" = true ->
    Open s path = inl err ->
    walkFn_outcome from to path d s (Return (Some err) s)
| ReadFails l err :
    Strings.HasSuffix (Name d) ".html" = true ->
    Open s path = inr l ->
    ReadAll s l = inl err ->
    walkFn_outcome from to path d s (Return (Some err) s)
| NoReference l mode data :
    Strings.HasSuffix (Name d) ".html" = true ->
    Open s path = inr l ->
    lookup (tree s) l = Some (File mode data) ->
    existsb (isReference from) (Html.Find_a (ParseHTML data)) = false ->
    walkFn_outcome from to path d s (Return None s)
| RenderFails l mode data err :
    Strings.HasSuffix (Name d) ".html" = true ->
    Open s path = inr l ->
    lookup (tree s) l = Some (File mode data) ->
    existsb (isReference from) (Html.Find_a (ParseHTML data)) = true ->
    RenderHTML (map_a (retarget from to) (ParseHTML data)) = inl err ->
    walkFn_outcome from to path d s (Return (Some err) s)
| WrittenBack l mode data data' :
    Strings.HasSuffix (Name d) ".html" = true ->
    Open s path = inr l ->
    lookup (tree s) l = Some (File mode data) ->
    existsb (isReference from) (Html.Find_a (ParseHTML data)) = true ->
    RenderHTML (map_a (retarget from to) (ParseHTML data)) = inr data' ->
    walkFn_outcome from to path d s
      (Return None (after_write s path l mode data')).

(** A call of [walkFn] that changes nothing and reports nothing. *)
Definition quiet (from to : string)
  (v : string * DirEntry * option error) (s : OS bytes) : Prop :=
  walkFn ParseHTML RenderHTML from to (fst (fst v)) (Some (snd (fst v)))
    (snd v) s
  = Return None s.

End Outcomes.

(* ================================================================= *)
(** * Well-formed trees and clean files *)

Fixpoint lacks (sep : ascii) (name : string) : bool :=
  match name with
  | EmptyString => true
  | String c rest => negb (Ascii.eqb c sep) && lacks sep rest
  end.

(** A name that a directory entry can have. *)
Definition regular (name : string) : bool :=
  negb (is_special name) && lacks Filepath.Separator name.

(** An element of a path that [Clean] keeps. *)
Definition not_dot (x : string) : Prop :=
  String.eqb x "" || String.eqb x "." = false.

Fixpoint distinct (names : list string) : bool :=
  match names with
  | [] => true
  | x :: rest => negb (existsb (String.eqb x) rest) && distinct rest
  end.

(** A well-formed tree: the entries of a directory have names that a
    directory entry can have, each name once. *)
Fixpoint well_formed {bytes : Type} (n : Node bytes) : bool :=
  match n with
  | File _ _ => true
  | Dir _ entries =>
      forallb (fun e => regular (fst e)) entries
      && distinct (map fst entries)
      && forallb (fun e => well_formed (snd e)) entries
  end.

(** Every directory of the tree can be listed. *)
Fixpoint all_listable {bytes : Type} (n : Node bytes) : bool :=
  match n with
  | File _ _ => true
  | Dir listable entries =>
      listable && forallb (fun e => all_listable (snd e)) entries
  end.

(** A file that the walk takes for a document holds no reference. *)
Definition clean_file {bytes : Type} (ParseHTML : bytes -> Html.Document)
  (from name : string) (n : Node bytes) : bool :=
  match n with
  | File _ data =>
      negb (Strings.HasSuffix name ".html")
      || negb (existsb (isReference from) (Html.Find_a (ParseHTML data)))
  | Dir _ _ => true
  end.

(** Every file at or below the location [l] is clean; the entry at [l]
    itself goes by the name [name]. *)
Definition clean_below {bytes : Type} (ParseHTML : bytes -> Html.Document)
  (from : string) (s : OS bytes) (l : loc) (name : string) : Prop :=
  forall (r : loc) n, lookup (tree s) (l ++ r)%list = Some n ->
              clean_file ParseHTML from (last r name) n = true.

(* ================================================================= *)
(** * Example projects

    The files of the examples hold their documents as parsed: writing a
    document and reading it again gives the document back. *)

Module Example.
Import Html.

Definition Parse : Document -> Document := fun d => d.
Definition Render : Document -> error + Document := fun d => inr d.

Definition rw : FileMode := {| may_read := true; may_write := true |}.
Definition ro : FileMode := {| may_read := true; may_write := false |}.
Definition unreadable : FileMode := {| may_read := false; may_write := true |}.

Definition a_ (target text : string) : HNode :=
  ElementNode "a" [{| Key := "href"; Val := target |}] [TextNode text].

Definition page (body : list HNode) : Document :=
  [ElementNode "html" []
     [ElementNode "head" [] []; ElementNode "body" [] body]].

Definition start {bytes : Type} (t : Node bytes) (wd : string) : OS bytes :=
  {| tree := t; cwd := wd; stdout := []; calls := [] |}.

Definition note : Document := page [TextNode "a note"].

(** Scenario A: [/proj] with the marker, [/proj/index.html] with one
    anchor, the note [/proj/notes/a.html] and the directory
    [/proj/archive]. *)
Definition projectA {bytes : Type} (marker index a : bytes) : Node bytes :=
  Dir true
    [("proj", Dir true
        [(".zk-root", File rw marker);
         ("archive", Dir true []);
         ("index.html", File rw index);
         ("notes", Dir true [("a.html", File rw a)])])].

(** Scenario A after the move, with the index as given. *)
Definition projectA_moved {bytes : Type} (marker index a : bytes)
  : Node bytes :=
  Dir true
    [("proj", Dir true
        [(".zk-root", File rw marker);
         ("archive", Dir true [("a.html", File rw a)]);
         ("index.html", File rw index);
         ("notes", Dir true [])])].

(** Scenario C: a second document, [/proj/other.html]. *)
Definition projectC {bytes : Type} (marker index other a : bytes)
  : Node bytes :=
  Dir true
    [("proj", Dir true
        [(".zk-root", File rw marker);
         ("archive", Dir true []);
         ("index.html", File rw index);
         ("notes", Dir true [("a.html", File rw a)]);
         ("other.html", File rw other)])].

Definition projectC_moved {bytes : Type} (marker index other a : bytes)
  : Node bytes :=
  Dir true
    [("proj", Dir true
        [(".zk-root", File rw marker);
         ("archive", Dir true [("a.html", File rw a)]);
         ("index.html", File rw index);
         ("notes", Dir true []);
         ("other.html", File rw other)])].

(** The marker in the directory [/] only, above [/a/b]. *)
Definition marker_at_root : Node Document :=
  Dir true [(".zk-root", File rw []); ("a", Dir true [("b", Dir true [])])].

(** [os.Args] of [zk mv fromPath toPath]. *)
Definition mv_args (fromPath toPath : string) : list string :=
  ["zk"; "mv"; fromPath; toPath].

(** One anchor in the body of a page. *)
Definition linking (target : string) : Document := page [a_ target "A"].

(** A project whose first document, [/proj/a.html], has the mode [m];
    [/proj/index.html] refers to the note [/proj/notes/x.html]. *)
Definition project_locked (m : FileMode) : Node Document :=
  Dir true
    [("proj", Dir true
        [(".zk-root", File rw []);
         ("a.html", File m (page [TextNode "locked"]));
         ("archive", Dir true []);
         ("index.html", File rw (linking "/notes/x.html"));
         ("notes", Dir true [("x.html", File rw note)])])].

(** A project next to a directory [/other] that is not part of it. *)
Definition project_and_other : Node Document :=
  Dir true
    [("other", Dir true [("x.html", File rw note)]);
     ("proj", Dir true
        [(".zk-root", File rw []);
         ("index.html", File rw (linking "r/x.html"))])].

(** A project whose index refers to the note [/proj/notes/a.html] without
    the extension; the directory [/proj/notes/a] is there to take the note
    as its index. *)
Definition project_pretty : Node Document :=
  Dir true
    [("proj", Dir true
        [(".zk-root", File rw []);
         ("index.html", File rw (linking "/notes/a"));
         ("notes", Dir true [("a", Dir true []); ("a.html", File rw note)])])].

Definition project_pretty_moved : Node Document :=
  Dir true
    [("proj", Dir true
        [(".zk-root", File rw []);
         ("index.html", File rw (linking "/notes/a"));
         ("notes", Dir true
            [("a", Dir true [("index.html", File rw note)])])])].

End Example.

(* ================================================================= *)
(** * Vocabulary of the search for the root *)

(** The one error of [ZkRoot]. *)
Definition not_found : string * option error :=
  ("", Some (ErrorString ".zk-root cannot be found")).

(** [os.Stat] reports that [desiredPath] holds no marker. *)
Definition marker_missing {bytes : Type} (s : OS bytes) (desiredPath : string)
  : bool :=
  IsNotExist (err_of (Stat s (Filepath.Join [desiredPath; ZK_ROOT_FILENAME]))).

(** [q] is [p], or what stands in [p] before one of its separators. *)
Definition cut_at_separator (q p : string) : Prop :=
  exists rest,
    p = (q ++ rest)%string
    /\ (rest = "" \/ exists rest', rest = String Filepath.Separator rest').

(** The path of a location: every name with a separator before it.  The
    location of the directory [/] gets the empty path. *)
Definition path_to (l : loc) : string := Strings.Join ("" :: l) "/".

(** The directory at [l] has an entry with the name of the marker. *)
Definition holds_marker {bytes : Type} (t : Node bytes) (l : loc) : bool :=
  match lookup t (l ++ [ZK_ROOT_FILENAME])%list with
  | Some _ => true
  | None => false
  end.

(** The deepest directory with the marker among those that [below] leads
    through from [above], [above] itself left out. *)
Fixpoint nearest_marked {bytes : Type} (t : Node bytes) (above : loc)
  (below : list string) : option loc :=
  match below with
  | [] => None
  | x :: rest =>
      match nearest_marked t (above ++ [x])%list rest with
      | Some l => Some l
      | None => if holds_marker t (above ++ [x])%list
                then Some (above ++ [x])%list else None
      end
  end.

(* ================================================================= *)
(** * Vocabulary of the outcomes of [mv] *)

(** A recorded call of [WriteFile]. *)
Definition is_write (c : call) : bool :=
  match c with
  | CallWriteFile _ _ _ => true
  | CallRename _ _ _ => false
  end.

(** What a rewrite pass may have done between the states [s0] and [s']:
    it has replaced the contents of files and made calls of [WriteFile];
    the entries, their kinds and their modes are as they were, and so are
    the working directory and the standard output. *)
Definition rewritten {bytes : Type} (s0 s' : OS bytes) : Prop :=
  shape (tree s') = shape (tree s0)
  /\ cwd s' = cwd s0
  /\ stdout s' = stdout s0
  /\ exists cs, calls s' = (calls s0 ++ cs)%list /\ forallb is_write cs = true.

(** No file of the tree holds an anchor that refers to the path [from]. *)
Fixpoint unreferenced {bytes : Type} (ParseHTML : bytes -> Html.Document)
  (from : string) (n : Node bytes) : bool :=
  match n with
  | File _ data =>
      negb (existsb (isReference from) (Html.Find_a (ParseHTML data)))
  | Dir _ entries =>
      forallb (fun e => unreferenced ParseHTML from (snd e)) entries
  end.

(** A recorded call of [WriteFile] on a path whose last element ends in
    [.html]. *)
Definition writes_a_document (c : call) : bool :=
  match c with
  | CallWriteFile path _ _ => Strings.HasSuffix (basename path) ".html"
  | CallRename _ _ _ => false
  end.

(* ================================================================= *)
(** * The rest of [main]: the help text, [version] and [serve] *)

Definition ZK_VERSION : string := "0.0.0".
Definition DEFAULT_SERVER_PORT : Z := 8080.
Definition DEFAULT_SERVER_DIRECTORY : string := ".".

(** The verb [%d] of [fmt] on an [int]. *)
Definition FormatInt (n : Z) : string := NilZero.string_of_int (Z.to_int n).

(** The two variables that the flags of [serve] set. *)
Record ServeFlags : Set := {
  serverPort : Z;
  serverDesiredDirectory : string
}.

(** The errors of [FlagSet.Parse]. *)
Inductive FlagError : Set :=
| ErrHelp
| BadFlagSyntax (s : string)
| FlagNotDefined (name : string)
| FlagNeedsArgument (name : string)
| InvalidValue (value name : string).

(** The loop of [FlagSet.parseOne] that looks for the [=] of [name=value]:
    the name up to the first [=] and what follows it. *)
Fixpoint cut_at_equals (s : string) : string * option string :=
  match s with
  | EmptyString => (EmptyString, None)
  | String c s' =>
      if Ascii.eqb c "="%char then (EmptyString, Some s')
      else let '(name, value) := cut_at_equals s' in (String c name, value)
  end.

Section Main.
Variable bytes : Type.
Variable ParseHTML : bytes -> Html.Document.
Variable RenderHTML : Html.Document -> error + bytes.

(** [strconv.ParseInt(s, 0, strconv.IntSize)], which the [Set] method of
    an [int] flag calls; [None] is its syntax or range error. *)
Variable ParseInt : string -> option Z.

Notation "c ;;; k" := (bind c (fun _ => k))
  (at level 61, right associativity).

Definition PrintHelpText : M bytes unit :=
  Println "ZK is a command line tool for managing zettelkastens" ;;;
  Println "" ;;;
  Println "Usage:" ;;;
  Println (tab ++ "zk <command> [arguments]") ;;;
  Println "Available commands:" ;;;
  Println (tab ++ "zk version" ++ tab ++ "Get the current ZK CLI version") ;;;
  Println (tab ++ "zk serve" ++ tab
           ++ "Serve a ZK in the current working directory") ;;;
  Println (tab ++ "zk mv frompath topath" ++ tab
           ++ "Move the item(s) at frompath to topath, updating references to them").

(** [serveFlagSet.formal[name]], with the [Set] method of the flag: [port]
    and [p] set the one variable, [dir] and [d] the other. *)
Definition formal (name : string)
  : option (ServeFlags -> string -> option ServeFlags) :=
  if String.eqb name "port" || String.eqb name "p" then
    Some (fun flags value =>
            match ParseInt value with
            | Some n =>
                Some {| serverPort := n;
                        serverDesiredDirectory := serverDesiredDirectory flags |}
            | None => None
            end)
  else if String.eqb name "dir" || String.eqb name "d" then
    Some (fun flags value =>
            Some {| serverPort := serverPort flags;
                    serverDesiredDirectory := value |})
  else None.

(** [serveFlagSet.Parse(arguments)], as far as its error comes back:
    [parseOne] is run until it sees no flag.  None of the flags is a
    boolean flag, so each takes a value, from [name=value] or from the
    next argument. *)
Fixpoint FlagSet_Parse (flags : ServeFlags) (arguments : list string)
  : FlagError + ServeFlags :=
  match arguments with
  | [] => inr flags
  | s :: rest =>
      match s with
      | String c0 (String c1 after) =>
          if negb (Ascii.eqb c0 "-"%char) then inr flags
          else if Ascii.eqb c1 "-"%char && String.eqb after "" then inr flags
          else
            let numMinuses := if Ascii.eqb c1 "-"%char then 2 else 1 in
            match Strings.drop numMinuses s with
            | EmptyString => inl (BadFlagSyntax s)
            | String c name' =>
                if Ascii.eqb c "-"%char || Ascii.eqb c "="%char
                then inl (BadFlagSyntax s)
                else
                  let '(name', value) := cut_at_equals name' in
                  let name := String c name' in
                  match formal name with
                  | None =>
                      if String.eqb name "help" || String.eqb name "h"
                      then inl ErrHelp
                      else inl (FlagNotDefined name)
                  | Some set =>
                      match value, rest with
                      | Some value, _ =>
                          match set flags value with
                          | Some flags' => FlagSet_Parse flags' rest
                          | None => inl (InvalidValue value name)
                          end
                      | None, value :: rest' =>
                          match set flags value with
                          | Some flags' => FlagSet_Parse flags' rest'
                          | None => inl (InvalidValue value name)
                          end
                      | None, [] => inl (FlagNeedsArgument name)
                      end
                  end
            end
      | _ => inr flags
      end
  end.

(** How a run of the program ends: the process has ended, or it is in
    [http.ListenAndServe(addr, nil)], serving the files of [dir] until the
    call returns, with an error or without, and [after] goes on from
    there. *)
Inductive Run : Type :=
| Ended (r : Result bytes unit)
| ListenAndServe (addr : string) (dir : string) (s : OS bytes)
    (after : option error -> M bytes unit).

(** The [serve] case of [main].  The flag set is made with
    [flag.ExitOnError]: the request for help ends the process with status
    0, every other error of [Parse] with status 2, after a message on the
    standard error. *)
Definition serve (Args : list string) (s : OS bytes) : Run :=
  match FlagSet_Parse {| serverPort := DEFAULT_SERVER_PORT;
                 serverDesiredDirectory := DEFAULT_SERVER_DIRECTORY |}
          (skipn 2 Args) with
  | inl ErrHelp => Ended (Exit 0 s)
  | inl _ => Ended (Exit 2 s)
  | inr flags =>
      let workingDir := cwd s in
      let serverDirectory :=
        Filepath.Join [workingDir; serverDesiredDirectory flags] in
      match ZkRoot s serverDirectory with
      | (_, Some err) =>
          Ended ((Printf ("Error finding ZK root: " ++ Error err ++ newline) ;;;
                  os_Exit 1) s)
      | (zkRootDirectory, None) =>
          ListenAndServe (":" ++ FormatInt (serverPort flags)) zkRootDirectory
            (print s ("Listening on http://localhost:"
                      ++ FormatInt (serverPort flags) ++ newline))
            (fun err =>
               match err with
               | Some err =>
                   Printf ("Error starting HTTP server: "
                           ++ Error err ++ newline) ;;;
                   os_Exit 1
               | None => ret tt
               end)
      end
  end.

(** [main]; [Args] is [os.Args]. *)
Definition main (Args : list string) (s : OS bytes) : Run :=
  if Nat.ltb (length Args) 2 then
    Ended ((PrintHelpText ;;; os_Exit 2) s)
  else
    let command := nth 1 Args "" in
    if String.eqb command "version" then
      Ended (Printf ("ZK Version: " ++ ZK_VERSION ++ newline) s)
    else if String.eqb command "serve" || String.eqb command "run" then
      serve Args s
    else if String.eqb command "mv" || String.eqb command "move" then
      Ended (mv ParseHTML RenderHTML Args s)
    else
      Ended ((PrintHelpText ;;; os_Exit 2) s).

End Main.

(** The state in which a run is left. *)
Definition state_of {bytes : Type} (r : Run bytes) : OS bytes :=
  match r with
  | Ended r => final r
  | ListenAndServe _ _ s _ => s
  end.

(** The commands that [main] knows. *)
Definition known_command (command : string) : bool :=
  String.eqb command "version"
  || String.eqb command "serve" || String.eqb command "run"
  || String.eqb command "mv" || String.eqb command "move".

(** The state after the help text. *)
Definition help_printed {bytes : Type} (s : OS bytes) : OS bytes :=
  final (PrintHelpText (bytes := bytes) s).

(* ================================================================= *)
(** * More example projects *)

Module Cases.
Import Html Example.

(** Scenario A with the anchor of the index written as [target]. *)
Definition scenarioA (target wd : string) : OS Document :=
  start (projectA [] (linking target) note) wd.

(** The project of scenario A below its root. *)
Definition below_proj (target : string) : Node Document :=
  Dir true
    [(".zk-root", File rw []);
     ("archive", Dir true []);
     ("index.html", File rw (linking target));
     ("notes", Dir true [("a.html", File rw note)])].

(** A project with a directory whose name ends in [.html], before the
    index in the order of the names. *)
Definition project_with_a_directory_document : Node Document :=
  Dir true
    [("proj", Dir true
        [(".zk-root", File rw []);
         ("a.html", Dir true [("x.html", File rw (linking "/notes/a.html"))]);
         ("index.html", File rw (linking "/notes/a.html"));
         ("notes", Dir true [("a.html", File rw note)])])].

(** A stand-in for [strconv.ParseInt] in the examples: the decimal
    numerals without a sign and without a zero in front, which
    [strconv.ParseInt] reads as written. *)
Definition ParseDecimal (s : string) : option Z :=
  match s with
  | EmptyString => None
  | String "0" (String _ _) => None
  | _ => option_map (fun d => Z.of_uint d) (NilEmpty.uint_of_string s)
  end.

(** [os.Args] of [zk serve -p 9000]. *)
Definition serve_args : list string := ["zk"; "serve"; "-p"; "9000"].

End Cases.

(* ================================================================= *)
(** * Sanity checks of the library models *)

Example Clean_examples :
  map Filepath.Clean
    ["/proj/notes/../a.html"; "a//b/./c/"; "../../x"; "/.."; ""; "/"; "a/.."]
  = ["/proj/a.html"; "a/b/c"; "../../x"; "/"; "."; "/"; "."].
Proof. reflexivity. Qed.

Example Base_Dir_examples :
  (map Filepath.Base ["/notes/sub/index.html"; "/proj"; "/"; ""; "a/b/"],
   map Filepath.Dir ["/notes/sub/index.html"; "/index.html"; "a.html"; "/proj/"])
  = (["index.html"; "proj"; "/"; "."; "b"],
     ["/notes/sub"; "/"; "."; "/proj"]).
Proof. reflexivity. Qed.

Example Join_examples :
  map Filepath.Join [["/proj"; "notes/a.html"]; [""; ".zk-root"]; ["/"; ".zk-root"];
                     ["/proj/sub"; "../../other/x.html"]; [""; ""]]
  = ["/proj/notes/a.html"; ".zk-root"; "/.zk-root"; "/other/x.html"; ""].
Proof. reflexivity. Qed.

Example LinkFormSet_examples :
  map LinkFormSet ["/notes/a.html"; "/notes/sub/index.html"; "/notes/pic.png"]
  = [["/notes/a.html"; "/notes/a"];
     ["/notes/sub/index.html"; "/notes/sub"; "/notes/sub/index"];
     ["/notes/pic.png"]].
Proof. reflexivity. Qed.

(* ================================================================= *)
(** * Documents: what [Find("a").Each] does *)

Section DocumentFacts.
Import Html.

Lemma HNode_induction (P : HNode -> Prop) :
  (forall data, P (TextNode data)) ->
  (forall data, P (CommentNode data)) ->
  (forall tag attr children,
      Forall P children -> P (ElementNode tag attr children)) ->
  forall n, P n.
Proof.
  intros HT HC HE.
  fix IH 1.
  intros [data|data|tag attr children]; [apply HT | apply HC | apply HE].
  induction children as [|c children IHc]; constructor; [apply IH | exact IHc].
Qed.

Lemma updateAnchor_spec from to attr acc :
  updateAnchor from to attr acc
  = (retarget from to attr, acc || isReference from attr).
Proof.
  unfold updateAnchor, retarget, isReference, hrefMatches.
  destruct (Attr attr "href") as [v found]; simpl.
  destruct (found && _); [rewrite orb_true_r | rewrite orb_false_r]; reflexivity.
Qed.

Lemma each_a_node_spec from to n acc :
  each_a_node (updateAnchor from to) n acc
  = (map_a_node (retarget from to) n,
     acc || existsb (isReference from) (anchors_node n)).
Proof.
  revert acc.
  induction n as [data|data|tag attr children IH] using HNode_induction;
    intros acc; simpl; try (rewrite orb_false_r; reflexivity).
  set (go := fix each_a_list (l : list HNode) (acc0 : bool) :=
               match l with
               | [] => ([], acc0)
               | c :: rest =>
                   let '(c', acc') := each_a_node (updateAnchor from to) c acc0 in
                   let '(rest', acc'') := each_a_list rest acc' in
                   (c' :: rest', acc'')
               end).
  assert (Hgo : forall acc0,
             go children acc0
             = (map (map_a_node (retarget from to)) children,
                acc0 || existsb (isReference from)
                          (flat_map anchors_node children))).
  { induction IH as [|c rest Hc _ IHrest]; intros acc0; simpl.
    - rewrite orb_false_r; reflexivity.
    - rewrite Hc, IHrest, existsb_app, orb_assoc; reflexivity. }
  destruct (String.eqb tag "a"); simpl.
  - rewrite updateAnchor_spec, Hgo, orb_assoc; reflexivity.
  - rewrite Hgo; reflexivity.
Qed.

Lemma FindEach_a_spec from to doc acc :
  FindEach_a (updateAnchor from to) doc acc
  = (map_a (retarget from to) doc,
     acc || existsb (isReference from) (Find_a doc)).
Proof.
  revert acc; induction doc as [|n rest IH]; intros acc; simpl.
  - rewrite orb_false_r; reflexivity.
  - rewrite each_a_node_spec, IH.
    unfold Find_a; simpl; rewrite existsb_app, orb_assoc; reflexivity.
Qed.

End DocumentFacts.

(* ================================================================= *)
(** * The walk *)

Section WalkFacts.
Variable bytes : Type.
Implicit Types (s : OS bytes) (n : Node bytes).

Lemma Node_induction (P : Node bytes -> Prop) :
  (forall mode data, P (File mode data)) ->
  (forall listable entries,
      Forall (fun e => P (snd e)) entries -> P (Dir listable entries)) ->
  forall n, P n.
Proof.
  intros HF HD.
  fix IH 1.
  intros [mode data|listable entries]; [apply HF | apply HD].
  induction entries as [|[name c] entries IHe]; constructor;
    [apply IH | exact IHe].
Qed.

Variable fn : string -> option DirEntry -> option error -> M bytes (option error).

Lemma walkDir_File path d mode data s :
  walkDir fn path d (File mode data) s
  = bind (fn path (Some d) None)
      (fun err => match err with Some _ => ret err | None => ret None end) s.
Proof. reflexivity. Qed.

Lemma walkDir_Dir path d listable entries s :
  walkDir fn path d (Dir listable entries) s
  = bind (fn path (Some d) None)
      (fun err =>
         match err with
         | Some _ => ret err
         | None =>
             if listable then walkEntries fn path entries
             else fn path (Some d) (Some (SyscallError EACCES))
         end) s.
Proof.
  simpl. unfold bind at 1 3.
  destruct (fn path (Some d) None s) as [[e|] s1|code s1|s1]; try reflexivity.
  destruct listable; [|reflexivity].
  revert s1; induction entries as [|[name c] rest IH]; intros s1;
    [reflexivity|].
  simpl. unfold bind at 1 3.
  destruct (walkDir fn _ _ c s1) as [[e|] s2|code s2|s2]; try reflexivity.
  apply IH.
Qed.

(** Whatever every call of [fn] preserves, the walk preserves. *)
Lemma walkDir_preserves (I : OS bytes -> Prop) :
  (forall path d e s, I s -> I (final (fn path d e s))) ->
  forall n path d s, I s -> I (final (walkDir fn path d n s)).
Proof.
  intros Hfn n.
  induction n as [mode data|listable entries IH] using Node_induction;
    intros path d s Hs.
  - rewrite walkDir_File. unfold bind.
    pose proof (Hfn path (Some d) None s Hs) as H1.
    destruct (fn path (Some d) None s) as [[e|] s1|code s1|s1]; exact H1.
  - rewrite walkDir_Dir. unfold bind.
    pose proof (Hfn path (Some d) None s Hs) as H1.
    destruct (fn path (Some d) None s) as [[e|] s1|code s1|s1];
      try exact H1.
    simpl in H1. destruct listable; [|apply Hfn; exact H1].
    clear Hs. revert s1 H1.
    induction IH as [|[name c] rest Hc _ IHrest]; intros s1 H1; [exact H1|].
    simpl. unfold bind.
    pose proof (Hc (Filepath.Join [path; name])
                  {| Name := name; IsDir := is_dir c |} s1 H1) as H2.
    simpl in H2.
    destruct (walkDir fn _ _ c s1) as [[e|] s2|code s2|s2]; try exact H2.
    apply IHrest; exact H2.
Qed.

Lemma WalkDir_preserves (I : OS bytes -> Prop) :
  (forall path d e s, I s -> I (final (fn path d e s))) ->
  forall root s, I s -> I (final (WalkDir root fn s)).
Proof.
  intros Hfn root s Hs. unfold WalkDir.
  destruct (Lstat s root) as [err|info].
  - apply Hfn; exact Hs.
  - destruct (resolve s root) as [e|l]; [apply Hfn; exact Hs|].
    destruct (lookup (tree s) l) as [n|]; [|apply Hfn; exact Hs].
    apply walkDir_preserves; assumption.
Qed.

Lemma walkEntries_preserves (I : OS bytes -> Prop) :
  (forall path d e s, I s -> I (final (fn path d e s))) ->
  forall es path s, I s -> I (final (walkEntries fn path es s)).
Proof.
  intros Hfn es path.
  induction es as [|[name c] rest IH]; intros s Hs; [exact Hs|].
  simpl. unfold bind.
  pose proof (walkDir_preserves I Hfn c (Filepath.Join [path; name])
                {| Name := name; IsDir := is_dir c |} s Hs) as H.
  destruct (walkDir fn _ _ c s) as [[e|] s1|code s1|s1]; try exact H.
  apply IH; exact H.
Qed.

End WalkFacts.

(* ================================================================= *)
(** * The tree *)

Section TreeFacts.
Variable bytes : Type.
Implicit Types (t n : Node bytes) (l : loc).

Lemma loc_eqb_eq (a b : loc) : loc_eqb a b = true <-> a = b.
Proof.
  revert b; induction a as [|x a IH]; destruct b as [|y b]; simpl;
    try (split; [discriminate | congruence]); [tauto|].
  rewrite andb_true_iff, String.eqb_eq, IH.
  split; [intros [-> ->]; reflexivity | intros [= -> ->]; auto].
Qed.

Lemma loc_eqb_refl (a : loc) : loc_eqb a a = true.
Proof. apply loc_eqb_eq; reflexivity. Qed.

Lemma loc_eqb_neq (a b : loc) : loc_eqb a b = false <-> a <> b.
Proof.
  rewrite <- loc_eqb_eq. destruct (loc_eqb a b); split; congruence.
Qed.

Lemma assoc_replace_spec {A : Type} (k x : string) (v : A) es :
  assoc k (assoc_replace x v es)
  = if String.eqb k x
    then match assoc x es with Some _ => Some v | None => None end
    else assoc k es.
Proof.
  induction es as [|[k0 v0] es IH]; simpl.
  - destruct (String.eqb k x); reflexivity.
  - destruct (String.eqb_spec x k0) as [->|Hx]; simpl.
    + destruct (String.eqb_spec k k0); reflexivity.
    + rewrite IH.
      destruct (String.eqb_spec k k0) as [->|Hk]; [|reflexivity].
      destruct (String.eqb_spec k0 x); congruence.
Qed.

Lemma assoc_insert_spec {A : Type} (k x : string) (v : A) es :
  assoc x es = None ->
  assoc k (assoc_insert x v es)
  = if String.eqb k x then Some v else assoc k es.
Proof.
  induction es as [|[k0 v0] es IH]; simpl; intros Hx.
  - reflexivity.
  - destruct (String.eqb_spec x k0) as [->|Hxk]; [discriminate|].
    destruct (String.ltb x k0); simpl.
    + destruct (String.eqb_spec k x); reflexivity.
    + rewrite (IH Hx).
      destruct (String.eqb_spec k k0) as [->|Hk]; [|reflexivity].
      destruct (String.eqb_spec k0 x); congruence.
Qed.

Lemma assoc_put_spec {A : Type} (k x : string) (v : A) es :
  assoc k (assoc_put x v es)
  = if String.eqb k x then Some v else assoc k es.
Proof.
  unfold assoc_put. destruct (assoc x es) as [c|] eqn:E.
  - rewrite assoc_replace_spec, E; reflexivity.
  - apply assoc_insert_spec; exact E.
Qed.

(** Replacing a file leaves every other file as it was. *)
Lemma lookup_put_at_other l v t l0 mode0 data0 mode data :
  lookup t l = Some (File mode data) ->
  lookup t l0 = Some (File mode0 data0) ->
  l <> l0 ->
  lookup (put_at l v t) l0 = Some (File mode0 data0).
Proof.
  revert t l0; induction l as [|x l IH]; intros t l0 Hl Hl0 Hne.
  - simpl in Hl. injection Hl as ->.
    destruct l0; [congruence | discriminate].
  - destruct l0 as [|y l0]; [simpl in Hl0; injection Hl0 as ->; discriminate|].
    destruct t as [m d|m es]; [discriminate|].
    simpl in Hl, Hl0 |- *.
    destruct (assoc x es) as [c|] eqn:Ex; [|discriminate].
    destruct l as [|x' l].
    + simpl. rewrite assoc_put_spec.
      destruct (String.eqb_spec y x) as [->|Hy]; [|exact Hl0].
      rewrite Ex in Hl0. simpl in Hl. injection Hl as ->.
      destruct l0; [congruence | discriminate].
    + simpl. rewrite assoc_put_spec.
      destruct (String.eqb_spec y x) as [->|Hy]; [|exact Hl0].
      rewrite Ex in Hl0. apply IH; congruence.
Qed.

Lemma lookup_put_at_same l v t mode data :
  lookup t l = Some (File mode data) ->
  lookup (put_at l v t) l = Some v.
Proof.
  revert t; induction l as [|x l IH]; intros t Hl; [reflexivity|].
  destruct t as [m d|m es]; [discriminate|].
  simpl in Hl |- *.
  destruct (assoc x es) as [c|] eqn:Ex; [|discriminate].
  destruct l as [|x' l]; simpl; rewrite assoc_put_spec, String.eqb_refl.
  - reflexivity.
  - apply IH; exact Hl.
Qed.

End TreeFacts.

(* ================================================================= *)
(** * Trees of the same shape *)

Section ShapeFacts.
Variable bytes : Type.
Implicit Types (t n : Node bytes) (l : loc) (s : OS bytes).

Lemma assoc_shape name (es : list (string * Node bytes)) :
  assoc name (map (fun e => (fst e, shape (snd e))) es)
  = option_map shape (assoc name es).
Proof.
  induction es as [|[k c] es IH]; simpl; [reflexivity|].
  destruct (String.eqb name k); [reflexivity | exact IH].
Qed.

Lemma lookup_shape t l :
  lookup (shape t) l = option_map shape (lookup t l).
Proof.
  revert t; induction l as [|x l IH]; intros t; [reflexivity|].
  destruct t as [m d|m es]; simpl; [reflexivity|].
  rewrite assoc_shape. destruct (assoc x es) as [c|]; simpl; [apply IH|reflexivity].
Qed.

Lemma namei_shape t cur comps :
  namei (shape t) cur comps = namei t cur comps.
Proof.
  revert cur; induction comps as [|c comps IH]; intros cur; [reflexivity|].
  simpl. rewrite lookup_shape.
  destruct (lookup t cur) as [[m d|m es]|]; simpl; try reflexivity.
  destruct (String.eqb c "" || String.eqb c "."); [apply IH|].
  destruct (String.eqb c ".."); [apply IH|].
  rewrite assoc_shape. destruct (assoc c es); simpl; [apply IH | reflexivity].
Qed.

Lemma assoc_replace_same {A : Type} name (v : A) es :
  assoc name es = Some v -> assoc_replace name v es = es.
Proof.
  induction es as [|[k x] es IH]; simpl; [reflexivity|].
  destruct (String.eqb name k); intros H.
  - injection H as ->; reflexivity.
  - rewrite (IH H); reflexivity.
Qed.

Lemma map_assoc_replace {A B : Type} (f : A -> B) name v
  (es : list (string * A)) :
  map (fun e => (fst e, f (snd e))) (assoc_replace name v es)
  = assoc_replace name (f v) (map (fun e => (fst e, f (snd e))) es).
Proof.
  induction es as [|[k x] es IH]; simpl; [reflexivity|].
  destruct (String.eqb name k); simpl; [reflexivity|].
  rewrite IH; reflexivity.
Qed.

(** Putting a node where one of the same shape is keeps the shape. *)
Lemma shape_put_at l v t n0 :
  lookup t l = Some n0 -> shape v = shape n0 ->
  shape (put_at l v t) = shape t.
Proof.
  revert t; induction l as [|x l IH]; intros t Hl Hv.
  - simpl in *. congruence.
  - destruct t as [m d|m es]; [discriminate|].
    simpl in Hl. destruct (assoc x es) as [c|] eqn:Ex; [|discriminate].
    assert (E : forall v', shape v' = shape c ->
                shape (Dir m (assoc_put x v' es)) = shape (Dir m es)).
    { intros v' Hv'. simpl. f_equal. unfold assoc_put. rewrite Ex.
      rewrite map_assoc_replace, Hv'. apply assoc_replace_same.
      rewrite assoc_shape, Ex; reflexivity. }
    destruct l as [|x' l].
    + simpl in Hl. injection Hl as ->. simpl put_at. apply E; exact Hv.
    + change (put_at (x :: x' :: l) v (Dir m es))
        with (match assoc x es with
              | Some c0 => Dir m (assoc_put x (put_at (x' :: l) v c0) es)
              | None => Dir m es
              end).
      rewrite Ex. apply E. apply IH; assumption.
Qed.

Lemma resolve_same_shape s s' path :
  shape (tree s') = shape (tree s) -> cwd s' = cwd s ->
  resolve s' path = resolve s path.
Proof.
  intros Ht Hc. unfold resolve, components. rewrite Hc.
  destruct (String.eqb path ""); [reflexivity|].
  rewrite <- (namei_shape (tree s')), <- (namei_shape (tree s)), Ht.
  reflexivity.
Qed.

Lemma lookup_same_shape t t' l :
  shape t' = shape t ->
  match lookup t l, lookup t' l with
  | Some (File m _), Some (File m' _) => m = m'
  | Some (Dir m es), Some (Dir m' es') => m = m' /\ map fst es = map fst es'
  | None, None => True
  | _, _ => False
  end.
Proof.
  intros H.
  pose proof (lookup_shape t l) as E. pose proof (lookup_shape t' l) as E'.
  rewrite H in E'. rewrite E in E'.
  destruct (lookup t l) as [[m d|m es]|], (lookup t' l) as [[m' d'|m' es']|];
    simpl in E'; try discriminate; auto.
  - injection E' as ->; reflexivity.
  - injection E' as -> E'. split; [reflexivity|].
    apply (f_equal (map fst)) in E'. rewrite !map_map in E'. exact E'.
Qed.

Lemma Open_same_shape s s' path :
  shape (tree s') = shape (tree s) -> cwd s' = cwd s ->
  Open s' path = Open s path.
Proof.
  intros Ht Hc. unfold Open. rewrite (resolve_same_shape _ _ _ Ht Hc).
  destruct (resolve s path) as [e|l]; [reflexivity|].
  pose proof (lookup_same_shape (tree s) (tree s') l Ht) as K.
  destruct (lookup (tree s) l) as [[m d|m es]|],
           (lookup (tree s') l) as [[m' d'|m' es']|]; try contradiction;
    try reflexivity.
  - subst; reflexivity.
  - destruct K as [-> _]; reflexivity.
Qed.

Lemma Stat_same_shape s s' path :
  shape (tree s') = shape (tree s) -> cwd s' = cwd s ->
  Stat s' path = Stat s path.
Proof.
  intros Ht Hc. unfold Stat. rewrite (resolve_same_shape _ _ _ Ht Hc).
  destruct (resolve s path) as [e|l]; [reflexivity|].
  pose proof (lookup_same_shape (tree s) (tree s') l Ht) as K.
  destruct (lookup (tree s) l) as [[m d|m es]|],
           (lookup (tree s') l) as [[m' d'|m' es']|]; try contradiction;
    reflexivity.
Qed.

Lemma visits_same_shape (n n' : Node bytes) path d :
  shape n' = shape n -> visits path d n' = visits path d n.
Proof.
  revert n' path d.
  induction n as [m dat|m es IH] using Node_induction;
    intros [m' dat'|m' es'] path d H; simpl in H; try discriminate;
    [reflexivity|].
  injection H as -> H. simpl. f_equal. destruct m; [|reflexivity].
  revert es' H. induction IH as [|[k c] es Hc _ IHes];
    intros [|[k' c'] es'] H; simpl in H; try discriminate; [reflexivity|].
  injection H as -> Hc' H. simpl. f_equal.
  - assert (K : is_dir c' = is_dir c).
    { destruct c, c'; simpl in Hc'; try discriminate; reflexivity. }
    rewrite K. apply Hc. exact Hc'.
  - apply IHes. exact H.
Qed.

End ShapeFacts.

(* ================================================================= *)
(** * The function that [mv] gives to the walk *)

Section WalkFnFacts.
Variable bytes : Type.
Variable ParseHTML : bytes -> Html.Document.
Variable RenderHTML : Html.Document -> error + bytes.
Implicit Types (s : OS bytes) (l : loc).

Lemma Open_resolve s path l :
  Open s path = inr l -> resolve s path = inr l.
Proof.
  unfold Open. destruct (resolve s path) as [e|l0]; [discriminate|].
  destruct (lookup (tree s) l0) as [[m d|m es]|]; try discriminate.
  - destruct (may_read m); [congruence | discriminate].
  - destruct m; [congruence | discriminate].
Qed.

Lemma walkFn_cases from to path d e s :
  walkFn_outcome ParseHTML RenderHTML from to path d s
    (walkFn ParseHTML RenderHTML from to path (Some d) e s).
Proof.
  unfold walkFn.
  destruct (Strings.HasSuffix (Name d) ".html") eqn:Hhtml;
    [|apply NotADocument; exact Hhtml].
  unfold bind, reads, ret.
  destruct (Open s path) as [err|l] eqn:Hopen;
    [eapply OpenFails; eassumption|].
  unfold NewDocumentFromReader.
  destruct (ReadAll s l) as [err|data] eqn:Hread;
    [eapply ReadFails; eassumption|].
  assert (exists mode, lookup (tree s) l = Some (File mode data)) as [mode Hl].
  { unfold ReadAll in Hread.
    destruct (lookup (tree s) l) as [[m d0|m es]|]; try discriminate.
    exists m; congruence. }
  rewrite FindEach_a_spec. simpl.
  destruct (existsb _ _) eqn:Href;
    [|eapply NoReference; eassumption].
  destruct (RenderHTML _) as [err|data'] eqn:Hrender;
    [eapply RenderFails; eassumption|].
  assert (W : walkFn_outcome ParseHTML RenderHTML from to path d s
                (Return None (after_write s path l mode data')))
    by (eapply WrittenBack; eassumption).
  unfold WriteFile. rewrite (Open_resolve _ _ Hopen), Hl.
  unfold after_write in W. destruct (may_write mode); exact W.
Qed.

End WalkFnFacts.

(* ================================================================= *)
(** * References and link forms *)

Section ReferenceFacts.
Import Html.

(** The test of the program is membership in the link-form set. *)
Lemma hrefMatches_LinkFormSet from h :
  hrefMatches from h = true <-> In h (LinkFormSet from).
Proof.
  unfold hrefMatches, LinkFormSet.
  destruct (String.eqb (Filepath.Base from) "index.html");
    destruct (Strings.HasSuffix from ".html"); simpl;
    rewrite ?orb_false_r, ?orb_true_iff, ?String.eqb_eq;
    intuition (try discriminate; subst; auto).
Qed.

Lemma isReference_LinkFormSet from attr :
  isReference from attr = true
  <-> exists h, href attr = Some h /\ In h (LinkFormSet from).
Proof.
  unfold isReference, href.
  destruct (Attr attr "href") as [v found]; simpl.
  rewrite andb_true_iff, hrefMatches_LinkFormSet.
  split.
  - intros [-> H]. exists v; auto.
  - intros (h & Hh & H). destruct found; [|discriminate].
    injection Hh as ->; auto.
Qed.

Lemma no_reference_iff from doc :
  existsb (isReference from) (Find_a doc) = false
  <-> (forall attr h, In attr (Find_a doc) -> href attr = Some h ->
                      ~ In h (LinkFormSet from)).
Proof.
  split.
  - intros H attr h Hin Hh Hform.
    assert (existsb (isReference from) (Find_a doc) = true); [|congruence].
    apply existsb_exists. exists attr. split; [exact Hin|].
    apply isReference_LinkFormSet. eauto.
  - intros H. destruct (existsb _ _) eqn:E; [|reflexivity].
    apply existsb_exists in E as (attr & Hin & Href).
    apply isReference_LinkFormSet in Href as (h & Hh & Hform).
    exfalso; eapply H; eassumption.
Qed.

Lemma map_a_node_id g n :
  (forall attr, In attr (anchors_node n) -> g attr = attr) ->
  map_a_node g n = n.
Proof.
  induction n as [data|data|tag attr children IH] using HNode_induction;
    intros Hg; simpl; try reflexivity.
  f_equal.
  - destruct (String.eqb tag "a") eqn:E; [|reflexivity].
    apply Hg. simpl. rewrite E. left; reflexivity.
  - assert (Hc : forall attr, In attr (flat_map anchors_node children) ->
                              g attr = attr).
    { intros a Ha. apply Hg. simpl. apply in_or_app. right; exact Ha. }
    clear Hg. induction IH as [|c rest Hc' _ IHrest]; [reflexivity|].
    simpl. f_equal.
    + apply Hc'. intros a Ha. apply Hc. simpl. apply in_or_app; auto.
    + apply IHrest. intros a Ha. apply Hc. simpl. apply in_or_app; auto.
Qed.

Lemma map_a_id g doc :
  (forall attr, In attr (Find_a doc) -> g attr = attr) ->
  map_a g doc = doc.
Proof.
  unfold map_a, Find_a.
  induction doc as [|n rest IH]; intros Hg; [reflexivity|].
  simpl. f_equal.
  - apply map_a_node_id. intros a Ha. apply Hg. simpl. apply in_or_app; auto.
  - apply IH. intros a Ha. apply Hg. simpl. apply in_or_app; auto.
Qed.

(** A document without a reference comes out of the rewrite as it went
    in, and clean. *)
Lemma FindEach_a_no_reference from to doc :
  existsb (isReference from) (Find_a doc) = false ->
  FindEach_a (updateAnchor from to) doc false = (doc, false).
Proof.
  intros H. rewrite FindEach_a_spec, H. f_equal.
  apply map_a_id. intros attr Hin. unfold retarget.
  destruct (isReference from attr) eqn:E; [|reflexivity].
  assert (existsb (isReference from) (Find_a doc) = true); [|congruence].
  apply existsb_exists. eauto.
Qed.

End ReferenceFacts.

(* ================================================================= *)
(** * The rewrite pass and the files it leaves alone *)

Section FrameFacts.
Variable bytes : Type.
Variable ParseHTML : bytes -> Html.Document.
Variable RenderHTML : Html.Document -> error + bytes.
Implicit Types (s : OS bytes) (l : loc).

Lemma writes_to_log_call l s c :
  writes_to l (calls (log_call s c))
  = (writes_to l (calls s) ++ writes_to l [c])%list.
Proof. unfold writes_to, log_call; simpl. apply filter_app. Qed.

(** One call of [walkFn] leaves a file without a reference as it is. *)
Lemma walkFn_frame from to l mode data path d e s :
  existsb (isReference from) (Html.Find_a (ParseHTML data)) = false ->
  lookup (tree s) l = Some (File mode data) ->
  let s' := final (walkFn ParseHTML RenderHTML from to path d e s) in
  lookup (tree s') l = Some (File mode data)
  /\ writes_to l (calls s') = writes_to l (calls s).
Proof.
  intros Hno Hl. destruct d as [d|]; [|simpl; auto].
  destruct (walkFn_cases ParseHTML RenderHTML from to path d e s)
    as [ | | | | |l' mode' data0 data' Hhtml Hopen Hl' Href Hrender];
    simpl; auto.
  assert (Hne : l' <> l).
  { intros ->. rewrite Hl in Hl'. injection Hl' as _ <-. congruence. }
  unfold after_write. destruct (may_write mode'); simpl; split.
  - eapply lookup_put_at_other; eassumption.
  - rewrite app_nil_r || (unfold writes_to; rewrite filter_app; simpl).
    assert (E : loc_eqb l l' = false) by (apply loc_eqb_neq; congruence).
    rewrite E, app_nil_r; reflexivity.
  - exact Hl.
  - unfold writes_to; rewrite filter_app; simpl.
    assert (E : loc_eqb l l' = false) by (apply loc_eqb_neq; congruence).
    rewrite E, app_nil_r; reflexivity.
Qed.

(** C8.  A document of the tree with no anchor whose [href] is one of the
    link forms of the moved path is left alone by the rewrite pass: the
    walk makes no [WriteFile] call on the file, the bytes of the file stay
    as they are, and rewriting its anchors leaves the document as parsed
    with the dirty flag [false]. *)
Theorem unreferencing_document_untouched
  (from to root : string) (s : OS bytes) (l : loc)
  (mode : FileMode) (data : bytes) :
  lookup (tree s) l = Some (File mode data) ->
  (forall attr h,
      In attr (Html.Find_a (ParseHTML data)) -> href attr = Some h ->
      ~ In h (LinkFormSet from)) ->
  let s' := final (WalkDir root (walkFn ParseHTML RenderHTML from to) s) in
  lookup (tree s') l = Some (File mode data)
  /\ writes_to l (calls s') = writes_to l (calls s)
  /\ Html.FindEach_a (updateAnchor from to) (ParseHTML data) false
     = (ParseHTML data, false).
Proof.
  intros Hl Hno. apply no_reference_iff in Hno.
  assert (I : lookup (tree (final (WalkDir root (walkFn ParseHTML RenderHTML from to) s))) l
              = Some (File mode data)
              /\ writes_to l (calls (final (WalkDir root (walkFn ParseHTML RenderHTML from to) s)))
                 = writes_to l (calls s)).
  { apply (@WalkDir_preserves bytes _
             (fun s0 => lookup (tree s0) l = Some (File mode data)
                        /\ writes_to l (calls s0) = writes_to l (calls s))).
    - intros path d e s0 [H1 H2].
      destruct (@walkFn_frame from to l mode data path d e s0 Hno H1) as [H3 H4].
      split; [exact H3 | congruence].
    - auto. }
  destruct I as [I1 I2]. repeat split; auto.
  apply FindEach_a_no_reference; exact Hno.
Qed.

End FrameFacts.

(* ================================================================= *)
(** * The nil entry *)

Section NilEntry.
Variable bytes : Type.
Variable ParseHTML : bytes -> Html.Document.
Variable RenderHTML : Html.Document -> error + bytes.

(** C10.  The function given to the walk calls [dirEntry.Name()] before
    anything else and never looks at [err]: on a nil entry it panics,
    whatever the error; on an entry it returns, and the same whatever the
    error; so a walk whose root cannot be examined ([os.Lstat] fails, the
    one case in which [WalkDir] passes a nil entry) ends in the panic. *)
Theorem walkFn_nil_entry_panics (from to path root : string)
  (err : option error) (s : OS bytes) :
  walkFn ParseHTML RenderHTML from to path None err s = Panic s
  /\ (forall d,
         walkFn ParseHTML RenderHTML from to path (Some d) err s
         = walkFn ParseHTML RenderHTML from to path (Some d) None s
         /\ exists e s',
             walkFn ParseHTML RenderHTML from to path (Some d) err s
             = Return e s')
  /\ (forall e, Lstat s root = inl e ->
                WalkDir root (walkFn ParseHTML RenderHTML from to) s = Panic s).
Proof.
  split; [reflexivity|]. split.
  - intros d. split; [reflexivity|].
    destruct (walkFn_cases ParseHTML RenderHTML from to path d err s);
      eauto.
  - intros e He. unfold WalkDir. rewrite He. reflexivity.
Qed.

End NilEntry.

(* ================================================================= *)
(** * The dirty flag *)

Section DirtyFlag.
Variable bytes : Type.
Variable ParseHTML : bytes -> Html.Document.
Variable RenderHTML : Html.Document -> error + bytes.

Lemma dirty_iff_existsb from to doc :
  snd (Html.FindEach_a (updateAnchor from to) doc false)
  = existsb (isReference from) (Html.Find_a doc).
Proof. rewrite FindEach_a_spec; reflexivity. Qed.

(** C7, as the program has it.  The dirty flag ([foundReference]) of a
    document becomes true exactly when one of its anchors has an [href]
    that is one of the link forms of the moved path, whether or not
    setting it changes the value; a document that is not dirty is not
    written back, and a call that writes or logs anything was made on a
    dirty document. *)
Theorem dirty_iff_reference (from to path : string) (d : DirEntry)
  (e : option error) (s : OS bytes) (doc : Html.Document) :
  (snd (Html.FindEach_a (updateAnchor from to) doc false) = true
   <-> exists attr h,
        In attr (Html.Find_a doc) /\ href attr = Some h
        /\ In h (LinkFormSet from))
  /\ (forall l mode data,
         Open s path = inr l ->
         lookup (tree s) l = Some (File mode data) ->
         snd (Html.FindEach_a (updateAnchor from to) (ParseHTML data) false)
         = false ->
         walkFn ParseHTML RenderHTML from to path (Some d) e s
         = Return None s)
  /\ (final (walkFn ParseHTML RenderHTML from to path (Some d) e s) <> s ->
      exists l mode data,
        Open s path = inr l
        /\ lookup (tree s) l = Some (File mode data)
        /\ snd (Html.FindEach_a (updateAnchor from to) (ParseHTML data) false)
           = true).
Proof.
  split; [|split].
  - rewrite dirty_iff_existsb, existsb_exists. split.
    + intros (attr & Hin & Href).
      apply isReference_LinkFormSet in Href as (h & Hh & Hform). eauto.
    + intros (attr & h & Hin & Hh & Hform). exists attr. split; [exact Hin|].
      apply isReference_LinkFormSet. eauto.
  - intros l mode data Hopen Hl Hclean. rewrite dirty_iff_existsb in Hclean.
    destruct (walkFn_cases ParseHTML RenderHTML from to path d e s)
      as [ |err ? Ho|l' err ? Ho Hr| |l' mode' data0 err ? Ho Hl' Href
          |l' mode' data0 data' ? Ho Hl' Href]; try reflexivity.
    + congruence.
    + rewrite Hopen in Ho. injection Ho as <-.
      unfold ReadAll in Hr. rewrite Hl in Hr. discriminate.
    + rewrite Hopen in Ho. injection Ho as <-.
      rewrite Hl in Hl'. injection Hl' as <- <-. congruence.
    + rewrite Hopen in Ho. injection Ho as <-.
      rewrite Hl in Hl'. injection Hl' as <- <-. congruence.
  - intros Hchanged.
    destruct (walkFn_cases ParseHTML RenderHTML from to path d e s)
      as [ | | | | |l mode data data' ? Ho Hl Href];
      try (exfalso; apply Hchanged; reflexivity).
    exists l, mode, data. rewrite dirty_iff_existsb. auto.
Qed.

End DirtyFlag.

(* ================================================================= *)
(** * The [mv] command, step by step *)

Section MvFacts.
Variable bytes : Type.
Variable ParseHTML : bytes -> Html.Document.
Variable RenderHTML : Html.Document -> error + bytes.
Implicit Types (s : OS bytes) (Args : list string).

(** [mv] with enough arguments, as one case analysis. *)
Lemma mv_unfold Args s :
  4 <= length Args ->
  mv ParseHTML RenderHTML Args s
  = match ZkRoot s (cwd s) with
    | (_, Some err) =>
        Exit 1 (print s ("Error finding ZK root: " ++ Error err ++ newline))
    | (zkRootDirectory, None) =>
        match zkRelative zkRootDirectory (absFromPath s Args),
              zkRelative zkRootDirectory (absToPath s Args) with
        | Some zkRelativeFromPath, Some zkRelativeToPath =>
            if IsNotExist (err_of (Stat s (absFromPath s Args))) then
              Exit 1 (print s ("File " ++ absFromPath s Args
                               ++ " does not exist" ++ newline))
            else
              match WalkDir zkRootDirectory
                      (walkFn ParseHTML RenderHTML zkRelativeFromPath
                         (Strings.TrimSuffix zkRelativeToPath "/index.html")) s
              with
              | Return _ s1 =>
                  report_rename
                    (Rename (absFromPath s Args) (absToPath s Args) s1)
              | Exit code s1 => Exit code s1
              | Panic s1 => Panic s1
              end
        | _, _ => Panic s
        end
    end.
Proof.
  intros Hlen. unfold mv.
  destruct (Nat.ltb_spec (length Args) 4) as [Hlt|_]; [lia|].
  unfold bind at 1. unfold Getwd, reads at 1. unfold bind at 1, reads at 1.
  destruct (ZkRoot s (cwd s)) as [root [err|]]; [reflexivity|].
  unfold zkRelative, absFromPath, absToPath.
  destruct (Strings.slice_from _ _) as [rf|]; [|reflexivity].
  destruct (Strings.slice_from _ _) as [rt|]; [|reflexivity].
  unfold bind at 1, reads at 1.
  destruct (IsNotExist _); [reflexivity|].
  unfold bind at 1.
  destruct (WalkDir _ _ s) as [e s1|code s1|s1]; try reflexivity.
  unfold bind at 1, report_rename, Rename.
  destruct (match Lstat s1 _ with inl _ => None | inr _ => _ end);
    [reflexivity|].
  destruct (sys_rename _ _ _) as [[e'|] t]; reflexivity.
Qed.

Lemma walkFn_stdout from to path d e s :
  stdout (final (walkFn ParseHTML RenderHTML from to path d e s)) = stdout s.
Proof.
  destruct d as [d|]; [|reflexivity].
  destruct (walkFn_cases ParseHTML RenderHTML from to path d e s);
    try reflexivity.
  unfold after_write. destruct (may_write mode); reflexivity.
Qed.

End MvFacts.

(* ================================================================= *)
(** * The first error ends the loop of the walk *)

Section MvErrors.
Variable bytes : Type.
Variable ParseHTML : bytes -> Html.Document.
Variable RenderHTML : Html.Document -> error + bytes.
Implicit Types (s : OS bytes) (Args : list string).

(** The loop over the entries stops at the first error. *)
Lemma walkEntries_stops
  (fn : string -> option DirEntry -> option error -> M bytes (option error))
  path name child rest s err s1 :
  walkDir fn (Filepath.Join [path; name])
    {| Name := name; IsDir := is_dir child |} child s = Return (Some err) s1 ->
  walkEntries fn path ((name, child) :: rest) s = Return (Some err) s1.
Proof. intros H. simpl. unfold bind. rewrite H. reflexivity. Qed.

End MvErrors.

(* ================================================================= *)
(** * Project-relative paths *)

Section RelativePaths.

Lemma length_drop n p :
  n <= String.length p -> String.length (Strings.drop n p) = String.length p - n.
Proof.
  revert p; induction n as [|n IH]; intros [|c p]; simpl; intros H;
    try lia. apply IH; lia.
Qed.

Lemma take_drop n p : (Strings.take n p ++ Strings.drop n p)%string = p.
Proof.
  revert p; induction n as [|n IH]; intros [|c p]; simpl; try reflexivity.
  rewrite IH; reflexivity.
Qed.

Lemma drop_append root rest :
  Strings.drop (String.length root) (root ++ rest) = rest.
Proof. induction root as [|c root IH]; simpl; [destruct rest|]; auto. Qed.

Lemma length_append (a b : string) :
  String.length (a ++ b) = String.length a + String.length b.
Proof. induction a as [|c a IH]; simpl; [|rewrite IH]; reflexivity. Qed.

Lemma zkRelative_append root rest :
  zkRelative root (root ++ rest) = Some rest.
Proof.
  unfold zkRelative, Strings.slice_from.
  rewrite length_append, drop_append.
  destruct (Nat.leb_spec (String.length root)
              (String.length root + String.length rest));
    [reflexivity | lia].
Qed.

End RelativePaths.

(* ================================================================= *)
(** * A second pass *)

Section SecondPass.
Variable bytes : Type.
Variable ParseHTML : bytes -> Html.Document.
Variable RenderHTML : Html.Document -> error + bytes.
Implicit Types (s t : OS bytes) (l : loc).

Variables from to : string.

(** The destination string is not a link form of the source. *)
Hypothesis destination_is_no_form : hrefMatches from to = false.

(** What the serialiser writes, the parser reads back. *)
Hypothesis round_trip :
  forall doc data, RenderHTML doc = inr data -> ParseHTML data = doc.

Let fn := walkFn ParseHTML RenderHTML from to.

Lemma Attr_SetAttr attr name val :
  Html.Attr (Html.SetAttr attr name val) name = (val, true).
Proof.
  induction attr as [|a rest IH]; simpl.
  - rewrite String.eqb_refl; reflexivity.
  - destruct (String.eqb (Html.Key a) name) eqn:E; simpl; rewrite E;
      [reflexivity | exact IH].
Qed.

Lemma retarget_not_reference attr :
  isReference from (retarget from to attr) = false.
Proof.
  unfold retarget. destruct (isReference from attr) eqn:E; [|exact E].
  unfold isReference. rewrite Attr_SetAttr. simpl.
  exact destination_is_no_form.
Qed.

Lemma anchors_node_map_a g n :
  Html.anchors_node (map_a_node g n) = map g (Html.anchors_node n).
Proof.
  induction n as [data|data|tag attr children IH] using HNode_induction;
    simpl; try reflexivity.
  rewrite map_app. f_equal; [destruct (String.eqb tag "a"); reflexivity|].
  induction IH as [|c rest Hc _ IHrest]; simpl; [reflexivity|].
  rewrite map_app, Hc, IHrest; reflexivity.
Qed.

Lemma Find_a_map_a g doc :
  Html.Find_a (map_a g doc) = map g (Html.Find_a doc).
Proof.
  unfold Html.Find_a, map_a. induction doc as [|n rest IH]; simpl;
    [reflexivity|].
  rewrite map_app, anchors_node_map_a, IH; reflexivity.
Qed.

(** A document that was rewritten holds no reference. *)
Lemma no_reference_after_retarget doc :
  existsb (isReference from) (Html.Find_a (map_a (retarget from to) doc))
  = false.
Proof.
  rewrite Find_a_map_a. induction (Html.Find_a doc) as [|attr rest IH];
    simpl; [reflexivity|].
  rewrite retarget_not_reference, IH; reflexivity.
Qed.

Lemma after_write_same_shape s path l mode data data' :
  lookup (tree s) l = Some (File mode data) ->
  shape (tree (after_write s path l mode data')) = shape (tree s)
  /\ cwd (after_write s path l mode data') = cwd s.
Proof.
  intros Hl. unfold after_write. destruct (may_write mode); simpl;
    [|split; reflexivity].
  split; [|reflexivity].
  eapply shape_put_at; [exact Hl | reflexivity].
Qed.

(** A call of [fn] keeps the shape of the tree and the working directory. *)
Lemma fn_same_shape s path d e :
  shape (tree (final (fn path d e s))) = shape (tree s)
  /\ cwd (final (fn path d e s)) = cwd s.
Proof.
  unfold fn. destruct d as [d|]; [|split; reflexivity].
  destruct (walkFn_cases ParseHTML RenderHTML from to path d e s);
    try (split; reflexivity).
  eapply after_write_same_shape; eassumption.
Qed.

Lemma fn_not_html s path d e :
  Strings.HasSuffix (Name d) ".html" = false ->
  fn path (Some d) e s = Return None s.
Proof. intros H. unfold fn, walkFn. rewrite H. reflexivity. Qed.

Lemma fn_no_reference s path d e l mode data :
  Open s path = inr l ->
  lookup (tree s) l = Some (File mode data) ->
  existsb (isReference from) (Html.Find_a (ParseHTML data)) = false ->
  fn path (Some d) e s = Return None s.
Proof.
  intros Hopen Hl Hno. unfold fn.
  destruct (walkFn_cases ParseHTML RenderHTML from to path d e s)
    as [ |err ? Ho|l0 err ? Ho Hr|l0 mode0 data0 ? Ho Hl0 ?
        |l0 mode0 data0 err ? Ho Hl0 Href ?
        |l0 mode0 data0 data' ? Ho Hl0 Href ?]; try reflexivity.
  - congruence.
  - rewrite Hopen in Ho. injection Ho as <-.
    unfold ReadAll in Hr. rewrite Hl in Hr. discriminate.
  - rewrite Hopen in Ho. injection Ho as <-.
    rewrite Hl in Hl0. injection Hl0 as <- <-. congruence.
  - rewrite Hopen in Ho. injection Ho as <-.
    rewrite Hl in Hl0. injection Hl0 as <- <-. congruence.
Qed.

Lemma after_write_changes s path l mode data :
  after_write s path l mode data <> s.
Proof.
  intros E. apply (f_equal (fun x => length (calls x))) in E.
  unfold after_write in E. destruct (may_write mode); simpl in E;
    rewrite length_app in E; simpl in E; lia.
Qed.

(** A quiet call is on an entry that is no document, or on a document
    without a reference. *)
Lemma quiet_inv v s :
  quiet ParseHTML RenderHTML from to v s ->
  Strings.HasSuffix (Name (snd (fst v))) ".html" = false
  \/ exists l mode data,
      Open s (fst (fst v)) = inr l
      /\ lookup (tree s) l = Some (File mode data)
      /\ existsb (isReference from) (Html.Find_a (ParseHTML data)) = false.
Proof.
  destruct v as [[p d] e]. unfold quiet. cbn [fst snd]. intros Q.
  destruct (walkFn_cases ParseHTML RenderHTML from to p d e s)
    as [ | | |l mode data| |l mode data data']; try discriminate.
  - left; assumption.
  - right. exists l, mode, data. repeat split; assumption.
  - injection Q as Q. exfalso. eapply after_write_changes; exact Q.
Qed.

(** A quiet call stays quiet after any call of [fn]. *)
Lemma quiet_preserved v s path d e :
  quiet ParseHTML RenderHTML from to v s ->
  quiet ParseHTML RenderHTML from to v (final (fn path d e s)).
Proof.
  intros Q. unfold fn. destruct d as [d|]; [|exact Q].
  destruct (walkFn_cases ParseHTML RenderHTML from to path d e s)
    as [ | | | | |l mode data data' Hhtml Hopen Hl Href Hrender];
    try exact Q.
  simpl final.
  destruct (after_write_same_shape s path l data' Hl) as [Hshape Hcwd].
  destruct v as [[p dv] ev].
  destruct (quiet_inv Q) as [Hno|(l0 & mode0 & data0 & Ho & Hl0 & Hno)];
    cbn [fst snd] in *; unfold quiet; cbn [fst snd];
    fold (fn p (Some dv) ev (after_write s path l mode data')).
  - apply fn_not_html; exact Hno.
  - idtac.
    destruct (list_eq_dec string_dec l l0) as [<-|Hne].
    + rewrite Hl in Hl0. injection Hl0 as <- <-.
      unfold after_write in *. destruct (may_write mode) eqn:W.
      * eapply fn_no_reference.
        -- rewrite (Open_same_shape _ _ _ Hshape Hcwd). exact Ho.
        -- simpl. eapply lookup_put_at_same; exact Hl.
        -- rewrite (round_trip Hrender).
           apply no_reference_after_retarget.
      * eapply fn_no_reference.
        -- rewrite (Open_same_shape _ _ _ Hshape Hcwd). exact Ho.
        -- simpl. exact Hl.
        -- exact Hno.
    + eapply fn_no_reference.
      * rewrite (Open_same_shape _ _ _ Hshape Hcwd). exact Ho.
      * unfold after_write. destruct (may_write mode); simpl.
        -- eapply lookup_put_at_other; eassumption.
        -- exact Hl0.
      * exact Hno.
Qed.

Lemma failed_writes_fn s path d e :
  failed_writes (calls s) <= failed_writes (calls (final (fn path d e s))).
Proof.
  unfold fn. destruct d as [d|]; [|apply Nat.le_refl].
  destruct (walkFn_cases ParseHTML RenderHTML from to path d e s);
    try apply Nat.le_refl.
  unfold after_write, failed_writes. destruct (may_write mode); simpl;
    rewrite filter_app, length_app; lia.
Qed.

(** A call that returns nil and logs no failed write is quiet from then
    on. *)
Lemma fn_becomes_quiet s s' path d e e' :
  fn path (Some d) e s = Return None s' ->
  failed_writes (calls s') = failed_writes (calls s) ->
  quiet ParseHTML RenderHTML from to (path, d, e') s'.
Proof.
  intros Hcall Hcount. unfold quiet; cbn [fst snd].
  fold (fn path (Some d) e' s'). unfold fn in Hcall.
  destruct (walkFn_cases ParseHTML RenderHTML from to path d e s)
    as [Hno| | |l mode data Hhtml Hopen Hl Hno| 
        |l mode data data' Hhtml Hopen Hl Href Hrender];
    try discriminate; injection Hcall as <-.
  - apply fn_not_html; exact Hno.
  - eapply fn_no_reference; eassumption.
  - destruct (after_write_same_shape s path l data' Hl) as [Hshape Hcwd].
    unfold after_write in *. destruct (may_write mode) eqn:W.
    + eapply fn_no_reference.
      * rewrite (Open_same_shape _ _ _ Hshape Hcwd). exact Hopen.
      * simpl. eapply lookup_put_at_same; exact Hl.
      * rewrite (round_trip Hrender). apply no_reference_after_retarget.
    + exfalso. unfold failed_writes in Hcount. simpl in Hcount.
      rewrite filter_app, length_app in Hcount. simpl in Hcount. lia.
Qed.

Lemma failed_writes_walkDir n path d s :
  failed_writes (calls s)
  <= failed_writes (calls (final (walkDir fn path d n s))).
Proof.
  apply (@walkDir_preserves bytes fn
           (fun t => failed_writes (calls s) <= failed_writes (calls t)));
    [|apply Nat.le_refl].
  intros p d0 e t H. eapply Nat.le_trans; [exact H | apply failed_writes_fn].
Qed.

Lemma failed_writes_walkEntries es path s :
  failed_writes (calls s)
  <= failed_writes (calls (final (walkEntries fn path es s))).
Proof.
  apply (@walkEntries_preserves bytes fn
           (fun t => failed_writes (calls s) <= failed_writes (calls t)));
    [|apply Nat.le_refl].
  intros p d0 e t H. eapply Nat.le_trans; [exact H | apply failed_writes_fn].
Qed.

Lemma quiet_walkEntries v es path s :
  quiet ParseHTML RenderHTML from to v s ->
  quiet ParseHTML RenderHTML from to v (final (walkEntries fn path es s)).
Proof.
  apply (@walkEntries_preserves bytes fn
           (quiet ParseHTML RenderHTML from to v)).
  intros p d e t. apply quiet_preserved.
Qed.

(** After a pass that met no error and no failed write, every call that
    the pass made has become quiet. *)
Lemma first_pass_quiet n :
  forall path d s s',
    walkDir fn path d n s = Return None s' ->
    failed_writes (calls s') = failed_writes (calls s) ->
    Forall (fun v => quiet ParseHTML RenderHTML from to v s')
      (visits path d n).
Proof.
  induction n as [mode data|listable entries IH] using Node_induction;
    intros path d s s' Hwalk Hcount.
  - rewrite walkDir_File in Hwalk. unfold bind, ret in Hwalk.
    destruct (fn path (Some d) None s) as [[e|] s1|code s1|s1] eqn:E;
      try discriminate.
    injection Hwalk as <-. simpl.
    constructor; [|constructor]. eapply fn_becomes_quiet; eassumption.
  - rewrite walkDir_Dir in Hwalk. unfold bind, ret in Hwalk.
    destruct (fn path (Some d) None s) as [[e|] s1|code s1|s1] eqn:E;
      try discriminate.
    pose proof (failed_writes_fn s path (Some d) None) as M1.
    rewrite E in M1. simpl in M1.
    destruct listable.
    + pose proof (failed_writes_walkEntries entries path s1) as M2.
      rewrite Hwalk in M2. simpl in M2.
      assert (Q1 : quiet ParseHTML RenderHTML from to (path, d, None) s1)
        by (eapply fn_becomes_quiet; [exact E | lia]).
      simpl. constructor.
      * pose proof (quiet_walkEntries entries path Q1) as Q.
        rewrite Hwalk in Q. exact Q.
      * assert (Hc1 : failed_writes (calls s') = failed_writes (calls s1))
          by lia.
        clear E M1 M2 Q1 Hcount. revert s1 Hwalk Hc1.
        induction IH as [|[name c] rest Hc _ IHrest]; intros s1 Hwalk Hc1;
          [constructor|].
        simpl in Hwalk. unfold bind, ret in Hwalk.
        destruct (walkDir fn (Filepath.Join [path; name])
                    {| Name := name; IsDir := is_dir c |} c s1)
          as [[e|] s2|code s2|s2] eqn:E; try discriminate.
        pose proof (failed_writes_walkDir c (Filepath.Join [path; name])
                      {| Name := name; IsDir := is_dir c |} s1) as M1.
        rewrite E in M1. simpl in M1.
        pose proof (failed_writes_walkEntries rest path s2) as M2.
        rewrite Hwalk in M2. simpl in M2.
        simpl. apply Forall_app. split.
        -- assert (Q : Forall (fun v => quiet ParseHTML RenderHTML from to v s2)
                         (visits (Filepath.Join [path; name])
                            {| Name := name; IsDir := is_dir c |} c))
             by (eapply Hc; [exact E | lia]).
           eapply Forall_impl; [|exact Q].
           intros v Qv. pose proof (quiet_walkEntries rest path Qv) as Q'.
           rewrite Hwalk in Q'. exact Q'.
        -- eapply IHrest; [exact Hwalk | lia].
    + pose proof (failed_writes_fn s1 path (Some d)
                    (Some (SyscallError EACCES))) as M2.
      rewrite Hwalk in M2. simpl in M2.
      assert (Q1 : quiet ParseHTML RenderHTML from to (path, d, None) s1)
        by (eapply fn_becomes_quiet; [exact E | lia]).
      simpl. constructor; [|constructor; [|constructor]].
      * pose proof (quiet_preserved path (Some d)
                      (Some (SyscallError EACCES)) Q1) as Q.
        rewrite Hwalk in Q. exact Q.
      * eapply fn_becomes_quiet; [exact Hwalk | lia].
Qed.

(** A pass all of whose calls are quiet changes nothing. *)
Lemma quiet_pass n :
  forall path d t,
    Forall (fun v => quiet ParseHTML RenderHTML from to v t)
      (visits path d n) ->
    walkDir fn path d n t = Return None t.
Proof.
  induction n as [mode data|listable entries IH] using Node_induction;
    intros path d t Q.
  - rewrite walkDir_File. unfold bind. simpl in Q.
    apply Forall_inv in Q. unfold quiet in Q. cbn [fst snd] in Q.
    fold (fn path (Some d) None t) in Q. rewrite Q. reflexivity.
  - rewrite walkDir_Dir. unfold bind. simpl in Q.
    pose proof (Forall_inv Q) as Q1. apply Forall_inv_tail in Q.
    unfold quiet in Q1. cbn [fst snd] in Q1.
    fold (fn path (Some d) None t) in Q1. rewrite Q1.
    destruct listable.
    + clear Q1. induction IH as [|[name c] rest Hc _ IHrest];
        [reflexivity|].
      simpl in Q, Hc. apply Forall_app in Q as [Qc Qrest].
      simpl. unfold bind. rewrite (Hc _ _ _ Qc). apply IHrest; exact Qrest.
    + apply Forall_inv in Q. unfold quiet in Q. cbn [fst snd] in Q.
      exact Q.
Qed.

Lemma walkDir_same_shape n path d s :
  shape (tree (final (walkDir fn path d n s))) = shape (tree s)
  /\ cwd (final (walkDir fn path d n s)) = cwd s.
Proof.
  apply (@walkDir_preserves bytes fn
           (fun t => shape (tree t) = shape (tree s) /\ cwd t = cwd s));
    [|split; reflexivity].
  intros p d0 e t [H1 H2].
  destruct (fn_same_shape t p d0 e) as [H3 H4]. split; congruence.
Qed.

(** X25.  Before the rename, and without any condition on the tree: when the
    rewrite pass has run without an error and without a failed write, a
    second run of the pass over the tree it left, with the same forms,
    marks no document dirty and writes nothing: it returns nil and leaves
    the state as it is. *)
Lemma second_pass_changes_nothing (root : string) (s s1 : OS bytes) :
  WalkDir root fn s = Return None s1 ->
  failed_writes (calls s1) = failed_writes (calls s) ->
  WalkDir root fn s1 = Return None s1.
Proof.
  intros Hwalk Hcount. unfold WalkDir in Hwalk.
  destruct (Lstat s root) as [err|info] eqn:Hstat; [discriminate|].
  destruct (resolve s root) as [e|l] eqn:Hres; [discriminate|].
  destruct (lookup (tree s) l) as [n|] eqn:Hn; [|discriminate].
  destruct (walkDir_same_shape n root info s) as [Hshape Hcwd].
  rewrite Hwalk in Hshape, Hcwd. simpl in Hshape, Hcwd.
  unfold WalkDir. unfold Lstat in *.
  rewrite (Stat_same_shape _ _ _ Hshape Hcwd), Hstat.
  rewrite (resolve_same_shape _ _ _ Hshape Hcwd), Hres.
  pose proof (lookup_shape (tree s1) l) as K.
  rewrite Hshape, lookup_shape, Hn in K. simpl in K.
  destruct (lookup (tree s1) l) as [n1|]; [|discriminate].
  simpl in K. injection K as K.
  apply quiet_pass.
  rewrite (@visits_same_shape bytes n n1 root info (eq_sym K)).
  eapply first_pass_quiet; eassumption.
Qed.

End SecondPass.

(* ================================================================= *)
(** * Splitting and joining paths *)

Section SplitFacts.
Variable sep : ascii.

Lemma Split_nonempty s : Strings.Split sep s <> [].
Proof.
  destruct s as [|c s]; simpl; [discriminate|].
  destruct (Ascii.eqb c sep); [discriminate|].
  destruct (Strings.Split sep s); discriminate.
Qed.

Lemma Split_app_sep a b :
  Strings.Split sep (a ++ String sep b)
  = (Strings.Split sep a ++ Strings.Split sep b)%list.
Proof.
  induction a as [|c a IH]; simpl.
  - rewrite Ascii.eqb_refl. reflexivity.
  - destruct (Ascii.eqb c sep); [rewrite IH; reflexivity|].
    rewrite IH. pose proof (Split_nonempty a) as N.
    destruct (Strings.Split sep a); [contradiction | reflexivity].
Qed.

Lemma Split_lacks name : lacks sep name = true -> Strings.Split sep name = [name].
Proof.
  induction name as [|c name IH]; simpl; [reflexivity|].
  intros H. apply andb_true_iff in H as [Hc Hn].
  apply negb_true_iff in Hc. rewrite Hc, (IH Hn). reflexivity.
Qed.

Lemma Split_parts_lack s : Forall (fun x => lacks sep x = true) (Strings.Split sep s).
Proof.
  induction s as [|c s IH]; simpl; [repeat constructor|].
  destruct (Ascii.eqb c sep) eqn:E; [constructor; [reflexivity | exact IH]|].
  destruct (Strings.Split sep s) as [|h t]; [repeat constructor; simpl; rewrite E; reflexivity|].
  inversion IH; subst. constructor; [|assumption].
  simpl. rewrite E. assumption.
Qed.

Lemma Split_Join segs :
  segs <> [] -> Forall (fun x => lacks sep x = true) segs ->
  Strings.Split sep (Strings.Join segs (String sep "")) = segs.
Proof.
  induction segs as [|x segs IH]; [congruence|].
  intros _ H. inversion H as [|? ? Hx Hs]; subst.
  destruct segs as [|y segs].
  - simpl. apply Split_lacks; exact Hx.
  - change (Strings.Join (x :: y :: segs) (String sep ""))
      with (x ++ String sep (Strings.Join (y :: segs) (String sep ""))).
    rewrite Split_app_sep, (Split_lacks _ Hx), IH; [reflexivity|discriminate|exact Hs].
Qed.
End SplitFacts.

(* ================================================================= *)
(** * Resolving cleaned paths *)

Section NameiFacts.
Variable bytes : Type.
Variable t : Node bytes.
Implicit Types (cur l : loc) (comps : list string).

Lemma namei_app cur A B :
  namei t cur (A ++ B)
  = match namei t cur A with
    | inl e => inl e
    | inr c => namei t c B
    end.
Proof.
  revert cur; induction A as [|x A IH]; intros cur; [reflexivity|].
  simpl. destruct (lookup t cur) as [[m d|m es]|]; try reflexivity.
  destruct (String.eqb x "" || String.eqb x "."); [apply IH|].
  destruct (String.eqb x ".."); [apply IH|].
  destruct (assoc x es); [apply IH | reflexivity].
Qed.

Lemma namei_skip cur x rest l :
  String.eqb x "" || String.eqb x "." = true ->
  namei t cur (x :: rest) = inr l -> namei t cur rest = inr l.
Proof.
  intros Hx. simpl. rewrite Hx.
  destruct (lookup t cur) as [[m d|m es]|]; try discriminate. auto.
Qed.

Lemma namei_skip_dir cur x rest m es :
  String.eqb x "" || String.eqb x "." = true ->
  lookup t cur = Some (Dir m es) ->
  namei t cur (x :: rest) = namei t cur rest.
Proof. intros Hx Hl. simpl. rewrite Hl, Hx. reflexivity. Qed.

Lemma removelast_snoc {A : Type} (l : list A) x : removelast (l ++ [x]) = l.
Proof. apply removelast_last. Qed.

Lemma namei_cancel cur top rest l :
  is_special top = false ->
  namei t cur (top :: ".." :: rest) = inr l -> namei t cur rest = inr l.
Proof.
  intros Htop. unfold is_special in Htop.
  apply orb_false_iff in Htop as [Htop Hdd].
  simpl. destruct (lookup t cur) as [[m d|m es]|]; try discriminate.
  rewrite Htop, Hdd.
  destruct (assoc top es); [|discriminate].
  destruct (lookup t (cur ++ [top])%list) as [[m' d'|m' es']|]; try discriminate.
  rewrite removelast_snoc. auto.
Qed.

Lemma namei_dotdot_root rest l :
  namei t [] (".." :: rest) = inr l -> namei t [] rest = inr l.
Proof.
  simpl. destruct t as [m d|m es]; [discriminate|]. auto.
Qed.

Lemma clean_fold (r : bool) comps : forall out c0 l,
  (r = true -> c0 = []) ->
  Forall not_dot out ->
  namei t c0 (rev out ++ comps) = inr l ->
  namei t c0 (rev (fold_left (Filepath.clean_step r) comps out)) = inr l.
Proof.
  induction comps as [|x comps IH]; intros out c0 l Hr Hout H.
  - simpl. rewrite app_nil_r in H. exact H.
  - simpl. apply IH; [exact Hr| |]; unfold Filepath.clean_step.
    + destruct (String.eqb x "" || String.eqb x ".") eqn:Ex; [exact Hout|].
      destruct (String.eqb x ".."); [|constructor; assumption].
      destruct out as [|top below].
      * destruct r; [constructor|]. constructor; [exact Ex | constructor].
      * destruct (String.eqb top "..");
          [constructor; assumption | inversion Hout; assumption].
    + destruct (String.eqb x "" || String.eqb x ".") eqn:Ex.
      * rewrite namei_app in H |- *.
        destruct (namei t c0 (rev out)) as [e|c]; [discriminate|].
        eapply namei_skip; eassumption.
      * destruct (String.eqb_spec x "..") as [->|Hx].
        -- destruct out as [|top below].
           ++ destruct r.
              ** rewrite (Hr eq_refl) in *. simpl in *.
                 apply namei_dotdot_root. exact H.
              ** exact H.
           ++ destruct (String.eqb top "..") eqn:Et.
              ** simpl rev. rewrite <- app_assoc. exact H.
              ** simpl rev in H. rewrite <- app_assoc in H. simpl in H.
                 rewrite namei_app in H |- *.
                 destruct (namei t c0 (rev below)) as [e|c]; [discriminate|].
                 eapply namei_cancel; [|exact H].
                 unfold is_special. inversion Hout as [|? ? Ht _]; subst.
                 unfold not_dot in Ht. rewrite Ht, Et. reflexivity.
        -- simpl rev. rewrite <- app_assoc. exact H.
Qed.

End NameiFacts.

Section CleanFacts.

Lemma clean_step_In r out x y :
  In y (Filepath.clean_step r out x) -> y = x \/ In y out.
Proof.
  unfold Filepath.clean_step.
  destruct (String.eqb x "" || String.eqb x "."); [auto|].
  destruct (String.eqb x "..").
  - destruct out as [|top below].
    + destruct r; simpl; intuition.
    + destruct (String.eqb top ".."); simpl; intuition.
  - simpl; intuition.
Qed.

Lemma clean_fold_In r comps : forall out y,
  In y (fold_left (Filepath.clean_step r) comps out) -> In y comps \/ In y out.
Proof.
  induction comps as [|x comps IH]; intros out y H; simpl in *; [auto|].
  destruct (IH _ _ H) as [H1|H1]; [auto|].
  destruct (clean_step_In _ _ _ _ H1); subst; auto.
Qed.

Lemma clean_step_not_dot r out x :
  Forall not_dot out -> Forall not_dot (Filepath.clean_step r out x).
Proof.
  intros H. unfold Filepath.clean_step.
  destruct (String.eqb x "" || String.eqb x ".") eqn:Ex; [exact H|].
  destruct (String.eqb x "..").
  - destruct out as [|top below].
    + destruct r; [constructor|]. constructor; [exact Ex | constructor].
    + destruct (String.eqb top "..");
        [constructor; assumption | inversion H; assumption].
  - constructor; assumption.
Qed.

Lemma clean_fold_not_dot r comps : forall out,
  Forall not_dot out -> Forall not_dot (fold_left (Filepath.clean_step r) comps out).
Proof.
  induction comps as [|x comps IH]; intros out H; simpl; [exact H|].
  apply IH. apply clean_step_not_dot. exact H.
Qed.

Lemma rooted_append a b : a <> "" -> Filepath.rooted (a ++ b) = Filepath.rooted a.
Proof. destruct a; [congruence | reflexivity]. Qed.

Lemma Join_head x segs :
  x <> "" -> lacks Filepath.Separator x = true ->
  Strings.Join (x :: segs) "/" <> "" /\ Filepath.rooted (Strings.Join (x :: segs) "/") = false.
Proof.
  intros Hx Hl. destruct x as [|c x]; [congruence|].
  simpl in Hl. apply andb_true_iff in Hl as [Hc _]. apply negb_true_iff in Hc.
  destruct segs; simpl; (split; [discriminate | exact Hc]).
Qed.

Variable bytes : Type.
Implicit Types (s : OS bytes) (l : loc).

Lemma namei_head_dir (t : Node bytes) cur x rest l :
  namei t cur (x :: rest) = inr l -> exists m es, lookup t cur = Some (Dir m es).
Proof.
  simpl. destruct (lookup t cur) as [[m d|m es]|]; try discriminate. eauto.
Qed.

(** A path that names an entry names it still when it is cleaned. *)
Lemma resolve_Clean s p l :
  resolve s p = inr l -> resolve s (Filepath.Clean p) = inr l.
Proof.
  unfold resolve. destruct (String.eqb_spec p "") as [->|Hp]; [discriminate|].
  intros H. unfold Filepath.Clean.
  destruct (String.eqb_spec p "") as [|_]; [contradiction|].
  set (segs := rev (fold_left (Filepath.clean_step (Filepath.rooted p))
                      (Strings.Split Filepath.Separator p) [])).
  assert (Hlack : Forall (fun x => lacks Filepath.Separator x = true) segs).
  { apply Forall_forall. intros y Hy. unfold segs in Hy. apply in_rev in Hy.
    apply clean_fold_In in Hy as [Hy|[]].
    pose proof (Split_parts_lack Filepath.Separator p) as K.
    rewrite Forall_forall in K. auto. }
  assert (Hdot : Forall not_dot segs).
  { unfold segs. apply Forall_rev. apply clean_fold_not_dot. constructor. }
  unfold components in *. unfold Filepath.IsAbs in *.
  destruct (Filepath.rooted p) eqn:R.
  - (* rooted *)
    assert (K : namei (tree s) [] segs = inr l)
      by (apply clean_fold; [reflexivity | constructor | exact H]).
    destruct p as [|c p']; [congruence|]. simpl in R.
    simpl Strings.Split in H. rewrite R in H.
    edestruct namei_head_dir as (m & es & Hroot); [exact H|].
    simpl in Hroot. injection Hroot as Hroot.
    change ("/" ++ Strings.Join segs "/") with (String "/" (Strings.Join segs "/")).
    simpl Strings.Split. simpl Ascii.eqb. cbv iota.
    replace (String "/" (Strings.Join segs "/") =? "") with false
      by reflexivity.
    replace (Filepath.rooted (String "/" (Strings.Join segs "/"))) with true
      by reflexivity.
    rewrite (@namei_skip_dir _ (tree s) [] "" _ m es eq_refl);
      [|simpl; f_equal; exact Hroot].
    destruct segs as [|x segs'] eqn:Es.
    + simpl Strings.Join. simpl Strings.Split.
      rewrite (@namei_skip_dir _ (tree s) [] "" _ m es eq_refl);
        [exact K | simpl; f_equal; exact Hroot].
    + rewrite Split_Join; [exact K | discriminate | exact Hlack].
  - (* relative *)
    rewrite namei_app in H.
    destruct (namei (tree s) [] (Strings.Split Filepath.Separator (cwd s)))
      as [e|c0] eqn:E0; [discriminate|].
    assert (K : namei (tree s) c0 segs = inr l)
      by (apply clean_fold; [discriminate | constructor | exact H]).
    pose proof (Split_nonempty Filepath.Separator p) as Np.
    destruct (Strings.Split Filepath.Separator p) as [|x0 rest0] eqn:Ep;
      [contradiction|].
    edestruct namei_head_dir as (m & es & Hc0); [exact H|].
    destruct segs as [|x segs'] eqn:Es.
    + simpl. rewrite namei_app, E0. simpl. rewrite Hc0. simpl in K. exact K.
    + inversion Hdot as [|? ? Hx _]; subst. inversion Hlack as [|? ? Hlx _]; subst.
      assert (Hx' : x <> "").
      { intros ->. unfold not_dot in Hx. simpl in Hx. discriminate. }
      destruct (Join_head segs' Hx' Hlx) as [J1 J2].
      destruct (String.eqb_spec (Strings.Join (x :: segs') "/") "") as [J|_];
        [contradiction|].
      rewrite J2, namei_app, E0.
      rewrite Split_Join; [exact K | discriminate | exact Hlack].
Qed.

(** The path that the walk makes for an entry of a directory names that
    entry. *)
Lemma resolve_Join s path name l m es c :
  resolve s path = inr l ->
  lookup (tree s) l = Some (Dir m es) ->
  assoc name es = Some c ->
  regular name = true ->
  resolve s (Filepath.Join [path; name]) = inr (l ++ [name])%list.
Proof.
  intros H Hl Hname Hreg.
  assert (Hp : path <> "").
  { intros ->. unfold resolve in H. simpl in H. discriminate. }
  unfold regular in Hreg. apply andb_true_iff in Hreg as [Hspec Hlacks].
  apply negb_true_iff in Hspec.
  assert (Hn : name <> "").
  { intros ->. discriminate. }
  unfold Filepath.Join. simpl filter.
  destruct (String.eqb_spec path "") as [|_]; [contradiction|].
  destruct (String.eqb_spec name "") as [|_]; [contradiction|].
  simpl negb. cbv iota.
  apply resolve_Clean.
  change (Strings.Join [path; name] "/") with (path ++ String Filepath.Separator name).
  unfold resolve in *.
  destruct (String.eqb_spec path "") as [|_]; [contradiction|].
  destruct (String.eqb_spec (path ++ String Filepath.Separator name) "") as [E|_].
  { destruct path; [contradiction | discriminate]. }
  unfold components in *. unfold Filepath.IsAbs in *.
  rewrite (rooted_append _ Hp), Split_app_sep, (Split_lacks _ _ Hlacks).
  assert (K : forall comps, namei (tree s) [] comps = inr l ->
                namei (tree s) [] (comps ++ [name]) = inr (l ++ [name])%list).
  { intros comps Hc. rewrite namei_app, Hc. simpl. rewrite Hl.
    unfold is_special in Hspec. apply orb_false_iff in Hspec as [-> ->].
    rewrite Hname. reflexivity. }
  destruct (Filepath.rooted path); [apply K; exact H|].
  rewrite app_assoc. apply K. exact H.
Qed.

End CleanFacts.

(* ================================================================= *)
(** * Well-formed trees *)

Section WellFormed.
Variable bytes : Type.
Implicit Types (t n : Node bytes) (l : loc).

Lemma lookup_app t l (r : loc) :
  lookup t (l ++ r)%list
  = match lookup t l with
    | Some n => lookup n r
    | None => None
    end.
Proof.
  revert t; induction l as [|x l IH]; intros t; [reflexivity|].
  simpl. destruct t as [m d|m es]; [reflexivity|].
  destruct (assoc x es); [apply IH | reflexivity].
Qed.

Lemma assoc_In {A : Type} k (c : A) es :
  assoc k es = Some c -> In (k, c) es.
Proof.
  induction es as [|[k0 c0] es IH]; simpl; [discriminate|].
  destruct (String.eqb_spec k k0) as [->|]; [intros [= ->]; auto | auto].
Qed.

Lemma distinct_assoc {A : Type} k (c : A) es :
  distinct (map fst es) = true -> In (k, c) es -> assoc k es = Some c.
Proof.
  induction es as [|[k0 c0] es IH]; simpl; [contradiction|].
  intros H [E|Hin].
  - injection E as -> ->. rewrite String.eqb_refl. reflexivity.
  - apply andb_true_iff in H as [H1 H2].
    destruct (String.eqb_spec k k0) as [->|]; [|auto].
    exfalso. apply negb_true_iff in H1.
    assert (existsb (String.eqb k0) (map fst es) = true); [|congruence].
    apply existsb_exists. exists k0. split; [|apply String.eqb_refl].
    apply (in_map fst) in Hin. exact Hin.
Qed.

Lemma well_formed_shape n (n' : Node bytes) :
  shape n' = shape n -> well_formed n' = well_formed n.
Proof.
  revert n'. induction n as [m d|m es IH] using Node_induction;
    intros [m' d'|m' es'] H; simpl in H; try discriminate; [reflexivity|].
  injection H as -> H. simpl.
  assert (K1 : map fst es' = map fst es).
  { apply (f_equal (map fst)) in H. rewrite !map_map in H. exact H. }
  assert (K2 : forallb (fun e => regular (fst e)) es'
               = forallb (fun e => regular (fst e)) es).
  { clear IH H. revert es' K1. induction es as [|e es IHes]; intros [|e' es'] K;
      simpl in K; try discriminate; [reflexivity|].
    injection K as K0 K. simpl. rewrite K0, (IHes _ K). reflexivity. }
  rewrite K1, K2. f_equal.
  clear K1 K2. revert es' H. induction IH as [|[k c] es Hc _ IHes];
    intros [|[k' c'] es'] H; simpl in H; try discriminate; [reflexivity|].
  injection H as _ Hc' H. simpl. rewrite (Hc _ Hc'), (IHes _ H). reflexivity.
Qed.

Lemma well_formed_lookup t l n :
  well_formed t = true -> lookup t l = Some n -> well_formed n = true.
Proof.
  revert t; induction l as [|x l IH]; intros t Hwf Hl.
  - simpl in Hl. congruence.
  - destruct t as [m d|m es]; [discriminate|]. simpl in Hl.
    destruct (assoc x es) as [c|] eqn:Ex; [|discriminate].
    apply (IH c); [|exact Hl].
    simpl in Hwf. apply andb_true_iff in Hwf as [_ Hwf].
    rewrite forallb_forall in Hwf. apply (Hwf (x, c)). apply assoc_In; exact Ex.
Qed.

Lemma all_listable_lookup t l n :
  all_listable t = true -> lookup t l = Some n -> all_listable n = true.
Proof.
  revert t; induction l as [|x l IH]; intros t Hwf Hl.
  - simpl in Hl. congruence.
  - destruct t as [m d|m es]; [discriminate|]. simpl in Hl.
    destruct (assoc x es) as [c|] eqn:Ex; [|discriminate].
    apply (IH c); [|exact Hl].
    simpl in Hwf. apply andb_true_iff in Hwf as [_ Hwf].
    rewrite forallb_forall in Hwf. apply (Hwf (x, c)). apply assoc_In; exact Ex.
Qed.

(** Resolving plain names only goes down. *)
Lemma namei_regular t names : forall cur l,
  Forall (fun x => regular x = true) names ->
  namei t cur names = inr l -> l = (cur ++ names)%list.
Proof.
  induction names as [|x names IH]; intros cur l Hreg H.
  - simpl in H. injection H as <-. rewrite app_nil_r. reflexivity.
  - inversion Hreg as [|? ? Hx Hn]; subst.
    unfold regular in Hx. apply andb_true_iff in Hx as [Hx _].
    apply negb_true_iff in Hx. unfold is_special in Hx.
    apply orb_false_iff in Hx as [Hx1 Hx2].
    simpl in H. destruct (lookup t cur) as [[m d|m es]|]; try discriminate.
    rewrite Hx1, Hx2 in H. destruct (assoc x es); [|discriminate].
    rewrite (IH _ _ Hn H), <- app_assoc. reflexivity.
Qed.

End WellFormed.

(* ================================================================= *)
(** * Files after an update of the tree *)

Section PutFacts.
Variable bytes : Type.
Implicit Types (t n v : Node bytes) (l : loc).

(** A file of the tree after [put_at] is a file of the node that was
    put, or a file of the tree before. *)
Lemma lookup_put_at_file l v : forall t l0 mode data,
  lookup (put_at l v t) l0 = Some (File mode data) ->
  (exists r, l0 = (l ++ r)%list /\ lookup v r = Some (File mode data))
  \/ lookup t l0 = Some (File mode data).
Proof.
  induction l as [|x l IH]; intros t l0 mode data H.
  - left. exists l0. auto.
  - destruct t as [m d|m es]; [right; exact H|].
    assert (E : forall v',
      lookup (Dir m (assoc_put x v' es)) l0 = Some (File mode data) ->
      (exists l1, l0 = x :: l1 /\ lookup v' l1 = Some (File mode data))
      \/ lookup (Dir m es) l0 = Some (File mode data)).
    { intros v' H'. destruct l0 as [|y l1]; [discriminate|].
      simpl in H' |- *. rewrite assoc_put_spec in H'.
      destruct (String.eqb_spec y x) as [->|Hy]; [left; eauto | right; exact H']. }
    destruct l as [|x' l].
    + simpl put_at in H. destruct (E _ H) as [(l1 & -> & H1)|H1]; [|auto].
      left. exists l1. auto.
    + change (put_at (x :: x' :: l) v (Dir m es))
        with (match assoc x es with
              | Some c0 => Dir m (assoc_put x (put_at (x' :: l) v c0) es)
              | None => Dir m es
              end) in H.
      destruct (assoc x es) as [c|] eqn:Ex; [|right; exact H].
      destruct (E _ H) as [(l1 & -> & H1)|H1]; [|auto].
      destruct (IH _ _ _ _ H1) as [(r & -> & Hr)|H2].
      * left. exists r. auto.
      * right. simpl. rewrite Ex. exact H2.
Qed.

Lemma assoc_del_spec {A : Type} k x (es : list (string * A)) :
  distinct (map fst es) = true ->
  assoc k (assoc_del x es) = if String.eqb k x then None else assoc k es.
Proof.
  induction es as [|[k0 c0] es IH]; simpl; intros Hd.
  - destruct (String.eqb k x); reflexivity.
  - apply andb_true_iff in Hd as [H1 H2]. apply negb_true_iff in H1.
    destruct (String.eqb_spec x k0) as [->|Hx].
    + destruct (String.eqb_spec k k0) as [->|Hk]; [|reflexivity].
      destruct (assoc k0 es) as [c|] eqn:E; [|reflexivity].
      exfalso. assert (existsb (String.eqb k0) (map fst es) = true); [|congruence].
      apply existsb_exists. exists k0. split; [|apply String.eqb_refl].
      apply assoc_In in E. apply (in_map fst) in E. exact E.
    + simpl. rewrite (IH H2).
      destruct (String.eqb_spec k k0) as [->|Hk]; [|reflexivity].
      destruct (String.eqb_spec k0 x); [congruence | reflexivity].
Qed.

(** A file of a well-formed tree after [del_at] was there before. *)
Lemma lookup_del_at_file l : forall t l0 mode data,
  well_formed t = true ->
  lookup (del_at l t) l0 = Some (File mode data) ->
  lookup t l0 = Some (File mode data).
Proof.
  induction l as [|x l IH]; intros t l0 mode data Hwf H; [exact H|].
  destruct t as [m d|m es]; [exact H|].
  pose proof Hwf as Hwf'. simpl in Hwf'.
  apply andb_true_iff in Hwf' as [Hwf1 Hwf3].
  apply andb_true_iff in Hwf1 as [Hwf1 Hwf2].
  destruct l as [|x' l].
  - simpl del_at in H. destruct l0 as [|y l1]; [discriminate|].
    simpl in H |- *. rewrite (assoc_del_spec _ _ _ Hwf2) in H.
    destruct (String.eqb y x); [discriminate | exact H].
  - change (del_at (x :: x' :: l) (Dir m es))
      with (match assoc x es with
            | Some c0 => Dir m (assoc_put x (del_at (x' :: l) c0) es)
            | None => Dir m es
            end) in H.
    destruct (assoc x es) as [c|] eqn:Ex; [|exact H].
    destruct l0 as [|y l1]; [discriminate|].
    simpl in H |- *. rewrite assoc_put_spec in H.
    destruct (String.eqb_spec y x) as [->|Hy]; [|exact H].
    rewrite Ex. apply IH; [|exact H].
    rewrite forallb_forall in Hwf3. apply (Hwf3 (x, c)). apply assoc_In; exact Ex.
Qed.

End PutFacts.

Section ChildFacts.
Variable bytes : Type.
Implicit Types (t n : Node bytes) (l : loc).

Lemma well_formed_child m (es : list (string * Node bytes)) x c :
  well_formed (Dir m es) = true -> In (x, c) es ->
  regular x = true /\ assoc x es = Some c /\ well_formed c = true.
Proof.
  simpl. intros H Hin.
  apply andb_true_iff in H as [H H3]. apply andb_true_iff in H as [H1 H2].
  rewrite forallb_forall in H1, H3.
  split; [apply (H1 (x, c) Hin)|]. split; [|apply (H3 (x, c) Hin)].
  apply distinct_assoc; assumption.
Qed.

Lemma all_listable_child m (es : list (string * Node bytes)) x c :
  all_listable (Dir m es) = true -> In (x, c) es ->
  m = true /\ all_listable c = true.
Proof.
  simpl. intros H Hin. apply andb_true_iff in H as [H1 H2].
  rewrite forallb_forall in H2. split; [exact H1 | apply (H2 (x, c) Hin)].
Qed.

(** The entry [x] of a directory, in a tree of the same shape. *)
Lemma child_of_shape t l m (es : list (string * Node bytes)) x c :
  lookup (shape t) l = Some (shape (Dir m es)) ->
  assoc x es = Some c ->
  exists es1 c1,
    lookup t l = Some (Dir m es1)
    /\ assoc x es1 = Some c1
    /\ shape c1 = shape c
    /\ lookup (shape t) (l ++ [x])%list = Some (shape c).
Proof.
  intros Hl Hx. pose proof Hl as Hl'. rewrite lookup_shape in Hl'.
  destruct (lookup t l) as [[m1 d1|m1 es1]|] eqn:L; simpl in Hl';
    try discriminate.
  injection Hl' as -> Hes.
  assert (A : assoc x (map (fun e => (fst e, shape (snd e))) es1)
              = Some (shape c)).
  { rewrite Hes, assoc_shape, Hx. reflexivity. }
  rewrite assoc_shape in A.
  destruct (assoc x es1) as [c1|] eqn:Ex1; simpl in A; [|discriminate].
  injection A as A. exists es1, c1. repeat split; try assumption.
  rewrite lookup_app, Hl. simpl. rewrite assoc_shape, Hx. reflexivity.
Qed.

Lemma dir_of_shape t l m (es : list (string * Node bytes)) :
  lookup (shape t) l = Some (shape (Dir m es)) ->
  exists es1, lookup t l = Some (Dir m es1)
              /\ map (fun e => (fst e, shape (snd e))) es1
                 = map (fun e => (fst e, shape (snd e))) es.
Proof.
  intros Hl. rewrite lookup_shape in Hl.
  destruct (lookup t l) as [[m1 d1|m1 es1]|]; simpl in Hl; try discriminate.
  injection Hl as -> Hes. eauto.
Qed.

Lemma file_of_shape t l mode (data : bytes) :
  lookup (shape t) l = Some (shape (File mode data)) ->
  exists data1, lookup t l = Some (File mode data1).
Proof.
  intros Hl. rewrite lookup_shape in Hl.
  destruct (lookup t l) as [[m1 d1|m1 es1]|]; simpl in Hl; try discriminate.
  injection Hl as ->. eauto.
Qed.

End ChildFacts.

(* ================================================================= *)
(** * Passes over clean trees *)

Section CleanWalk.
Variable bytes : Type.
Variable ParseHTML : bytes -> Html.Document.
Variable RenderHTML : Html.Document -> error + bytes.
Implicit Types (s t : OS bytes) (l : loc).

Variables from to : string.
Hypothesis destination_is_no_form : hrefMatches from to = false.
Hypothesis round_trip :
  forall doc data, RenderHTML doc = inr data -> ParseHTML data = doc.

Let fn := walkFn ParseHTML RenderHTML from to.

Lemma last_default (r : loc) (x d d' : string) :
  last (x :: r) d = last (x :: r) d'.
Proof.
  revert x; induction r as [|y r IH]; intros x; [reflexivity|].
  change (last (y :: r) d = last (y :: r) d'). apply IH.
Qed.

Lemma last_cons (x : string) (r : loc) (d : string) :
  last (x :: r) d = last r x.
Proof.
  destruct r as [|y r]; [reflexivity|].
  change (last (y :: r) d = last (y :: r) x). apply last_default.
Qed.

Lemma lookup_file_nil mode (data : bytes) (r : loc) mode' data' :
  lookup (File mode data) r = Some (File mode' data') ->
  r = [] /\ mode' = mode /\ data' = data.
Proof. destruct r; simpl; [intros [= -> ->]; auto | discriminate]. Qed.

(** What is clean at a location stays clean after any call of [fn]. *)
Lemma clean_at_preserved l name s path d e :
  (forall n, lookup (tree s) l = Some n ->
             clean_file ParseHTML from name n = true) ->
  forall n, lookup (tree (final (fn path d e s))) l = Some n ->
            clean_file ParseHTML from name n = true.
Proof.
  intros H. unfold fn. destruct d as [d|]; [|exact H].
  destruct (walkFn_cases ParseHTML RenderHTML from to path d e s)
    as [ | | | | |l' mode data data' Hhtml Hopen Hl Href Hrender];
    try exact H.
  unfold after_write. destruct (may_write mode); [|exact H].
  simpl. intros [m0 d0|m0 es0] Hn; [|reflexivity].
  apply lookup_put_at_file in Hn as [(r & -> & Hr)|Hn]; [|apply H; exact Hn].
  apply lookup_file_nil in Hr as (-> & -> & ->).
  simpl. rewrite (round_trip Hrender), (no_reference_after_retarget _ _ destination_is_no_form).
  apply orb_true_r.
Qed.

Lemma clean_below_fn l name s path d e :
  clean_below ParseHTML from s l name ->
  clean_below ParseHTML from (final (fn path d e s)) l name.
Proof.
  intros H r. apply clean_at_preserved. intros n. apply H.
Qed.

Lemma clean_below_walkEntries l name es path s :
  clean_below ParseHTML from s l name ->
  clean_below ParseHTML from (final (walkEntries fn path es s)) l name.
Proof.
  apply (@walkEntries_preserves bytes fn
           (fun t => clean_below ParseHTML from t l name)).
  intros p d e t. apply clean_below_fn.
Qed.

(** A call that returns nil and logs no failed write leaves the entry it
    was made on clean. *)
Lemma fn_cleans s s' path d e l :
  fn path (Some d) e s = Return None s' ->
  failed_writes (calls s') = failed_writes (calls s) ->
  resolve s path = inr l ->
  forall n, lookup (tree s') l = Some n ->
            clean_file ParseHTML from (Name d) n = true.
Proof.
  intros Hcall Hcount Hres. unfold fn in Hcall.
  destruct (walkFn_cases ParseHTML RenderHTML from to path d e s)
    as [Hno| | |l' mode data Hhtml Hopen Hl Hno|
        |l' mode data data' Hhtml Hopen Hl Href Hrender];
    try discriminate; injection Hcall as <-.
  - intros [m0 d0|m0 es0] _; simpl; [rewrite Hno|]; reflexivity.
  - apply Open_resolve in Hopen. rewrite Hres in Hopen. injection Hopen as <-.
    intros n Hn. rewrite Hl in Hn. injection Hn as <-. simpl.
    rewrite Hno. apply orb_true_r.
  - apply Open_resolve in Hopen. rewrite Hres in Hopen. injection Hopen as <-.
    unfold after_write in *. destruct (may_write mode).
    + simpl. intros n Hn.
      rewrite (@lookup_put_at_same _ l (File mode data') (tree s) mode data Hl)
        in Hn.
      injection Hn as <-. simpl.
      rewrite (round_trip Hrender), (no_reference_after_retarget _ _ destination_is_no_form).
      apply orb_true_r.
    + exfalso. unfold failed_writes in Hcount. simpl in Hcount.
      rewrite filter_app, length_app in Hcount. simpl in Hcount. lia.
Qed.

(** A pass without an error and without a failed write leaves every file
    below the entry it started from clean. *)
Lemma first_pass_cleans n :
  forall path d l s s',
    well_formed n = true -> all_listable n = true ->
    resolve s path = inr l ->
    lookup (shape (tree s)) l = Some (shape n) ->
    walkDir fn path d n s = Return None s' ->
    failed_writes (calls s') = failed_writes (calls s) ->
    clean_below ParseHTML from s' l (Name d).
Proof.
  induction n as [mode data|listable entries IH] using Node_induction;
    intros path d l s s' Hwf Hlist Hres Hshape Hwalk Hcount.
  - rewrite walkDir_File in Hwalk. unfold bind, ret in Hwalk.
    destruct (fn path (Some d) None s) as [[e|] s1|code s1|s1] eqn:E;
      try discriminate.
    injection Hwalk as <-.
    destruct (fn_same_shape ParseHTML RenderHTML from to s path (Some d) None)
      as [Hs Hc].
    fold fn in Hs, Hc. rewrite E in Hs, Hc. simpl in Hs, Hc.
    rewrite <- Hs in Hshape.
    destruct (@file_of_shape _ _ _ _ _ Hshape) as [data1 L1].
    intros r n0 Hn0. rewrite lookup_app, L1 in Hn0.
    destruct r as [|x r]; [|discriminate]. simpl in Hn0. injection Hn0 as <-.
    simpl last.
    eapply fn_cleans; try eassumption.
  - rewrite walkDir_Dir in Hwalk. unfold bind, ret in Hwalk.
    destruct (fn path (Some d) None s) as [[e|] s1|code s1|s1] eqn:E;
      try discriminate.
    destruct (fn_same_shape ParseHTML RenderHTML from to s path (Some d) None)
      as [Hs Hc].
    fold fn in Hs, Hc. rewrite E in Hs, Hc. simpl in Hs, Hc.
    pose proof (failed_writes_fn ParseHTML RenderHTML from to s path (Some d) None)
      as M1.
    fold fn in M1. rewrite E in M1. simpl in M1.
    assert (Hlistable : listable = true).
    { simpl in Hlist. apply andb_true_iff in Hlist as [H _]. exact H. }
    subst listable.
    pose proof (failed_writes_walkEntries ParseHTML RenderHTML from to entries path s1)
      as M2.
    fold fn in M2. rewrite Hwalk in M2. simpl in M2.
    assert (Hc1 : failed_writes (calls s') = failed_writes (calls s1)) by lia.
    assert (Loop : forall rest, incl rest entries ->
              forall s1, shape (tree s1) = shape (tree s) -> cwd s1 = cwd s ->
              walkEntries fn path rest s1 = Return None s' ->
              failed_writes (calls s') = failed_writes (calls s1) ->
              forall x c, In (x, c) rest ->
              clean_below ParseHTML from s' (l ++ [x])%list x).
    { clear E M1 M2 Hcount Hs Hc Hwalk Hc1 s1.
      induction rest as [|[x0 c0] rest IHrest];
        intros Hincl s1 Hs Hc Hwalk Hc1 x c Hin; [contradiction|].
      simpl in Hwalk. unfold bind, ret in Hwalk.
      destruct (walkDir fn (Filepath.Join [path; x0])
                  {| Name := x0; IsDir := is_dir c0 |} c0 s1)
        as [[e|] s2|code s2|s2] eqn:E0; try discriminate.
      pose proof (failed_writes_walkDir ParseHTML RenderHTML from to c0
                    (Filepath.Join [path; x0])
                    {| Name := x0; IsDir := is_dir c0 |} s1) as M1.
      fold fn in M1. rewrite E0 in M1. simpl in M1.
      pose proof (failed_writes_walkEntries ParseHTML RenderHTML from to rest path s2)
        as M2.
      fold fn in M2. rewrite Hwalk in M2. simpl in M2.
      destruct (walkDir_same_shape ParseHTML RenderHTML from to c0
                  (Filepath.Join [path; x0])
                  {| Name := x0; IsDir := is_dir c0 |} s1) as [Hs2 Hc2].
      fold fn in Hs2, Hc2. rewrite E0 in Hs2, Hc2. simpl in Hs2, Hc2.
      assert (In0 : In (x0, c0) entries) by (apply Hincl; left; reflexivity).
      destruct (@well_formed_child _ _ _ _ _ Hwf In0) as (Hreg & Hassoc & Hwf0).
      destruct (@all_listable_child _ _ _ _ _ Hlist In0) as (_ & Hlist0).
      assert (Hshape1 : lookup (shape (tree s1)) l
                        = Some (shape (Dir true entries)))
        by (rewrite Hs; exact Hshape).
      destruct (@child_of_shape _ _ _ _ _ _ _ Hshape1 Hassoc)
        as (es1 & c1 & L1 & A1 & Sc1 & Lc1).
      assert (Q0 : clean_below ParseHTML from s2 (l ++ [x0])%list x0).
      { rewrite Forall_forall in IH.
        apply (IH (x0, c0) In0 (Filepath.Join [path; x0])
                 {| Name := x0; IsDir := is_dir c0 |} (l ++ [x0])%list s1 s2);
          try assumption.
        - apply (@resolve_Join _ s1 path x0 l true es1 c1);
            [|exact L1 | exact A1 | exact Hreg].
          rewrite (resolve_same_shape _ _ _ Hs Hc). exact Hres.
        - lia. }
      destruct Hin as [Heq|Hin].
      + injection Heq as <- <-.
        pose proof (clean_below_walkEntries rest path Q0) as Q.
        rewrite Hwalk in Q. exact Q.
      + apply (fun H1 H2 H3 H4 =>
                 IHrest (fun e He => Hincl e (or_intror He)) s2 H1 H2 H3 H4
                   x c Hin);
          [congruence | congruence | exact Hwalk | lia]. }
    pose proof (Loop entries (incl_refl _) s1 Hs Hc Hwalk Hc1) as Children.
    intros r n0 Hn0.
    assert (Hs' : shape (tree s') = shape (tree s)).
    { pose proof (@walkEntries_preserves bytes fn
                    (fun t => shape (tree t) = shape (tree s) /\ cwd t = cwd s)) as P.
      assert (Pfn : forall p d0 e0 t,
                 shape (tree t) = shape (tree s) /\ cwd t = cwd s ->
                 shape (tree (final (fn p d0 e0 t))) = shape (tree s)
                 /\ cwd (final (fn p d0 e0 t)) = cwd s).
      { intros p d0 e0 t [H1 H2].
        destruct (fn_same_shape ParseHTML RenderHTML from to t p d0 e0) as [H3 H4].
        fold fn in H3, H4. split; congruence. }
      specialize (P Pfn entries path s1 (conj Hs Hc)).
      rewrite Hwalk in P. simpl in P. apply P. }
    assert (Hshape' : lookup (shape (tree s')) l
                      = Some (shape (Dir true entries)))
      by (rewrite Hs'; exact Hshape).
    destruct (@dir_of_shape _ _ _ _ _ Hshape') as (es' & L' & Hes').
    rewrite lookup_app, L' in Hn0.
    destruct r as [|x r]; [simpl in Hn0; injection Hn0 as <-; reflexivity|].
    rewrite last_cons. simpl in Hn0.
    destruct (assoc x es') as [c'|] eqn:Ex'; [|discriminate].
    assert (A : assoc x (map (fun e => (fst e, shape (snd e))) entries)
                = Some (shape c')).
    { rewrite <- Hes', assoc_shape, Ex'. reflexivity. }
    rewrite assoc_shape in A.
    destruct (assoc x entries) as [c|] eqn:Ex; [|discriminate].
    apply (Children x c (assoc_In _ _ Ex) r n0).
    rewrite <- app_assoc. simpl. rewrite lookup_app, L'. simpl.
    rewrite Ex'. exact Hn0.
Qed.

(** On an entry that is clean, [fn] changes nothing. *)
Lemma fn_on_clean s path d e l :
  resolve s path = inr l ->
  (forall n, lookup (tree s) l = Some n ->
             clean_file ParseHTML from (Name d) n = true) ->
  exists e', fn path (Some d) e s = Return e' s.
Proof.
  intros Hres Hclean. unfold fn.
  destruct (walkFn_cases ParseHTML RenderHTML from to path d e s)
    as [ | | | | |l' mode data data' Hhtml Hopen Hl Href Hrender]; eauto.
  exfalso. apply Open_resolve in Hopen. rewrite Hres in Hopen.
  injection Hopen as <-. specialize (Hclean _ Hl). simpl in Hclean.
  rewrite Hhtml, Href in Hclean. discriminate.
Qed.

(** A pass over a tree all of whose files are clean changes nothing. *)
Lemma clean_pass n :
  forall path d l s,
    well_formed n = true ->
    resolve s path = inr l ->
    lookup (tree s) l = Some n ->
    clean_below ParseHTML from s l (Name d) ->
    exists e, walkDir fn path d n s = Return e s.
Proof.
  induction n as [mode data|listable entries IH] using Node_induction;
    intros path d l s Hwf Hres Hl Hclean.
  - rewrite walkDir_File. unfold bind, ret.
    destruct (@fn_on_clean s path d None l Hres) as [e1 E1].
    { intros n Hn. apply (Hclean [] n). rewrite app_nil_r. exact Hn. }
    rewrite E1. destruct e1; eauto.
  - rewrite walkDir_Dir. unfold bind, ret.
    assert (Hself : forall n, lookup (tree s) l = Some n ->
                      clean_file ParseHTML from (Name d) n = true).
    { intros n Hn. apply (Hclean [] n). rewrite app_nil_r. exact Hn. }
    destruct (@fn_on_clean s path d None l Hres Hself) as [e1 E1].
    rewrite E1. destruct e1 as [err|]; [eauto|].
    destruct listable;
      [|apply (@fn_on_clean s path d (Some (SyscallError EACCES)) l Hres Hself)].
    assert (Loop : forall rest, incl rest entries ->
              exists e, walkEntries fn path rest s = Return e s).
    { induction rest as [|[x0 c0] rest IHrest]; intros Hincl;
        [exists None; reflexivity|].
      assert (In0 : In (x0, c0) entries) by (apply Hincl; left; reflexivity).
      destruct (@well_formed_child _ _ _ _ _ Hwf In0) as (Hreg & Hassoc & Hwf0).
      rewrite Forall_forall in IH.
      destruct (IH (x0, c0) In0 (Filepath.Join [path; x0])
                  {| Name := x0; IsDir := is_dir c0 |} (l ++ [x0])%list s)
        as [e0 E0].
      - exact Hwf0.
      - apply (@resolve_Join _ s path x0 l true entries c0); assumption.
      - rewrite lookup_app, Hl. simpl. rewrite Hassoc. reflexivity.
      - intros r n0 Hn0. rewrite <- app_assoc in Hn0. simpl in Hn0.
        specialize (Hclean (x0 :: r) n0 Hn0). rewrite last_cons in Hclean.
        exact Hclean.
      - simpl in E0 |- *. unfold bind, ret. rewrite E0.
        destruct e0 as [err|]; [eauto|].
        apply IHrest. intros e He. apply Hincl. right; exact He. }
    apply Loop. apply incl_refl.
Qed.

End CleanWalk.

(* ================================================================= *)
(** * Updates keep trees well formed *)

Section WellFormedUpdates.
Variable bytes : Type.
Implicit Types (t n v : Node bytes) (l : loc).

Lemma assoc_None_not_in {A : Type} x (es : list (string * A)) :
  assoc x es = None -> existsb (String.eqb x) (map fst es) = false.
Proof.
  induction es as [|[k c] es IH]; simpl; [reflexivity|].
  destruct (String.eqb x k); [discriminate | exact IH].
Qed.

Lemma map_fst_assoc_replace {A : Type} x (v : A) es :
  map fst (assoc_replace x v es) = map fst es.
Proof.
  induction es as [|[k c] es IH]; simpl; [reflexivity|].
  destruct (String.eqb x k); simpl; [reflexivity | rewrite IH; reflexivity].
Qed.

Lemma In_assoc_replace {A : Type} x (v : A) es e :
  In e (assoc_replace x v es) -> In e es \/ snd e = v.
Proof.
  induction es as [|[k c] es IH]; simpl; [auto|].
  destruct (String.eqb x k); simpl.
  - intros [<-|H]; auto.
  - intros [<-|H]; auto. destruct (IH H); auto.
Qed.

Lemma In_assoc_insert {A : Type} x (v : A) es e :
  In e (assoc_insert x v es) -> In e es \/ e = (x, v).
Proof.
  induction es as [|[k c] es IH]; simpl.
  - intros [<-|[]]; auto.
  - destruct (String.ltb x k); simpl.
    + intros [<-|H]; auto.
    + intros [<-|H]; auto. destruct (IH H); auto.
Qed.

Lemma distinct_assoc_insert {A : Type} x (v : A) es :
  assoc x es = None -> distinct (map fst es) = true ->
  distinct (map fst (assoc_insert x v es)) = true.
Proof.
  induction es as [|[k c] es IH]; simpl; intros Hx Hd; [reflexivity|].
  destruct (String.eqb_spec x k) as [->|Hxk]; [discriminate|].
  apply andb_true_iff in Hd as [H1 H2].
  destruct (String.ltb x k); simpl.
  - destruct (String.eqb_spec x k); [contradiction|]. simpl.
    rewrite (assoc_None_not_in _ _ Hx), H1, H2. reflexivity.
  - rewrite (IH Hx H2), andb_true_r. apply negb_true_iff.
    apply negb_true_iff in H1.
    destruct (existsb (String.eqb k) (map fst (assoc_insert x v es))) eqn:E;
      [|reflexivity].
    apply existsb_exists in E as (y & Hy & Hky).
    apply String.eqb_eq in Hky. subst y.
    apply in_map_iff in Hy as ([k' c'] & Hk' & Hin). simpl in Hk'. subst k'.
    destruct (In_assoc_insert _ _ _ _ Hin) as [H|H].
    + assert (existsb (String.eqb k) (map fst es) = true); [|congruence].
      apply existsb_exists. exists k. split; [|apply String.eqb_refl].
      apply (in_map fst) in H. exact H.
    + injection H as -> _. contradiction.
Qed.

Lemma In_assoc_del {A : Type} x (es : list (string * A)) e :
  In e (assoc_del x es) -> In e es.
Proof.
  induction es as [|[k c] es IH]; simpl; [auto|].
  destruct (String.eqb x k); simpl; [auto|]. intros [<-|H]; auto.
Qed.

Lemma distinct_assoc_del {A : Type} x (es : list (string * A)) :
  distinct (map fst es) = true -> distinct (map fst (assoc_del x es)) = true.
Proof.
  induction es as [|[k c] es IH]; simpl; [reflexivity|]. intros Hd.
  apply andb_true_iff in Hd as [H1 H2].
  destruct (String.eqb x k); simpl; [exact H2|].
  rewrite (IH H2), andb_true_r. apply negb_true_iff.
  apply negb_true_iff in H1.
  destruct (existsb (String.eqb k) (map fst (assoc_del x es))) eqn:E;
    [|reflexivity].
  apply existsb_exists in E as (y & Hy & Hky).
  apply String.eqb_eq in Hky. subst y.
  apply in_map_iff in Hy as ([k' c'] & Hk' & Hin). simpl in Hk'. subst k'.
  apply In_assoc_del in Hin.
  assert (existsb (String.eqb k) (map fst es) = true); [|congruence].
  apply existsb_exists. exists k. split; [|apply String.eqb_refl].
  apply (in_map fst) in Hin. exact Hin.
Qed.

Lemma well_formed_Dir m (es : list (string * Node bytes)) :
  well_formed (Dir m es) = true
  <-> (forall e, In e es -> regular (fst e) = true /\ well_formed (snd e) = true)
      /\ distinct (map fst es) = true.
Proof.
  simpl. rewrite !andb_true_iff, !forallb_forall. split.
  - intros [[H1 H2] H3]. split; [|exact H2]. intros e He. split; auto.
  - intros [H1 H2]. repeat split; [|exact H2|]; intros e He; apply H1; exact He.
Qed.

Lemma assoc_key_In {A : Type} x (c : A) es : assoc x es = Some c -> In (x, c) es.
Proof. apply assoc_In. Qed.

Lemma well_formed_assoc_put m (es : list (string * Node bytes)) x v :
  well_formed (Dir m es) = true -> regular x = true -> well_formed v = true ->
  well_formed (Dir m (assoc_put x v es)) = true.
Proof.
  intros Hwf Hx Hv. apply well_formed_Dir in Hwf as [H1 H2].
  apply well_formed_Dir. unfold assoc_put.
  destruct (assoc x es) as [c|] eqn:Ex.
  - split; [|rewrite map_fst_assoc_replace; exact H2].
    intros e He.
    assert (Hk : In (fst e) (map fst es)).
    { apply (in_map fst) in He. rewrite map_fst_assoc_replace in He. exact He. }
    apply in_map_iff in Hk as (e' & Hk & He').
    split; [rewrite <- Hk; apply H1; exact He'|].
    destruct (In_assoc_replace _ _ _ _ He) as [H|H]; [apply H1; exact H|].
    rewrite H. exact Hv.
  - split; [|apply distinct_assoc_insert; assumption].
    intros e He. destruct (In_assoc_insert _ _ _ _ He) as [H|H];
      [apply H1; exact H|]. subst e. simpl. auto.
Qed.

Lemma well_formed_put_at l : forall t x v,
  well_formed t = true -> regular x = true -> well_formed v = true ->
  well_formed (put_at (l ++ [x])%list v t) = true.
Proof.
  induction l as [|y l IH]; intros t x v Hwf Hx Hv.
  - destruct t as [m d|m es]; [exact Hwf|].
    change (well_formed (Dir m (assoc_put x v es)) = true).
    apply well_formed_assoc_put; assumption.
  - destruct t as [m d|m es]; [exact Hwf|].
    change (put_at ((y :: l) ++ [x])%list v (Dir m es))
      with (match (l ++ [x])%list, assoc y es with
            | [], _ => Dir m (assoc_put y v es)
            | _, Some c => Dir m (assoc_put y (put_at (l ++ [x])%list v c) es)
            | _, None => Dir m es
            end).
    destruct (l ++ [x])%list as [|z r] eqn:E; [destruct l; discriminate|].
    rewrite <- E. destruct (assoc y es) as [c|] eqn:Ey; [|exact Hwf].
    pose proof Hwf as Hwf'. apply well_formed_Dir in Hwf' as [H1 _].
    destruct (H1 (y, c) (assoc_In _ _ Ey)) as [Hy Hc].
    apply well_formed_assoc_put; [exact Hwf | exact Hy|].
    apply IH; assumption.
Qed.

Lemma well_formed_del_at l : forall t,
  well_formed t = true -> well_formed (del_at l t) = true.
Proof.
  induction l as [|y l IH]; intros t Hwf; [exact Hwf|].
  destruct t as [m d|m es]; [exact Hwf|].
  change (del_at (y :: l) (Dir m es))
    with (match l, assoc y es with
          | [], _ => Dir m (assoc_del y es)
          | _, Some c => Dir m (assoc_put y (del_at l c) es)
          | _, None => Dir m es
          end).
  pose proof Hwf as Hwf'. apply well_formed_Dir in Hwf' as [H1 H2].
  destruct l as [|z r].
  - apply well_formed_Dir. split; [|apply distinct_assoc_del; exact H2].
    intros e He. apply H1. apply In_assoc_del in He. exact He.
  - destruct (assoc y es) as [c|] eqn:Ey; [|exact Hwf].
    destruct (H1 (y, c) (assoc_In _ _ Ey)) as [Hy Hc].
    apply well_formed_assoc_put; [exact Hwf | exact Hy|].
    apply IH; exact Hc.
Qed.

End WellFormedUpdates.

(* ================================================================= *)
(** * The rename *)

Section RenameFacts.
Local Open Scope list_scope.
Variable bytes : Type.
Implicit Types (s : OS bytes) (t n v : Node bytes) (l : loc).

Lemma is_prefix_app (a b : loc) :
  is_prefix a b = true -> exists r, b = (a ++ r)%list.
Proof.
  revert b; induction a as [|x a IH]; intros b H; [exists b; reflexivity|].
  destruct b as [|y b]; [discriminate|]. simpl in H.
  apply andb_true_iff in H as [Hxy H]. apply String.eqb_eq in Hxy. subst y.
  destruct (IH _ H) as [r ->]. exists r. reflexivity.
Qed.

Lemma is_prefix_app_true (a r : loc) : is_prefix a (a ++ r) = true.
Proof.
  induction a as [|x a IH]; [reflexivity|]. simpl.
  rewrite String.eqb_refl. exact IH.
Qed.

Lemma components_lack s path :
  Forall (fun x => lacks Filepath.Separator x = true) (components s path).
Proof.
  unfold components. destruct (Filepath.IsAbs path);
    [|apply Forall_app; split]; apply Split_parts_lack.
Qed.

Lemma last_In {A : Type} (l : list A) d : l <> [] -> In (last l d) l.
Proof.
  induction l as [|x l IH]; [congruence|]. intros _.
  destruct l as [|y l]; [left; reflexivity|].
  right. apply IH. discriminate.
Qed.

Lemma resolve_parent_regular s path parent name :
  resolve_parent s path = inr (parent, name) ->
  regular name = true
  /\ exists m es, lookup (tree s) parent = Some (Dir m es).
Proof.
  unfold resolve_parent. destruct (String.eqb path ""); [discriminate|].
  destruct (is_special (last (components s path) "")) eqn:Hs; [discriminate|].
  destruct (namei (tree s) [] (removelast (components s path))) as [e|p];
    [discriminate|].
  destruct (lookup (tree s) p) as [[m d|m es]|] eqn:L; try discriminate.
  intros [= <- <-]. split; [|eauto].
  unfold regular. rewrite Hs. simpl.
  pose proof (components_lack s path) as K. rewrite Forall_forall in K.
  apply K. apply last_In. intros E. rewrite E in Hs. discriminate.
Qed.

Lemma resolve_parent_same_shape s s' path :
  shape (tree s') = shape (tree s) -> cwd s' = cwd s ->
  resolve_parent s' path = resolve_parent s path.
Proof.
  intros Ht Hc. unfold resolve_parent, components. rewrite Hc.
  destruct (String.eqb path ""); [reflexivity|].
  destruct (is_special _); [reflexivity|].
  rewrite <- (namei_shape (tree s')), <- (namei_shape (tree s)), Ht.
  destruct (namei (shape (tree s)) [] _) as [e|p]; [reflexivity|].
  pose proof (lookup_same_shape (tree s) (tree s') p Ht) as K.
  destruct (lookup (tree s) p) as [[m d|m es]|],
           (lookup (tree s') p) as [[m' d'|m' es']|]; try contradiction;
    reflexivity.
Qed.

Lemma lookup_below_nonempty t l x (r : loc) n :
  lookup t (l ++ x :: r) = Some n ->
  exists m e es, lookup t l = Some (Dir m (e :: es)).
Proof.
  rewrite lookup_app. destruct (lookup t l) as [[m d|m es]|]; try discriminate.
  simpl. destruct es as [|e es]; [discriminate|]. eauto.
Qed.

(** What a rename that succeeds has done. *)
Lemma Rename_success oldpath newpath s1 s2 :
  Rename oldpath newpath s1 = Return None s2 ->
  exists oldparent oldname newparent newname src,
    resolve_parent s1 oldpath = inr (oldparent, oldname)
    /\ lookup (tree s1) (oldparent ++ [oldname]) = Some src
    /\ resolve_parent s1 newpath = inr (newparent, newname)
    /\ cwd s2 = cwd s1
    /\ (tree s2 = tree s1
        \/ (tree s2 = put_at (newparent ++ [newname]) src
                        (del_at (oldparent ++ [oldname]) (tree s1))
            /\ forall x r, (oldparent ++ [oldname])%list
                           <> ((newparent ++ [newname]) ++ x :: r)%list)).
Proof.
  unfold Rename.
  destruct (match Lstat s1 newpath with inl _ => None | inr _ => _ end);
    [discriminate|].
  unfold sys_rename.
  destruct (resolve_parent s1 oldpath) as [e|[po no]]; [discriminate|].
  destruct (lookup (tree s1) (po ++ [no])) as [src|] eqn:Lsrc; [|discriminate].
  destruct (resolve_parent s1 newpath) as [e|[pn nn]]; [discriminate|].
  intros H. exists po, no, pn, nn, src.
  split; [reflexivity|]. split; [exact Lsrc|]. split; [reflexivity|].
  assert (P : forall x r dst,
             lookup (tree s1) (pn ++ [nn]) = dst ->
             (po ++ [no])%list = ((pn ++ [nn]) ++ x :: r)%list ->
             exists m e es, dst = Some (Dir m (e :: es))).
  { intros x r dst Hdst E. rewrite E in Lsrc.
    destruct (lookup_below_nonempty _ _ _ _ Lsrc) as (m & e & es & K).
    rewrite K in Hdst. eauto. }
  destruct (loc_eqb (po ++ [no]) (pn ++ [nn])).
  - injection H as <-. simpl. auto.
  - destruct src as [ms ds|ms ess].
    + destruct (lookup (tree s1) (pn ++ [nn])) as [[md dd|md esd]|] eqn:Ld;
        try discriminate; injection H as <-; simpl; (split; [reflexivity|]);
        right; (split; [reflexivity|]); intros x r E;
        destruct (P x r _ eq_refl E) as (m & e & es & K); discriminate.
    + destruct (is_prefix (po ++ [no]) (pn ++ [nn])); [discriminate|].
      destruct (lookup (tree s1) (pn ++ [nn])) as [[md dd|md [|ed esd]]|] eqn:Ld;
        try discriminate; injection H as <-; simpl; (split; [reflexivity|]);
        right; (split; [reflexivity|]); intros x r E;
        destruct (P x r _ eq_refl E) as (m & e & es & K); discriminate.
Qed.

Lemma Split_rooted c p rest :
  Strings.Split Filepath.Separator (String c p) = "" :: rest ->
  Ascii.eqb c Filepath.Separator = true.
Proof.
  simpl. destruct (Ascii.eqb c Filepath.Separator); [reflexivity|].
  destruct (Strings.Split Filepath.Separator p); discriminate.
Qed.

(** A root path that spells its location names that location, if any. *)
Lemma canonical_resolve s root (lroot : loc) l :
  Strings.Split Filepath.Separator root = "" :: lroot ->
  Forall (fun x => regular x = true) lroot ->
  resolve s root = inr l -> l = lroot.
Proof.
  intros Hsplit Hreg. unfold resolve, components, Filepath.IsAbs.
  destruct root as [|c p]; [discriminate|].
  simpl String.eqb. pose proof (Split_rooted _ _ Hsplit) as R.
  simpl Filepath.rooted. rewrite R, Hsplit. intros H.
  apply (@namei_skip _ (tree s) [] "" lroot l eq_refl) in H.
  apply (@namei_regular _ (tree s) lroot [] l Hreg H).
Qed.

End RenameFacts.

(* ================================================================= *)
(** * A second pass after the move *)

Section AfterTheMove.
Local Open Scope list_scope.
Variable bytes : Type.
Variable ParseHTML : bytes -> Html.Document.
Variable RenderHTML : Html.Document -> error + bytes.
Implicit Types (s : OS bytes) (l : loc).

Lemma last_app (a r : loc) (d d' : string) :
  r <> [] -> last (a ++ r) d = last r d'.
Proof.
  intros Hr. induction a as [|x a IH].
  - destruct r as [|y r]; [congruence|]. apply last_default.
  - destruct (a ++ r) as [|y ar] eqn:E.
    + apply app_eq_nil in E as [_ E]. contradiction.
    + change (last ((x :: a) ++ r) d) with (last (x :: a ++ r) d).
      rewrite E. change (last (x :: y :: ar) d) with (last (y :: ar) d).
      exact IH.
Qed.

Lemma last_snoc (a : loc) (x d : string) : last (a ++ [x]) d = x.
Proof. rewrite (last_app a d d (r := [x])); [reflexivity | discriminate]. Qed.

(** C9, as the program has it.  After a move that completed, a second
    run of the rewrite pass over the resulting tree, with the forms of the
    source, marks no document dirty and writes nothing: it leaves the
    state as it is.  This needs that the destination string is not one of
    the link forms of the source; that the serialiser and the parser
    round-trip; that the first pass met no error and no failed write and
    could list every directory under the root; that the tree is well
    formed and the root path spells its location; and that the source lies
    under the root and, when it is a regular file, has a name that ends in
    [.html] unless the destination's name does not. *)
Theorem second_pass_after_move
  (Args : list string) (s0 s1 s2 : OS bytes) (root rf rt : string)
  (lroot po pn : loc) (no nn : string) :
  4 <= length Args ->
  ZkRoot s0 (cwd s0) = (root, None) ->
  zkRelative root (absFromPath s0 Args) = Some rf ->
  zkRelative root (absToPath s0 Args) = Some rt ->
  hrefMatches rf (Strings.TrimSuffix rt "/index.html") = false ->
  (forall doc data, RenderHTML doc = inr data -> ParseHTML data = doc) ->
  well_formed (tree s0) = true ->
  Strings.Split Filepath.Separator root = "" :: lroot ->
  Forall (fun x => regular x = true) lroot ->
  (forall n, lookup (tree s0) lroot = Some n -> all_listable n = true) ->
  WalkDir root
    (walkFn ParseHTML RenderHTML rf (Strings.TrimSuffix rt "/index.html")) s0
  = Return None s1 ->
  failed_writes (calls s1) = failed_writes (calls s0) ->
  mv ParseHTML RenderHTML Args s0 = Return tt s2 ->
  resolve_parent s0 (absFromPath s0 Args) = inr (po, no) ->
  is_prefix lroot po = true ->
  resolve_parent s0 (absToPath s0 Args) = inr (pn, nn) ->
  (forall mode data,
      lookup (tree s0) (po ++ [no]) = Some (File mode data) ->
      Strings.HasSuffix no ".html" = true
      \/ Strings.HasSuffix nn ".html" = false) ->
  final (WalkDir root
           (walkFn ParseHTML RenderHTML rf
              (Strings.TrimSuffix rt "/index.html")) s2)
  = s2.
Proof.
  intros Hlen Hroot Hrf Hrt Hform Hround Hwf Hsplit Hreg Hlist Hwalk Hcount
    Hmv Hfrom Hunder Hto Hname.
  set (to := Strings.TrimSuffix rt "/index.html") in *.
  (* the rename that [mv] made *)
  rewrite (mv_unfold _ _ _ _ Hlen), Hroot, Hrf, Hrt in Hmv.
  destruct (IsNotExist _); [discriminate|].
  fold to in Hmv. rewrite Hwalk in Hmv. unfold report_rename in Hmv.
  destruct (Rename (absFromPath s0 Args) (absToPath s0 Args) s1)
    as [[err|] s2'|code s2'|s2'] eqn:Hren; try discriminate.
  injection Hmv as ->.
  (* the first pass *)
  unfold WalkDir in Hwalk.
  destruct (Lstat s0 root) as [err|info] eqn:Hstat; [discriminate|].
  destruct (resolve s0 root) as [e|l0] eqn:Hres; [discriminate|].
  destruct (lookup (tree s0) l0) as [n|] eqn:Hn; [|discriminate].
  assert (l0 = lroot) by (eapply canonical_resolve; eassumption). subst l0.
  destruct (walkDir_same_shape ParseHTML RenderHTML rf to n root info s0)
    as [Hshape Hcwd].
  rewrite Hwalk in Hshape, Hcwd. simpl in Hshape, Hcwd.
  assert (G1 : clean_below ParseHTML rf s1 lroot (Name info)).
  { apply (@first_pass_cleans bytes ParseHTML RenderHTML rf to Hform Hround
             n root info lroot s0 s1); try assumption.
    - eapply well_formed_lookup; eassumption.
    - apply Hlist; exact Hn.
    - rewrite lookup_shape, Hn. reflexivity. }
  assert (Hwf1 : well_formed (tree s1) = true).
  { rewrite (@well_formed_shape bytes (tree s0) (tree s1) Hshape).
    exact Hwf. }
  (* the rename *)
  destruct (@Rename_success bytes _ _ _ _ Hren)
    as (po' & no' & pn' & nn' & src & Hfrom' & Lsrc & Hto' & Hcwd2 & Htree).
  rewrite (@resolve_parent_same_shape bytes s0 s1 _ Hshape Hcwd), Hfrom
    in Hfrom'.
  rewrite (@resolve_parent_same_shape bytes s0 s1 _ Hshape Hcwd), Hto
    in Hto'.
  injection Hfrom' as <- <-. injection Hto' as <- <-.
  destruct (is_prefix_app _ _ Hunder) as [r0 ->].
  rewrite <- app_assoc in Lsrc.
  assert (Hto1 : resolve_parent s1 (absToPath s0 Args) = inr (pn, nn)).
  { rewrite (@resolve_parent_same_shape bytes s0 s1 _ Hshape Hcwd).
    exact Hto. }
  destruct (@resolve_parent_regular bytes s1 _ pn nn Hto1) as [Hnn _].
  assert (Hwf2 : well_formed (tree s2) = true).
  { destruct Htree as [->|[-> _]]; [exact Hwf1|].
    apply well_formed_put_at; [|exact Hnn|].
    - apply well_formed_del_at. exact Hwf1.
    - eapply well_formed_lookup; eassumption. }
  (* the second pass *)
  unfold WalkDir.
  destruct (Lstat s2 root) as [err|info2] eqn:Hstat2; [reflexivity|].
  destruct (resolve s2 root) as [e|l2] eqn:Hres2; [reflexivity|].
  assert (l2 = lroot) by (eapply canonical_resolve; eassumption). subst l2.
  destruct (lookup (tree s2) lroot) as [n2|] eqn:Hn2; [|reflexivity].
  assert (Root : forall mode data,
             lookup (tree s1) (lroot ++ []) = Some (File mode data) -> False).
  { intros mode data H. rewrite app_nil_r in H.
    rewrite lookup_app, H in Lsrc.
    destruct (r0 ++ [no]) eqn:E; [|discriminate].
    apply app_eq_nil in E as [_ E]. discriminate. }
  assert (From1 : forall r mode data,
             lookup (tree s1) (lroot ++ r) = Some (File mode data) ->
             clean_file ParseHTML rf (last r (Name info2)) (File mode data)
             = true).
  { intros r mode data H. destruct r as [|x r]; [destruct (Root _ _ H)|].
    rewrite (last_default r x (Name info2) (Name info)). apply (G1 _ _ H). }
  assert (G2 : clean_below ParseHTML rf s2 lroot (Name info2)).
  { intros r [m0 d0|m0 es0] Hn0; [|reflexivity].
    destruct Htree as [Ht|[Ht Hnot]]; rewrite Ht in Hn0;
      [apply From1; exact Hn0|].
    apply lookup_put_at_file in Hn0 as [(r' & E & Hr')|Hn0].
    - assert (Hr : r <> []).
      { intros ->. rewrite app_nil_r in E.
        destruct (r' ++ r0 ++ [no]) as [|x rr] eqn:E';
          [apply app_eq_nil in E' as [_ E'];
           apply app_eq_nil in E' as [_ E']; discriminate|].
        apply (Hnot x rr). rewrite <- E', !app_assoc, <- E. reflexivity. }
      assert (Hlast : forall d, last r d = last ((pn ++ [nn]) ++ r') d).
      { intros d. rewrite <- E. symmetry. apply last_app. exact Hr. }
      destruct r' as [|y r'].
      + simpl in Hr'. injection Hr' as ->. rewrite Hlast, app_nil_r, last_snoc.
        assert (K : exists mode data,
                   lookup (tree s0) ((lroot ++ r0) ++ [no])
                   = Some (File mode data)).
        { pose proof (lookup_same_shape (tree s0) (tree s1)
                        ((lroot ++ r0) ++ [no]) Hshape) as K.
          rewrite <- app_assoc in K. rewrite Lsrc in K.
          rewrite <- app_assoc.
          destruct (lookup (tree s0) (lroot ++ r0 ++ [no]))
            as [[m d|m es]|]; try contradiction. eauto. }
        destruct K as (mode & data & K).
        destruct (Hname _ _ K) as [Hold|Hnew].
        * pose proof (G1 _ _ Lsrc) as C. rewrite last_snoc in C.
          simpl in C |- *. rewrite Hold in C. simpl in C. rewrite C.
          apply orb_true_r.
        * simpl. rewrite Hnew. reflexivity.
      + rewrite Hlast, (last_app (pn ++ [nn]) (Name info2) (Name info));
          [|discriminate].
        assert (L : lookup (tree s1) (lroot ++ (r0 ++ [no]) ++ y :: r')
                    = Some (File m0 d0)).
        { rewrite (app_assoc lroot (r0 ++ [no]) (y :: r')), lookup_app, Lsrc.
          exact Hr'. }
        pose proof (G1 _ _ L) as C.
        rewrite (last_app (r0 ++ [no]) (Name info) (Name info)) in C;
          [exact C | discriminate].
    - apply From1. eapply lookup_del_at_file; eassumption. }
  destruct (@clean_pass bytes ParseHTML RenderHTML rf to n2 root info2 lroot s2)
    as [e E]; try assumption.
  - eapply well_formed_lookup; eassumption.
  - rewrite E. reflexivity.
Qed.

End AfterTheMove.

(* ================================================================= *)
(** * The scenarios of the specification, run *)

Section Scenarios.
Import Html Example.

(** C1, as stated, fails: in scenario A the anchor of [/proj/index.html]
    has the [href] [notes/a.html]; the note is moved, but the program
    looks for [/notes/a.html] and leaves the anchor as it is. *)
Lemma scenario_A_href_not_rewritten :
  mv Parse Render (mv_args "notes/a.html" "archive/a.html")
    (start (projectA [] (linking "notes/a.html") note) "/proj")
  = Return tt
      {| tree := projectA_moved [] (linking "notes/a.html") note;
         cwd := "/proj";
         stdout := [];
         calls := [CallRename "/proj/notes/a.html" "/proj/archive/a.html" None] |}
  /\ hrefs (linking "notes/a.html") = [Some "notes/a.html"]
  /\ hrefs (linking "notes/a.html") <> [Some "archive/a.html"].
Proof.
  split; [vm_compute; reflexivity|].
  split; [reflexivity | discriminate].
Qed.

(** C1, as the program has it.  The project-relative form of a path
    under the root is what follows the root, with the separator that
    follows it.  In scenario A with the anchor's [href] written
    [/notes/a.html] and [/proj/archive] an existing directory, the move
    leaves no [/proj/notes/a.html], leaves [/proj/archive/a.html] with the
    content of the note, and the anchor reads [/archive/a.html]. *)
Theorem scenario_A_rooted_href_rewritten :
  (forall zkRootDirectory rest,
      zkRelative zkRootDirectory (zkRootDirectory ++ rest) = Some rest)
  /\ zkRelative "/proj" "/proj/notes/a.html" = Some "/notes/a.html"
  /\ (let s' :=
        final (mv Parse Render (mv_args "notes/a.html" "archive/a.html")
                 (start (projectA [] (linking "/notes/a.html") note) "/proj")) in
      tree s' = projectA_moved [] (linking "/archive/a.html") note
      /\ lookup (tree s') ["proj"; "notes"; "a.html"] = None
      /\ lookup (tree s') ["proj"; "archive"; "a.html"] = Some (File rw note)
      /\ hrefs_at Parse s' ["proj"; "index.html"] = Some [Some "/archive/a.html"]
      /\ stdout s' = [])
  /\ mv Parse Render (mv_args "notes/a.html" "archive/a.html")
       (start (projectA [] (linking "/notes/a.html") note) "/proj")
     = Return tt
         {| tree := projectA_moved [] (linking "/archive/a.html") note;
            cwd := "/proj";
            stdout := [];
            calls :=
              [CallWriteFile "/proj/index.html" (Some ["proj"; "index.html"]) None;
               CallRename "/proj/notes/a.html" "/proj/archive/a.html" None] |}.
Proof.
  assert (run :
    mv Parse Render (mv_args "notes/a.html" "archive/a.html")
      (start (projectA [] (linking "/notes/a.html") note) "/proj")
    = Return tt
        {| tree := projectA_moved [] (linking "/archive/a.html") note;
           cwd := "/proj";
           stdout := [];
           calls :=
             [CallWriteFile "/proj/index.html" (Some ["proj"; "index.html"]) None;
              CallRename "/proj/notes/a.html" "/proj/archive/a.html" None] |})
    by (vm_compute; reflexivity).
  split; [apply zkRelative_append|].
  split; [reflexivity|].
  split; [|exact run].
  rewrite run. simpl final. repeat split.
Qed.

(** C2, where the program goes wrong: the marker is in the directory [/]
    and nowhere else.  From [/] itself it is found; from [/a/b] the search
    goes from [/a/b] to [/a] and on to the empty path, never to [/], and
    fails. *)
Theorem ZkRoot_misses_marker_at_root :
  err_of (Stat (start marker_at_root "/a/b") "/.zk-root") = None
  /\ ZkRoot (start marker_at_root "/a/b") "/" = ("/", None)
  /\ Strings.take (Z.to_nat (Strings.LastIndex "/a" Filepath.Separator)) "/a" = ""
  /\ ZkRoot (start marker_at_root "/a/b") "/a/b"
     = ("", Some (ErrorString ".zk-root cannot be found"))
  /\ ZkRoot (start marker_at_root "/a/b") "/a"
     = ("", Some (ErrorString ".zk-root cannot be found")).
Proof. repeat split; vm_compute; reflexivity. Qed.

(** C3, as stated, fails: with the anchors written [notes/a] and
    [notes/a.html] nothing is rewritten; with them written [/notes/a] and
    [/notes/a.html] both get [/archive/a.html], not [/archive/a] for the
    one without the extension. *)
Lemma scenario_C_forms_not_rewritten_apart :
  (let s' :=
     final (mv Parse Render (mv_args "notes/a.html" "archive/a.html")
              (start (projectC [] (linking "notes/a") (linking "notes/a.html") note)
                 "/proj")) in
   hrefs_at Parse s' ["proj"; "index.html"] = Some [Some "notes/a"]
   /\ hrefs_at Parse s' ["proj"; "other.html"] = Some [Some "notes/a.html"])
  /\ (let s' :=
        final (mv Parse Render (mv_args "notes/a.html" "archive/a.html")
                 (start (projectC [] (linking "/notes/a") (linking "/notes/a.html") note)
                    "/proj")) in
      hrefs_at Parse s' ["proj"; "index.html"] = Some [Some "/archive/a.html"]
      /\ hrefs_at Parse s' ["proj"; "index.html"] <> Some [Some "/archive/a"]
      /\ hrefs_at Parse s' ["proj"; "other.html"] = Some [Some "/archive/a.html"]).
Proof.
  split; [split; vm_compute; reflexivity|].
  split; [vm_compute; reflexivity|].
  split; [vm_compute; discriminate | vm_compute; reflexivity].
Qed.

(** C3, as the program has it.  Every anchor that refers to the moved
    path, by whichever of its link forms, gets the one destination string;
    the other anchors keep their attributes.  In scenario C with the
    anchors written [/notes/a] and [/notes/a.html], both read
    [/archive/a.html] after the move. *)
Theorem every_form_gets_one_destination (from to : string)
  (doc : Html.Document) :
  fst (Html.FindEach_a (updateAnchor from to) doc false)
  = map_a (retarget from to) doc
  /\ (forall attr h,
         href attr = Some h -> In h (LinkFormSet from) ->
         href (retarget from to attr) = Some to)
  /\ (forall attr,
         (forall h, href attr = Some h -> ~ In h (LinkFormSet from)) ->
         retarget from to attr = attr)
  /\ mv Parse Render (mv_args "notes/a.html" "archive/a.html")
       (start (projectC [] (linking "/notes/a") (linking "/notes/a.html") note)
          "/proj")
     = Return tt
         {| tree := projectC_moved [] (linking "/archive/a.html")
                      (linking "/archive/a.html") note;
            cwd := "/proj";
            stdout := [];
            calls :=
              [CallWriteFile "/proj/index.html" (Some ["proj"; "index.html"]) None;
               CallWriteFile "/proj/other.html" (Some ["proj"; "other.html"]) None;
               CallRename "/proj/notes/a.html" "/proj/archive/a.html" None] |}.
Proof.
  split; [rewrite FindEach_a_spec; reflexivity|].
  split; [|split; [|vm_compute; reflexivity]].
  - intros attr h Hh Hform. unfold retarget.
    assert (R : isReference from attr = true)
      by (apply isReference_LinkFormSet; eauto).
    rewrite R. clear R Hform. unfold href in *.
    induction attr as [|a rest IH]; simpl in *; [discriminate|].
    destruct (String.eqb (Html.Key a) "href") eqn:E; simpl.
    + rewrite E. reflexivity.
    + rewrite E. apply IH. exact Hh.
  - intros attr Hno. unfold retarget.
    destruct (isReference from attr) eqn:R; [|reflexivity].
    apply isReference_LinkFormSet in R as (h & Hh & Hform).
    exfalso; eapply Hno; eassumption.
Qed.


(** C5, as stated, fails: the first document of the walk cannot be opened,
    the walk ends there with the error, and the anchor of
    [/proj/index.html], which comes later, keeps the old path although
    the note is moved.  With the first document readable the anchor is
    rewritten. *)
Lemma locked_document_stops_the_walk :
  WalkDir "/proj" (walkFn Parse Render "/notes/x.html" "/archive/x.html")
    (start (project_locked unreadable) "/proj")
  = Return (Some (SyscallError EACCES)) (start (project_locked unreadable) "/proj")
  /\ (let s' :=
        final (mv Parse Render (mv_args "notes/x.html" "archive/x.html")
                 (start (project_locked unreadable) "/proj")) in
      hrefs_at Parse s' ["proj"; "index.html"] = Some [Some "/notes/x.html"]
      /\ lookup (tree s') ["proj"; "notes"; "x.html"] = None
      /\ lookup (tree s') ["proj"; "archive"; "x.html"] = Some (File rw note)
      /\ calls s'
         = [CallRename "/proj/notes/x.html" "/proj/archive/x.html" None])
  /\ (let s' :=
        final (mv Parse Render (mv_args "notes/x.html" "archive/x.html")
                 (start (project_locked rw) "/proj")) in
      hrefs_at Parse s' ["proj"; "index.html"] = Some [Some "/archive/x.html"]).
Proof. repeat split; vm_compute; reflexivity. Qed.

(** C6, as stated, fails: [/other/x.html] is not under the root [/proj],
    and its relative path is computed all the same, as [r/x.html]; the
    move goes through, and an anchor that happens to read [r/x.html] is
    rewritten.  A path shorter than the root ends the program in a panic,
    not in a reported error. *)
Lemma path_outside_root_is_not_refused :
  zkRelative "/proj" "/other/x.html" = Some "r/x.html"
  /\ mv Parse Render (mv_args "../other/x.html" "x.html")
       (start project_and_other "/proj")
     = Return tt
         {| tree :=
              Dir true
                [("other", Dir true []);
                 ("proj", Dir true
                    [(".zk-root", File rw []);
                     ("index.html", File rw (linking "/x.html"));
                     ("x.html", File rw note)])];
            cwd := "/proj";
            stdout := [];
            calls :=
              [CallWriteFile "/proj/index.html" (Some ["proj"; "index.html"]) None;
               CallRename "/other/x.html" "/proj/x.html" None] |}
  /\ mv Parse Render (mv_args ".." "x.html") (start project_and_other "/proj")
     = Panic (start project_and_other "/proj").
Proof. repeat split; vm_compute; reflexivity. Qed.

(** C7, as stated, fails: the note [/notes/a.html] becomes the index of
    the directory [/notes/a]; the anchor [/notes/a] refers to the note
    without its extension, and the destination is written [/notes/a] too.
    Setting the [href] changes nothing, yet the document is dirty and is
    written back. *)
Lemma unchanged_href_marks_dirty :
  FindEach_a (updateAnchor "/notes/a.html" "/notes/a") (linking "/notes/a") false
  = (linking "/notes/a", true)
  /\ mv Parse Render (mv_args "notes/a.html" "notes/a/index.html")
       (start project_pretty "/proj")
     = Return tt
         {| tree := project_pretty_moved;
            cwd := "/proj";
            stdout := [];
            calls :=
              [CallWriteFile "/proj/index.html" (Some ["proj"; "index.html"]) None;
               CallRename "/proj/notes/a.html" "/proj/notes/a/index.html" None] |}.
Proof. split; vm_compute; reflexivity. Qed.

(** C8 at a concrete input: in scenario A with an index that refers to
    another page, the index is left alone. *)
Lemma unreferencing_document_untouched_witness :
  lookup (tree (start (projectA [] (linking "/elsewhere.html") note) "/proj"))
    ["proj"; "index.html"]
  = Some (File rw (linking "/elsewhere.html"))
  /\ (let s' :=
        final (WalkDir "/proj"
                 (walkFn Parse Render "/notes/a.html" "/archive/a.html")
                 (start (projectA [] (linking "/elsewhere.html") note) "/proj")) in
      lookup (tree s') ["proj"; "index.html"]
      = Some (File rw (linking "/elsewhere.html"))
      /\ writes_to ["proj"; "index.html"] (calls s') = []
      /\ FindEach_a (updateAnchor "/notes/a.html" "/archive/a.html")
           (Parse (linking "/elsewhere.html")) false
         = (Parse (linking "/elsewhere.html"), false)).
Proof.
  split; [reflexivity|].
  apply (@unreferencing_document_untouched Document Parse Render
           "/notes/a.html" "/archive/a.html" "/proj"
           (start (projectA [] (linking "/elsewhere.html") note) "/proj")
           ["proj"; "index.html"] rw (linking "/elsewhere.html")).
  - reflexivity.
  - intros attr h Hin Hh Hform. simpl in Hin.
    destruct Hin as [<-|[]]. injection Hh as <-.
    simpl in Hform. intuition discriminate.
Defined.

(** C9, as stated, fails: the note [/notes/a.html] becomes the index of
    the directory [/notes/a], and the destination string [/notes/a] is
    itself the form without extension of the source.  After the move a
    second pass with the forms of the source finds the anchor again,
    marks the document dirty and writes it back. *)
Lemma second_pass_dirty_again :
  hrefMatches "/notes/a.html" "/notes/a" = true
  /\ final (mv Parse Render (mv_args "notes/a.html" "notes/a/index.html")
              (start project_pretty "/proj"))
     = {| tree := project_pretty_moved;
          cwd := "/proj";
          stdout := [];
          calls :=
            [CallWriteFile "/proj/index.html" (Some ["proj"; "index.html"]) None;
             CallRename "/proj/notes/a.html" "/proj/notes/a/index.html" None] |}
  /\ snd (FindEach_a (updateAnchor "/notes/a.html" "/notes/a")
            (linking "/notes/a") false) = true
  /\ calls (final (WalkDir "/proj" (walkFn Parse Render "/notes/a.html" "/notes/a")
                     (final (mv Parse Render
                               (mv_args "notes/a.html" "notes/a/index.html")
                               (start project_pretty "/proj")))))
     = [CallWriteFile "/proj/index.html" (Some ["proj"; "index.html"]) None;
        CallRename "/proj/notes/a.html" "/proj/notes/a/index.html" None;
        CallWriteFile "/proj/index.html" (Some ["proj"; "index.html"]) None].
Proof. repeat split; vm_compute; reflexivity. Qed.

(** The second pass before the rename, in scenario A with the anchor
    [/notes/a.html]. *)
Lemma second_pass_changes_nothing_witness :
  hrefMatches "/notes/a.html" "/archive/a.html" = false
  /\ (forall doc data, Render doc = inr data -> Parse data = doc)
  /\ WalkDir "/proj" (walkFn Parse Render "/notes/a.html" "/archive/a.html")
       (start (projectA [] (linking "/notes/a.html") note) "/proj")
     = Return None
         {| tree := projectA [] (linking "/archive/a.html") note;
            cwd := "/proj";
            stdout := [];
            calls :=
              [CallWriteFile "/proj/index.html" (Some ["proj"; "index.html"]) None] |}
  /\ WalkDir "/proj" (walkFn Parse Render "/notes/a.html" "/archive/a.html")
       {| tree := projectA [] (linking "/archive/a.html") note;
          cwd := "/proj";
          stdout := [];
          calls :=
            [CallWriteFile "/proj/index.html" (Some ["proj"; "index.html"]) None] |}
     = Return None
         {| tree := projectA [] (linking "/archive/a.html") note;
            cwd := "/proj";
            stdout := [];
            calls :=
              [CallWriteFile "/proj/index.html" (Some ["proj"; "index.html"]) None] |}.
Proof.
  assert (H1 : hrefMatches "/notes/a.html" "/archive/a.html" = false)
    by reflexivity.
  assert (H2 : forall doc data, Render doc = inr data -> Parse data = doc)
    by (intros doc data H; injection H as <-; reflexivity).
  assert (H3 :
    WalkDir "/proj" (walkFn Parse Render "/notes/a.html" "/archive/a.html")
      (start (projectA [] (linking "/notes/a.html") note) "/proj")
    = Return None
        {| tree := projectA [] (linking "/archive/a.html") note;
           cwd := "/proj";
           stdout := [];
           calls :=
             [CallWriteFile "/proj/index.html" (Some ["proj"; "index.html"]) None] |})
    by (vm_compute; reflexivity).
  split; [exact H1|]. split; [exact H2|]. split; [exact H3|].
  apply (@second_pass_changes_nothing Document Parse Render
           "/notes/a.html" "/archive/a.html" H1 H2 "/proj" _ _ H3).
  reflexivity.
Defined.

(** C9 after the move, at a concrete input: scenario A with the anchor
    [/notes/a.html]. *)
Lemma second_pass_after_move_witness :
  mv Parse Render (mv_args "notes/a.html" "archive/a.html")
    (start (projectA [] (linking "/notes/a.html") note) "/proj")
  = Return tt
      {| tree := projectA_moved [] (linking "/archive/a.html") note;
         cwd := "/proj";
         stdout := [];
         calls :=
           [CallWriteFile "/proj/index.html" (Some ["proj"; "index.html"]) None;
            CallRename "/proj/notes/a.html" "/proj/archive/a.html" None] |}
  /\ hrefMatches "/notes/a.html"
       (Strings.TrimSuffix "/archive/a.html" "/index.html") = false
  /\ final (WalkDir "/proj"
              (walkFn Parse Render "/notes/a.html"
                 (Strings.TrimSuffix "/archive/a.html" "/index.html"))
              {| tree := projectA_moved [] (linking "/archive/a.html") note;
                 cwd := "/proj";
                 stdout := [];
                 calls :=
                   [CallWriteFile "/proj/index.html"
                      (Some ["proj"; "index.html"]) None;
                    CallRename "/proj/notes/a.html" "/proj/archive/a.html"
                      None] |})
     = {| tree := projectA_moved [] (linking "/archive/a.html") note;
          cwd := "/proj";
          stdout := [];
          calls :=
            [CallWriteFile "/proj/index.html" (Some ["proj"; "index.html"]) None;
             CallRename "/proj/notes/a.html" "/proj/archive/a.html" None] |}.
Proof.
  assert (Hmv :
    mv Parse Render (mv_args "notes/a.html" "archive/a.html")
      (start (projectA [] (linking "/notes/a.html") note) "/proj")
    = Return tt
        {| tree := projectA_moved [] (linking "/archive/a.html") note;
           cwd := "/proj";
           stdout := [];
           calls :=
             [CallWriteFile "/proj/index.html" (Some ["proj"; "index.html"]) None;
              CallRename "/proj/notes/a.html" "/proj/archive/a.html" None] |})
    by (vm_compute; reflexivity).
  split; [exact Hmv|]. split; [reflexivity|].
  apply (@second_pass_after_move Document Parse Render
           (mv_args "notes/a.html" "archive/a.html")
           (start (projectA [] (linking "/notes/a.html") note) "/proj")
           {| tree := projectA [] (linking "/archive/a.html") note;
              cwd := "/proj";
              stdout := [];
              calls :=
                [CallWriteFile "/proj/index.html"
                   (Some ["proj"; "index.html"]) None] |}
           _ "/proj" "/notes/a.html" "/archive/a.html"
           ["proj"] ["proj"; "notes"] ["proj"; "archive"] "a.html" "a.html").
  - simpl; lia.
  - vm_compute; reflexivity.
  - reflexivity.
  - reflexivity.
  - reflexivity.
  - intros doc data H; injection H as <-; reflexivity.
  - reflexivity.
  - reflexivity.
  - repeat constructor.
  - intros n H. vm_compute in H. injection H as <-. reflexivity.
  - vm_compute; reflexivity.
  - reflexivity.
  - exact Hmv.
  - vm_compute; reflexivity.
  - reflexivity.
  - vm_compute; reflexivity.
  - intros mode data _. left; reflexivity.
Defined.

End Scenarios.

(* ================================================================= *)
(** * The last separator of a path *)

Section LastSeparator.
Variable sep : ascii.

Lemma lacks_append (a b : string) :
  lacks sep (a ++ b) = lacks sep a && lacks sep b.
Proof.
  induction a as [|c a IH]; simpl; [reflexivity|].
  rewrite IH, andb_assoc; reflexivity.
Qed.

Lemma string_app_assoc (a b c : string) : (a ++ b) ++ c = a ++ b ++ c.
Proof. induction a as [|x a IH]; simpl; [|rewrite IH]; reflexivity. Qed.

Lemma string_app_nil_r (a : string) : a ++ "" = a.
Proof. induction a as [|x a IH]; simpl; [|rewrite IH]; reflexivity. Qed.

Lemma string_app_inv_head (x y z : string) : x ++ y = x ++ z -> y = z.
Proof.
  induction x as [|c x IH]; simpl; intros H; [exact H|].
  injection H as H. apply IH; exact H.
Qed.

Lemma lacks_cut (a b : string) : lacks sep (a ++ String sep b) = false.
Proof.
  rewrite lacks_append. simpl. rewrite Ascii.eqb_refl. simpl.
  apply andb_false_r.
Qed.

Lemma take_append (a b : string) : Strings.take (String.length a) (a ++ b) = a.
Proof.
  induction a as [|c a IH]; simpl; [destruct b; reflexivity|].
  rewrite IH; reflexivity.
Qed.

Lemma last_index_from_split (p : string) : forall k acc,
  (lacks sep p = true /\ Strings.last_index_from k acc sep p = acc)
  \/ exists a b,
       p = a ++ String sep b /\ lacks sep b = true
       /\ Strings.last_index_from k acc sep p
          = (k + Z.of_nat (String.length a))%Z.
Proof.
  induction p as [|c p IH]; intros k acc; simpl; [left; auto|].
  destruct (IH (k + 1)%Z (if Ascii.eqb c sep then k else acc))
    as [[Hl Hi]|(a & b & -> & Hb & Hi)].
  - destruct (Ascii.eqb_spec c sep) as [->|Hc]; simpl.
    + right. exists "", p. simpl. repeat split; [exact Hl | lia].
    + left. split; [exact Hl | exact Hi].
  - right. exists (String c a), b. simpl. repeat split; [exact Hb|].
    rewrite Hi. lia.
Qed.

Lemma LastIndex_none (p : string) :
  Strings.LastIndex p sep = (-1)%Z -> lacks sep p = true.
Proof.
  unfold Strings.LastIndex.
  destruct (last_index_from_split p 0 (-1)) as [[Hl _]|(a & b & _ & _ & ->)];
    [auto | lia].
Qed.

Lemma LastIndex_some (p : string) :
  Strings.LastIndex p sep <> (-1)%Z ->
  exists a b,
    p = a ++ String sep b /\ lacks sep b = true
    /\ Strings.take (Z.to_nat (Strings.LastIndex p sep)) p = a.
Proof.
  unfold Strings.LastIndex.
  destruct (last_index_from_split p 0 (-1)) as [[_ ->]|(a & b & -> & Hb & ->)];
    [congruence|].
  intros _. exists a, b. repeat split; [exact Hb|].
  replace (Z.to_nat (0 + Z.of_nat (String.length a))) with (String.length a)
    by lia.
  apply take_append.
Qed.

(** Where two cuts of one string stand to each other, the right-hand one
    being the last. *)
Lemma cuts_compare (q a rest b : string) :
  q ++ String sep rest = a ++ String sep b -> lacks sep b = true ->
  (q = a /\ rest = b) \/ exists mid, a = q ++ String sep mid.
Proof.
  revert a; induction q as [|c q IH]; intros [|c' a] H Hb; simpl in H.
  - injection H as ->. left; auto.
  - injection H as <- ->. right. exists a. reflexivity.
  - injection H as -> <-. rewrite lacks_cut in Hb. discriminate.
  - injection H as <- H. destruct (IH a H Hb) as [[-> ->]|[mid ->]].
    + left; auto.
    + right. exists mid. reflexivity.
Qed.

Lemma LastIndex_append (a b : string) :
  lacks sep b = true ->
  Strings.LastIndex (a ++ String sep b) sep = Z.of_nat (String.length a).
Proof.
  intros Hb. unfold Strings.LastIndex.
  destruct (last_index_from_split (a ++ String sep b) 0 (-1))
    as [[Hl _]|(a' & b' & E & Hb' & ->)].
  - rewrite lacks_cut in Hl. discriminate.
  - destruct (@cuts_compare _ _ _ _ E Hb') as [[-> _]|[mid ->]]; [lia|].
    exfalso. rewrite string_app_assoc in E. apply string_app_inv_head in E.
    simpl in E. injection E as E. subst b.
    rewrite lacks_cut in Hb. discriminate.
Qed.

End LastSeparator.

(* ================================================================= *)
(** * The search for the root *)

Section RootSearch.
Variable bytes : Type.
Implicit Types (s : OS bytes) (p q r : string).

(** [ZkRoot], one call at a time. *)
Lemma ZkRoot_once s p :
  ZkRoot s p
  = if marker_missing s p then
      if IsRootDir p then not_found
      else if Z.eqb (Strings.LastIndex p Filepath.Separator) (-1) then not_found
           else ZkRoot s
                  (Strings.take
                     (Z.to_nat (Strings.LastIndex p Filepath.Separator)) p)
    else (p, None).
Proof.
  unfold marker_missing.
  funelim (ZkRoot s p).
  - rewrite Heq; reflexivity.
  - rewrite Heq0, Heq; reflexivity.
  - rewrite Heq0, Heq, e0; reflexivity.
  - rewrite Heq0, Heq, e0; reflexivity.
Qed.

Lemma cut_refl p : cut_at_separator p p.
Proof. exists "". split; [symmetry; apply string_app_nil_r | left; reflexivity]. Qed.

Lemma cut_trans q a b :
  cut_at_separator q a ->
  cut_at_separator q (a ++ String Filepath.Separator b).
Proof.
  intros (rest & -> & Hrest).
  exists (rest ++ String Filepath.Separator b). split.
  - apply string_app_assoc.
  - right. destruct Hrest as [->|[rest' ->]]; simpl; eauto.
Qed.

Lemma cut_length q p : cut_at_separator q p -> String.length q <= String.length p.
Proof. intros (rest & -> & _). rewrite length_append. lia. Qed.

(** A cut of [a/b], where [b] has no separator, is [a/b] or a cut of [a]. *)
Lemma cut_inv q a b :
  lacks Filepath.Separator b = true ->
  cut_at_separator q (a ++ String Filepath.Separator b) ->
  q = a ++ String Filepath.Separator b \/ cut_at_separator q a.
Proof.
  intros Hb (rest & E & [->|[rest' ->]]).
  - left. rewrite string_app_nil_r in E. auto.
  - right. symmetry in E.
    destruct (@cuts_compare _ _ _ _ _ E Hb) as [[-> _]|[mid ->]].
    + apply cut_refl.
    + exists (String Filepath.Separator mid). split; eauto.
Qed.

Lemma cut_lacks q p :
  lacks Filepath.Separator p = true -> cut_at_separator q p -> q = p.
Proof.
  intros Hp (rest & -> & [->|[rest' ->]]).
  - symmetry; apply string_app_nil_r.
  - rewrite lacks_cut in Hp. discriminate.
Qed.

(** What a search that succeeds has found. *)
Lemma ZkRoot_found s p r :
  ZkRoot s p = (r, None) ->
  cut_at_separator r p /\ marker_missing s r = false.
Proof.
  remember (String.length p) as n eqn:Hn.
  revert p Hn. induction n as [n IH] using lt_wf_ind. intros p Hn.
  rewrite ZkRoot_once.
  destruct (marker_missing s p) eqn:Hm.
  - destruct (IsRootDir p); [discriminate|].
    destruct (Z.eqb_spec (Strings.LastIndex p Filepath.Separator) (-1)) as [|Hi];
      [discriminate|].
    destruct (@LastIndex_some _ _ Hi) as (a & b & -> & Hb & ->).
    intros H. apply (IH (String.length a)) in H; [|subst n|reflexivity].
    + destruct H as [Hc Hr]. split; [apply cut_trans; exact Hc | exact Hr].
    + rewrite length_append. simpl. lia.
  - intros H. injection H as <-. split; [apply cut_refl | exact Hm].
Qed.

(** The one way in which the search fails. *)
Lemma ZkRoot_failed s p r e :
  ZkRoot s p = (r, Some e) -> (r, Some e) = not_found.
Proof.
  remember (String.length p) as n eqn:Hn.
  revert p Hn. induction n as [n IH] using lt_wf_ind. intros p Hn.
  rewrite ZkRoot_once.
  destruct (marker_missing s p) eqn:Hm; [|discriminate].
  destruct (IsRootDir p); [congruence|].
  destruct (Z.eqb_spec (Strings.LastIndex p Filepath.Separator) (-1)) as [|Hi];
    [congruence|].
  destruct (@LastIndex_some _ _ Hi) as (a & b & -> & Hb & ->).
  apply (IH (String.length a)); [subst n|reflexivity].
  rewrite length_append. simpl. lia.
Qed.

(** X1.  What [ZkRoot] answers: either a path and no error, and then the
    path is the one it was given or what stands in it before one of its
    separators, and [os.Stat] did not report its marker as missing; or
    the empty path and the error [.zk-root cannot be found]. *)
Theorem ZkRoot_answers s p :
  match ZkRoot s p with
  | (r, None) => cut_at_separator r p /\ marker_missing s r = false
  | (r, Some e) => r = "" /\ e = ErrorString ".zk-root cannot be found"
  end.
Proof.
  destruct (ZkRoot s p) as [r [e|]] eqn:E.
  - apply ZkRoot_failed in E. injection E as -> ->. auto.
  - apply ZkRoot_found in E. exact E.
Qed.

(** X2.  The root that [ZkRoot] finds is the nearest: of every longer
    path that is the given one or stands in it before a separator,
    [os.Stat] has reported the marker as missing. *)
Theorem ZkRoot_nearest s p r q :
  ZkRoot s p = (r, None) ->
  cut_at_separator q p ->
  String.length r < String.length q ->
  marker_missing s q = true.
Proof.
  remember (String.length p) as n eqn:Hn.
  revert p Hn. induction n as [n IH] using lt_wf_ind. intros p Hn.
  rewrite ZkRoot_once.
  destruct (marker_missing s p) eqn:Hm.
  - destruct (IsRootDir p); [discriminate|].
    destruct (Z.eqb_spec (Strings.LastIndex p Filepath.Separator) (-1)) as [|Hi];
      [discriminate|].
    destruct (@LastIndex_some _ _ Hi) as (a & b & -> & Hb & ->).
    intros H Hq Hlen.
    destruct (@cut_inv _ _ _ Hb Hq) as [->|Hq']; [exact Hm|].
    apply (IH (String.length a)) with (p := a); auto.
    subst n. rewrite length_append. simpl. lia.
  - intros H Hq Hlen. injection H as <-. apply cut_length in Hq. lia.
Qed.

(** X3.  [ZkRoot] fails only when no marker is seen on the way: of the
    given path and of every non-empty path that stands in it before a
    separator, [os.Stat] has reported the marker as missing. *)
Theorem ZkRoot_fails_only_without_marker s p r e q :
  ZkRoot s p = (r, Some e) ->
  cut_at_separator q p -> q <> "" ->
  marker_missing s q = true.
Proof.
  remember (String.length p) as n eqn:Hn.
  revert p Hn. induction n as [n IH] using lt_wf_ind. intros p Hn.
  rewrite ZkRoot_once.
  destruct (marker_missing s p) eqn:Hm; [|discriminate].
  destruct (IsRootDir p) eqn:Hroot.
  - intros _ Hq Hne. unfold IsRootDir in Hroot. simpl in Hroot.
    apply String.eqb_eq in Hroot. subst p.
    destruct Hq as (rest & E & _).
    destruct q as [|c q]; [congruence|].
    simpl in E. injection E as <- E.
    destruct q; [exact Hm | discriminate].
  - destruct (Z.eqb_spec (Strings.LastIndex p Filepath.Separator) (-1)) as [Hi|Hi].
    + intros _ Hq _. apply LastIndex_none in Hi.
      rewrite (@cut_lacks _ _ Hi Hq). exact Hm.
    + destruct (@LastIndex_some _ _ Hi) as (a & b & -> & Hb & ->).
      intros H Hq Hne.
      destruct (@cut_inv _ _ _ Hb Hq) as [->|Hq']; [exact Hm|].
      apply (IH (String.length a)) with (p := a); auto.
      subst n. rewrite length_append. simpl. lia.
Qed.

(** X4.  The root of a root is that root: a path that [ZkRoot] has
    answered is answered again when asked about. *)
Theorem ZkRoot_idempotent s p r :
  ZkRoot s p = (r, None) -> ZkRoot s r = (r, None).
Proof.
  intros H. apply ZkRoot_found in H as [_ Hm].
  rewrite ZkRoot_once, Hm. reflexivity.
Qed.

End RootSearch.

(* ================================================================= *)
(** * The search for the root, in the tree *)

Section RootInTree.
Local Open Scope list_scope.
Variable bytes : Type.
Implicit Types (s : OS bytes) (t : Node bytes) (l above below : loc).

Lemma Join_snoc (elems : list string) (x sep : string) :
  elems <> [] ->
  Strings.Join (elems ++ [x]) sep = (Strings.Join elems sep ++ sep ++ x)%string.
Proof.
  induction elems as [|e rest IH]; intros Hne; [congruence|].
  destruct rest as [|e' rest]; [reflexivity|].
  change (Strings.Join ((e :: e' :: rest) ++ [x]) sep)
    with (e ++ sep ++ Strings.Join ((e' :: rest) ++ [x]) sep)%string.
  rewrite IH by discriminate.
  change (Strings.Join (e :: e' :: rest) sep)
    with (e ++ sep ++ Strings.Join (e' :: rest) sep)%string.
  rewrite !string_app_assoc. reflexivity.
Qed.

Lemma path_to_snoc l x : path_to (l ++ [x]) = (path_to l ++ "/" ++ x)%string.
Proof. unfold path_to. apply (@Join_snoc ("" :: l) x "/"). discriminate. Qed.

Lemma path_to_cons x l : path_to (x :: l) = ("/" ++ Strings.Join (x :: l) "/")%string.
Proof. reflexivity. Qed.

Lemma regular_lacks x : regular x = true -> lacks Filepath.Separator x = true.
Proof. unfold regular. intros H. apply andb_true_iff in H. tauto. Qed.

Lemma regular_not_special x : regular x = true -> is_special x = false.
Proof.
  unfold regular. intros H. apply andb_true_iff in H.
  destruct H as [H _]. apply negb_true_iff in H. exact H.
Qed.

Lemma Forall_regular_lacks l :
  Forall (fun x => regular x = true) l ->
  Forall (fun x => lacks Filepath.Separator x = true) l.
Proof. apply Forall_impl. intros x. apply regular_lacks. Qed.

Lemma Split_path_to l :
  Forall (fun x => regular x = true) l ->
  Strings.Split Filepath.Separator (path_to l) = "" :: l.
Proof.
  intros H. unfold path_to.
  apply (@Split_Join Filepath.Separator ("" :: l)); [discriminate|].
  constructor; [reflexivity | apply Forall_regular_lacks; exact H].
Qed.

Lemma clean_step_regular r out x :
  regular x = true -> Filepath.clean_step r out x = x :: out.
Proof.
  intros H. apply regular_not_special in H. unfold is_special in H.
  apply orb_false_iff in H as [H H2]. apply orb_false_iff in H as [H0 H1].
  unfold Filepath.clean_step. rewrite H0, H1, H2. reflexivity.
Qed.

Lemma clean_fold_regular r l : forall out,
  Forall (fun x => regular x = true) l ->
  fold_left (Filepath.clean_step r) l out = rev l ++ out.
Proof.
  induction l as [|x l IH]; intros out H; [reflexivity|].
  inversion H as [|? ? Hx Hl]; subst.
  simpl. rewrite clean_step_regular by exact Hx. rewrite IH by exact Hl.
  rewrite <- app_assoc. reflexivity.
Qed.

(** A path made of the names of directory entries is clean. *)
Lemma Clean_path_to l :
  l <> [] -> Forall (fun x => regular x = true) l ->
  Filepath.Clean (path_to l) = path_to l.
Proof.
  intros Hne H.
  assert (N : String.eqb (path_to l) "" = false)
    by (destruct l; [congruence | reflexivity]).
  assert (A : Filepath.rooted (path_to l) = true)
    by (destruct l; [congruence | reflexivity]).
  unfold Filepath.Clean. rewrite N, A, Split_path_to by exact H.
  change (fold_left (Filepath.clean_step true) ("" :: l) [])
    with (fold_left (Filepath.clean_step true) l []).
  rewrite clean_fold_regular by exact H.
  rewrite app_nil_r, rev_involutive.
  destruct l; [congruence | reflexivity].
Qed.

Lemma Join_path_to l x :
  l <> [] -> Forall (fun y => regular y = true) l -> regular x = true ->
  Filepath.Join [path_to l; x] = path_to (l ++ [x]).
Proof.
  intros Hne Hl Hx. unfold Filepath.Join.
  assert (N1 : String.eqb (path_to l) "" = false).
  { destruct l; [congruence | reflexivity]. }
  assert (N2 : String.eqb x "" = false).
  { apply regular_not_special in Hx. unfold is_special in Hx.
    apply orb_false_iff in Hx as [Hx _]. apply orb_false_iff in Hx as [Hx _].
    exact Hx. }
  simpl filter. rewrite N1, N2. simpl negb. cbv iota.
  change (Strings.Join [path_to l; x] "/") with (path_to l ++ "/" ++ x)%string.
  rewrite <- path_to_snoc. apply Clean_path_to.
  - destruct l; discriminate.
  - apply Forall_app. split; [exact Hl | constructor; [exact Hx | constructor]].
Qed.

(** Resolution follows names that are there. *)
Lemma namei_lookup t names : forall cur n,
  Forall (fun x => regular x = true) names ->
  lookup t (cur ++ names) = Some n ->
  namei t cur names = inr (cur ++ names).
Proof.
  induction names as [|x names IH]; intros cur n Hreg Hl.
  - rewrite app_nil_r. reflexivity.
  - inversion Hreg as [|? ? Hx Hnames]; subst.
    rewrite lookup_app in Hl.
    destruct (lookup t cur) as [[m d|m es]|] eqn:Hcur; try discriminate.
    simpl in Hl. destruct (assoc x es) as [c|] eqn:Hc; [|discriminate].
    simpl. rewrite Hcur.
    pose proof (regular_not_special _ Hx) as Hs. unfold is_special in Hs.
    apply orb_false_iff in Hs as [Hs H2]. rewrite Hs, H2, Hc.
    replace (cur ++ x :: names) with ((cur ++ [x]) ++ names)
      by (rewrite <- app_assoc; reflexivity).
    apply IH with (n := n); [exact Hnames|].
    rewrite <- app_assoc. simpl.
    rewrite lookup_app, Hcur. simpl. rewrite Hc. exact Hl.
Qed.

Lemma resolve_path_to_namei s l :
  l <> [] -> Forall (fun x => regular x = true) l ->
  resolve s (path_to l) = namei (tree s) [] ("" :: l).
Proof.
  intros Hne Hreg. unfold resolve, components.
  assert (N : String.eqb (path_to l) "" = false)
    by (destruct l; [congruence | reflexivity]).
  assert (A : Filepath.IsAbs (path_to l) = true)
    by (destruct l; [congruence | reflexivity]).
  rewrite N, A, Split_path_to by exact Hreg. reflexivity.
Qed.

Lemma lookup_below_root t l n :
  l <> [] -> lookup t l = Some n -> exists m es, lookup t [] = Some (Dir m es).
Proof.
  intros Hne Hl. destruct l as [|x l]; [congruence|].
  destruct t as [m d|m es]; [discriminate | simpl; eauto].
Qed.

Lemma resolve_path_to s l n :
  l <> [] -> Forall (fun x => regular x = true) l ->
  lookup (tree s) l = Some n ->
  resolve s (path_to l) = inr l.
Proof.
  intros Hne Hreg Hl. rewrite resolve_path_to_namei by assumption.
  destruct (@lookup_below_root _ _ _ Hne Hl) as (m & es & Ht).
  rewrite (@namei_skip_dir bytes (tree s) [] "" l m es);
    [|reflexivity | exact Ht].
  apply (@namei_lookup (tree s) l [] n Hreg Hl).
Qed.

Lemma marker_regular : regular ZK_ROOT_FILENAME = true.
Proof. reflexivity. Qed.

Lemma Forall_regular_snoc l x :
  Forall (fun y => regular y = true) l -> regular x = true ->
  Forall (fun y => regular y = true) (l ++ [x]).
Proof.
  intros Hl Hx. apply Forall_app. split; [exact Hl|].
  constructor; [exact Hx | constructor].
Qed.

(** What [os.Stat] answers about the entry [x] of the entry at [l]. *)
Lemma Stat_below s l x n :
  l <> [] -> Forall (fun y => regular y = true) l -> regular x = true ->
  lookup (tree s) l = Some n ->
  err_of (Stat s (path_to (l ++ [x])))
  = match n with
    | File _ _ => Some (SyscallError ENOTDIR)
    | Dir _ es => match assoc x es with
                  | Some _ => None
                  | None => Some (SyscallError ENOENT)
                  end
    end.
Proof.
  intros Hne Hreg Hx Hl. unfold Stat.
  rewrite resolve_path_to_namei
    by (auto using Forall_regular_snoc; destruct l; discriminate).
  destruct (@lookup_below_root _ _ _ Hne Hl) as (m0 & es0 & Ht).
  rewrite (@namei_skip_dir bytes (tree s) [] "" (l ++ [x]) m0 es0);
    [|reflexivity | exact Ht].
  rewrite namei_app.
  rewrite (@namei_lookup (tree s) l [] n Hreg Hl).
  change ([] ++ l) with l.
  change (namei (tree s) l [x])
    with (match lookup (tree s) l with
          | Some (Dir _ es) =>
              if String.eqb x "" || String.eqb x "." then inr l
              else if String.eqb x ".." then inr (removelast l)
              else match assoc x es with
                   | Some _ => inr (l ++ [x])
                   | None => inl ENOENT
                   end
          | Some (File _ _) => inl ENOTDIR
          | None => inl ENOENT
          end).
  rewrite Hl.
  destruct n as [mode data|m es]; [reflexivity|].
  pose proof (regular_not_special _ Hx) as Hs. unfold is_special in Hs.
  apply orb_false_iff in Hs as [Hs H2]. rewrite Hs, H2.
  destruct (assoc x es) as [c|] eqn:Hc; [|reflexivity].
  rewrite lookup_app, Hl. simpl. rewrite Hc. reflexivity.
Qed.

(** What [os.Stat] says of the marker of a directory that is there. *)
Lemma marker_missing_dir s l m es :
  l <> [] -> Forall (fun x => regular x = true) l ->
  lookup (tree s) l = Some (Dir m es) ->
  marker_missing s (path_to l) = negb (holds_marker (tree s) l).
Proof.
  intros Hne Hreg Hl. unfold marker_missing, holds_marker.
  rewrite Join_path_to by (auto using marker_regular).
  rewrite (@Stat_below s l ZK_ROOT_FILENAME _ Hne Hreg marker_regular Hl).
  rewrite lookup_app, Hl. simpl.
  destruct (assoc ZK_ROOT_FILENAME es); reflexivity.
Qed.

(** A path that leads to a regular file: what [os.Stat] says of a marker
    below it is not that it is missing. *)
Lemma marker_missing_file s l mode data :
  l <> [] -> Forall (fun x => regular x = true) l ->
  lookup (tree s) l = Some (File mode data) ->
  marker_missing s (path_to l) = false.
Proof.
  intros Hne Hreg Hl. unfold marker_missing.
  rewrite Join_path_to by (auto using marker_regular).
  rewrite (@Stat_below s l ZK_ROOT_FILENAME _ Hne Hreg marker_regular Hl).
  reflexivity.
Qed.

Lemma lookup_on_the_way t l rest m es :
  lookup t (l ++ rest) = Some (Dir m es) ->
  exists m' es', lookup t l = Some (Dir m' es').
Proof.
  rewrite lookup_app.
  destruct (lookup t l) as [[mode data|m' es']|]; try discriminate; eauto.
  destruct rest; simpl; discriminate.
Qed.

Lemma path_to_snoc_not_root l x :
  regular x = true -> IsRootDir (path_to (l ++ [x])) = false.
Proof.
  intros Hx. unfold IsRootDir. simpl.
  destruct (String.eqb_spec (path_to (l ++ [x])) "/") as [E|]; [|reflexivity].
  apply (f_equal String.length) in E.
  rewrite path_to_snoc, !length_append in E. simpl in E.
  destruct x; [discriminate | simpl in E; lia].
Qed.

(** One step of the search from a directory that is there. *)
Lemma ZkRoot_step s l x m es :
  Forall (fun y => regular y = true) (l ++ [x]) ->
  lookup (tree s) (l ++ [x]) = Some (Dir m es) ->
  ZkRoot s (path_to (l ++ [x]))
  = if holds_marker (tree s) (l ++ [x]) then (path_to (l ++ [x]), None)
    else ZkRoot s (path_to l).
Proof.
  intros Hreg Hl.
  assert (Hx : regular x = true).
  { apply Forall_app in Hreg as [_ Hx]. inversion Hx; assumption. }
  rewrite ZkRoot_once.
  rewrite (@marker_missing_dir s (l ++ [x]) m es); auto;
    [|destruct l; discriminate].
  destruct (holds_marker (tree s) (l ++ [x])); [reflexivity|].
  simpl negb. cbv iota.
  rewrite path_to_snoc_not_root by exact Hx.
  rewrite path_to_snoc.
  change (path_to l ++ "/" ++ x)%string
    with (path_to l ++ String Filepath.Separator x)%string.
  rewrite LastIndex_append by (apply regular_lacks; exact Hx).
  destruct (Z.eqb_spec (Z.of_nat (String.length (path_to l))) (-1)); [lia|].
  rewrite Nat2Z.id, take_append. reflexivity.
Qed.

(** The search climbs from the deepest directory to the first one that
    holds the marker. *)
Lemma ZkRoot_climb s below : forall above m es,
  Forall (fun y => regular y = true) (above ++ below) ->
  lookup (tree s) (above ++ below) = Some (Dir m es) ->
  ZkRoot s (path_to (above ++ below))
  = match nearest_marked (tree s) above below with
    | Some l => (path_to l, None)
    | None => ZkRoot s (path_to above)
    end.
Proof.
  induction below as [|x rest IH]; intros above m es Hreg Hl.
  - rewrite app_nil_r. reflexivity.
  - replace (above ++ x :: rest) with ((above ++ [x]) ++ rest) in *
      by (rewrite <- app_assoc; reflexivity).
    rewrite (IH (above ++ [x]) m es Hreg Hl). simpl.
    destruct (nearest_marked (tree s) (above ++ [x]) rest); [reflexivity|].
    destruct (lookup_on_the_way _ _ _ Hl) as (m' & es' & Hl').
    apply Forall_app in Hreg as [Hreg _].
    rewrite (ZkRoot_step s above x Hreg Hl').
    destruct (holds_marker (tree s) (above ++ [x])); reflexivity.
Qed.

Lemma nearest_marked_none t below : forall above,
  below <> [] -> nearest_marked t above below = None ->
  holds_marker t (above ++ below) = false.
Proof.
  induction below as [|x rest IH]; intros above Hne H; [congruence|].
  simpl in H.
  destruct (nearest_marked t (above ++ [x]) rest) eqn:E; [discriminate|].
  destruct rest as [|y rest].
  - destruct (holds_marker t (above ++ [x])); [discriminate | reflexivity].
  - replace (above ++ x :: y :: rest) with ((above ++ [x]) ++ y :: rest)
      by (rewrite <- app_assoc; reflexivity).
    apply IH; [discriminate | exact E].
Qed.

(** What the search finds is at or above where it starts. *)
Lemma nearest_marked_some t below : forall above l,
  nearest_marked t above below = Some l ->
  holds_marker t l = true
  /\ exists k, k < length below /\ l = above ++ firstn (S k) below.
Proof.
  induction below as [|x rest IH]; intros above l H; [discriminate|].
  simpl in H.
  destruct (nearest_marked t (above ++ [x]) rest) eqn:E.
  - injection H as ->. destruct (IH _ _ E) as (Hm & k & Hk & ->).
    split; [exact Hm|]. exists (S k). split; [simpl; lia|].
    rewrite <- app_assoc. reflexivity.
  - destruct (holds_marker t (above ++ [x])) eqn:Hm; [|discriminate].
    injection H as <-. split; [exact Hm|].
    exists 0. split; [simpl; lia | reflexivity].
Qed.

Lemma err_of_Stat_resolve s p q :
  resolve s p = resolve s q -> err_of (Stat s p) = err_of (Stat s q).
Proof.
  unfold Stat. intros ->. destruct (resolve s q) as [e|l]; [reflexivity|].
  destruct (lookup (tree s) l); reflexivity.
Qed.

(** From the working directory, the empty path leads to the marker of
    the working directory. *)
Lemma marker_missing_empty s names :
  names <> [] -> Forall (fun y => regular y = true) names ->
  cwd s = path_to names ->
  marker_missing s "" = marker_missing s (path_to names).
Proof.
  intros Hne Hreg Hcwd. unfold marker_missing.
  rewrite Join_path_to by (auto using marker_regular).
  change (Filepath.Join [""; ZK_ROOT_FILENAME]) with ZK_ROOT_FILENAME.
  f_equal. apply err_of_Stat_resolve.
  rewrite resolve_path_to_namei
    by (auto using Forall_regular_snoc, marker_regular; destruct names; discriminate).
  unfold resolve, components. rewrite Hcwd, Split_path_to by exact Hreg.
  reflexivity.
Qed.

(** X5.  The search for the root, in the tree.  Asked about a directory
    [/x1/.../xn] that is there, [ZkRoot] answers the deepest of the
    directories [/x1], [/x1/x2], ..., [/x1/.../xn] that has an entry with
    the name of the marker; the directory [/] is not among them.  When
    none has one, the empty path is tried, which leads to the marker of
    the working directory; so a search that starts from the working
    directory fails then, whatever the directory [/] holds. *)
Theorem ZkRoot_from_cwd s names m es :
  names <> [] -> Forall (fun y => regular y = true) names ->
  lookup (tree s) names = Some (Dir m es) ->
  ZkRoot s (path_to names)
  = match nearest_marked (tree s) [] names with
    | Some l => (path_to l, None)
    | None => if marker_missing s "" then not_found else ("", None)
    end
  /\ (cwd s = path_to names ->
      ZkRoot s (cwd s)
      = match nearest_marked (tree s) [] names with
        | Some l => (path_to l, None)
        | None => not_found
        end).
Proof.
  intros Hne Hreg Hl.
  assert (G : ZkRoot s (path_to names)
              = match nearest_marked (tree s) [] names with
                | Some l => (path_to l, None)
                | None => if marker_missing s "" then not_found else ("", None)
                end).
  { pose proof (@ZkRoot_climb s names [] m es Hreg Hl) as C.
    change ([] ++ names) with names in C. rewrite C.
    destruct (nearest_marked (tree s) [] names); [reflexivity|].
    change (path_to []) with "". rewrite ZkRoot_once.
    destruct (marker_missing s ""); reflexivity. }
  split; [exact G|].
  intros Hcwd. rewrite Hcwd, G.
  destruct (nearest_marked (tree s) [] names) eqn:E; [reflexivity|].
  rewrite (marker_missing_empty s Hne Hreg Hcwd).
  rewrite (@marker_missing_dir s names m es Hne Hreg Hl).
  pose proof (@nearest_marked_none (tree s) names [] Hne E) as N.
  change ([] ++ names) with names in N. rewrite N. reflexivity.
Qed.

(** X6.  A path that leads to a regular file is answered as its own root:
    [os.Stat] of a marker below a regular file fails, but not with
    [ErrNotExist], and every other answer of [os.Stat] counts as found. *)
Theorem ZkRoot_of_a_regular_file s names mode data :
  names <> [] -> Forall (fun y => regular y = true) names ->
  lookup (tree s) names = Some (File mode data) ->
  err_of (Stat s (Filepath.Join [path_to names; ZK_ROOT_FILENAME]))
  = Some (SyscallError ENOTDIR)
  /\ ZkRoot s (path_to names) = (path_to names, None).
Proof.
  intros Hne Hreg Hl. split.
  - rewrite Join_path_to by (auto using marker_regular).
    apply (@Stat_below s names ZK_ROOT_FILENAME _ Hne Hreg marker_regular Hl).
  - rewrite ZkRoot_once.
    rewrite (@marker_missing_file s names mode data Hne Hreg Hl). reflexivity.
Qed.

End RootInTree.

(* ================================================================= *)
(** * How [mv] can end *)

Section MvOutcomes.
Local Open Scope list_scope.
Variable bytes : Type.
Variable ParseHTML : bytes -> Html.Document.
Variable RenderHTML : Html.Document -> error + bytes.
Implicit Types (s : OS bytes) (Args : list string).

Lemma rewritten_refl s : rewritten s s.
Proof.
  repeat split. exists []. rewrite app_nil_r. split; reflexivity.
Qed.

Lemma rewritten_trans s0 s1 s2 :
  rewritten s0 s1 -> rewritten s1 s2 -> rewritten s0 s2.
Proof.
  intros (A1 & A2 & A3 & cs & A4 & A5) (B1 & B2 & B3 & cs' & B4 & B5).
  repeat split; try congruence.
  exists (cs ++ cs'). rewrite B4, A4, app_assoc, forallb_app, A5, B5.
  split; reflexivity.
Qed.

Lemma walkFn_rewrites from to path d e s :
  rewritten s (final (walkFn ParseHTML RenderHTML from to path d e s)).
Proof.
  destruct d as [d|]; [|apply rewritten_refl].
  destruct (walkFn_cases ParseHTML RenderHTML from to path d e s)
    as [ | | | | |l mode data data' ? Ho Hl Href Hrender];
    try apply rewritten_refl.
  simpl final.
  destruct (after_write_same_shape s path l data' Hl) as [H1 H2].
  repeat split; try assumption.
  - unfold after_write. destruct (may_write mode); reflexivity.
  - unfold after_write. destruct (may_write mode); simpl;
      eexists; split; reflexivity.
Qed.

Lemma walkFn_returns from to path d e s :
  exists e' s', walkFn ParseHTML RenderHTML from to path (Some d) e s
                = Return e' s'.
Proof.
  destruct (walkFn_cases ParseHTML RenderHTML from to path d e s); eauto.
Qed.

Lemma walkDir_returns from to n : forall path d s,
  exists e s', walkDir (walkFn ParseHTML RenderHTML from to) path d n s
               = Return e s'.
Proof.
  induction n as [mode data|listable entries IH] using Node_induction;
    intros path d s.
  - rewrite walkDir_File. unfold bind.
    destruct (walkFn_returns from to path d None s) as (e & s1 & ->).
    destruct e; unfold ret; eauto.
  - rewrite walkDir_Dir. unfold bind.
    destruct (walkFn_returns from to path d None s) as (e & s1 & ->).
    destruct e; [unfold ret; eauto|].
    destruct listable; [|apply walkFn_returns].
    revert s1. induction IH as [|[name c] rest Hc _ IHrest]; intros s1;
      [unfold walkEntries, ret; eauto|].
    simpl. unfold bind.
    destruct (Hc (Filepath.Join [path; name])
                {| Name := name; IsDir := is_dir c |} s1) as (e & s2 & E).
    simpl in E. rewrite E.
    destruct e; [unfold ret; eauto | apply IHrest].
Qed.

(** The outcomes of the walk of [mv]: it returns, or it panics at once. *)
Lemma WalkDir_outcome from to root s :
  (exists e s', WalkDir root (walkFn ParseHTML RenderHTML from to) s
                = Return e s')
  \/ ((exists e, Lstat s root = inl e)
      /\ WalkDir root (walkFn ParseHTML RenderHTML from to) s = Panic s).
Proof.
  unfold WalkDir, Lstat, Stat.
  destruct (resolve s root) as [e|l]; [right; split; eauto|].
  destruct (lookup (tree s) l) as [n|]; [|right; split; eauto].
  left. apply walkDir_returns.
Qed.

Lemma WalkDir_rewrites from to root s :
  rewritten s (final (WalkDir root (walkFn ParseHTML RenderHTML from to) s)).
Proof.
  apply (@WalkDir_preserves bytes _ (fun s' => rewritten s s'));
    [|apply rewritten_refl].
  intros path d e s' H. eapply rewritten_trans; [exact H|].
  apply walkFn_rewrites.
Qed.

(** X7.  The rewrite pass changes the contents of files and nothing
    else: after the walk of [mv], the tree has the entries, kinds and
    modes it had, the working directory and the standard output are as
    they were, and the calls made are calls of [WriteFile].  The walk
    never ends the process by [os.Exit], and when it panics it has done
    nothing: [os.Lstat] of the root has failed. *)
Theorem rewrite_pass_only_rewrites (from to root : string) s :
  rewritten s (final (WalkDir root (walkFn ParseHTML RenderHTML from to) s))
  /\ (forall code s',
         WalkDir root (walkFn ParseHTML RenderHTML from to) s <> Exit code s')
  /\ (forall s',
         WalkDir root (walkFn ParseHTML RenderHTML from to) s = Panic s' ->
         s' = s /\ exists e, Lstat s root = inl e).
Proof.
  split; [apply WalkDir_rewrites|].
  destruct (WalkDir_outcome from to root s) as [(e & s1 & E)|[He E]];
    rewrite E; split; try discriminate.
  intros s' H. injection H as <-. auto.
Qed.

Lemma sys_rename_failed s oldpath newpath e t :
  sys_rename s oldpath newpath = (Some e, t) -> t = tree s.
Proof.
  unfold sys_rename.
  destruct (resolve_parent s oldpath) as [e0|[po no]]; [congruence|].
  destruct (lookup (tree s) (po ++ [no])) as [src|]; [|congruence].
  destruct (resolve_parent s newpath) as [e0|[pn nn]]; [congruence|].
  destruct (loc_eqb _ _); [congruence|].
  destruct src as [m d|m es].
  - destruct (lookup (tree s) (pn ++ [nn])) as [[m' d'|m' es']|]; congruence.
  - destruct (is_prefix _ _); [congruence|].
    destruct (lookup (tree s) (pn ++ [nn])) as [[m' d'|m' [|e' es']]|];
      congruence.
Qed.

(** What [os.Rename] leaves: one more call recorded; the tree as it was
    when the call fails. *)
Lemma Rename_outcome oldpath newpath s :
  exists result s',
    Rename oldpath newpath s = Return result s'
    /\ calls s' = calls s ++ [CallRename oldpath newpath result]
    /\ stdout s' = stdout s /\ cwd s' = cwd s
    /\ (result <> None -> tree s' = tree s).
Proof.
  unfold Rename.
  destruct (match Lstat s newpath with inl _ => None | inr _ => _ end)
    as [e|].
  - eexists _, _. split; [reflexivity|]. repeat split.
  - destruct (sys_rename s oldpath newpath) as [[e|] t] eqn:E.
    + eexists _, _. split; [reflexivity|]. repeat split.
      intros _. simpl. eapply sys_rename_failed; exact E.
    + eexists _, _. split; [reflexivity|]. repeat split.
      simpl. congruence.
Qed.

Lemma length_lt_4 Args :
  length Args < 4 ->
  mv ParseHTML RenderHTML Args
  = bind (Println "zk mv usage:")
      (fun _ =>
         bind (Println (tab ++ "zk mv frompath topath" ++ tab
                        ++ "Move the item(s) at frompath to topath, updating references to them"))
           (fun _ => os_Exit 1)).
Proof.
  intros H. unfold mv.
  destruct (Nat.ltb_spec (length Args) 4); [reflexivity | lia].
Qed.

(** X8.  [mv] returns only after a rename that succeeded: when it
    returns, it was given both paths, the call of [os.Rename] on the two
    absolute paths is the last call it made and has answered nil, every
    call before it is a call of [WriteFile], and nothing was printed. *)
Theorem mv_returns_after_the_rename Args s s' :
  mv ParseHTML RenderHTML Args s = Return tt s' ->
  4 <= length Args
  /\ stdout s' = stdout s
  /\ cwd s' = cwd s
  /\ exists cs,
       calls s'
       = calls s ++ cs
         ++ [CallRename (absFromPath s Args) (absToPath s Args) None]
       /\ forallb is_write cs = true.
Proof.
  destruct (Nat.lt_ge_cases (length Args) 4) as [Hlt|Hlen].
  { rewrite (@length_lt_4 Args Hlt). discriminate. }
  rewrite (mv_unfold _ _ _ _ Hlen).
  destruct (ZkRoot s (cwd s)) as [root [err|]]; [discriminate|].
  destruct (zkRelative root (absFromPath s Args)) as [rf|]; [|discriminate].
  destruct (zkRelative root (absToPath s Args)) as [rt|]; [|discriminate].
  destruct (IsNotExist _); [discriminate|].
  pose proof (WalkDir_rewrites rf (Strings.TrimSuffix rt "/index.html") root s)
    as W.
  destruct (WalkDir root _ s) as [e s1|code s1|s1]; try discriminate.
  simpl in W. destruct W as (_ & Wc & Wo & cs & Wcs & Hcs).
  destruct (Rename_outcome (absFromPath s Args) (absToPath s Args) s1)
    as (result & s2 & -> & Rc & Ro & Rw & _).
  destruct result as [err|]; simpl; [discriminate|].
  intros H. injection H as <-.
  split; [exact Hlen|]. split; [congruence|]. split; [congruence|].
  exists cs. rewrite Rc, Wcs, <- app_assoc. split; [reflexivity | exact Hcs].
Qed.

(** X9.  [mv] panics before it has done anything: the state is the one
    it started in.  It has found a root, and then either one of the two
    absolute paths is shorter than the root, or [os.Lstat] of the root
    has failed. *)
Theorem mv_panics_before_any_effect Args s s' :
  mv ParseHTML RenderHTML Args s = Panic s' ->
  s' = s
  /\ exists root,
       ZkRoot s (cwd s) = (root, None)
       /\ (zkRelative root (absFromPath s Args) = None
           \/ zkRelative root (absToPath s Args) = None
           \/ exists e, Lstat s root = inl e).
Proof.
  destruct (Nat.lt_ge_cases (length Args) 4) as [Hlt|Hlen].
  { rewrite (@length_lt_4 Args Hlt). discriminate. }
  rewrite (mv_unfold _ _ _ _ Hlen).
  destruct (ZkRoot s (cwd s)) as [root [err|]]; [discriminate|].
  destruct (zkRelative root (absFromPath s Args)) as [rf|] eqn:Hrf.
  2:{ intros H. injection H as <-. split; [reflexivity|].
      exists root. split; [reflexivity|]. left; exact Hrf. }
  destruct (zkRelative root (absToPath s Args)) as [rt|] eqn:Hrt.
  2:{ intros H. injection H as <-. split; [reflexivity|].
      exists root. split; [reflexivity|]. right; left; exact Hrt. }
  destruct (IsNotExist _); [discriminate|].
  destruct (WalkDir_outcome rf (Strings.TrimSuffix rt "/index.html") root s)
    as [(e & s1 & ->)|[He ->]].
  - destruct (Rename_outcome (absFromPath s Args) (absToPath s Args) s1)
      as (result & s2 & -> & _). destruct result; discriminate.
  - intros H. injection H as <-. split; [reflexivity|].
    exists root. split; [reflexivity|]. right; right; exact He.
Qed.

(** [mv] ends the process with one status only. *)
Lemma mv_exit_code Args s code s' :
  mv ParseHTML RenderHTML Args s = Exit code s' -> code = 1%Z.
Proof.
  destruct (Nat.lt_ge_cases (length Args) 4) as [Hlt|Hlen].
  { rewrite (@length_lt_4 Args Hlt). unfold bind, Println, Printf, os_Exit.
    intros H. injection H as <- _. reflexivity. }
  rewrite (mv_unfold _ _ _ _ Hlen).
  destruct (ZkRoot s (cwd s)) as [root [err|]]; [congruence|].
  destruct (zkRelative root (absFromPath s Args)) as [rf|]; [|discriminate].
  destruct (zkRelative root (absToPath s Args)) as [rt|]; [|discriminate].
  destruct (IsNotExist _); [congruence|].
  destruct (WalkDir_outcome rf (Strings.TrimSuffix rt "/index.html") root s)
    as [(e & s1 & ->)|[_ ->]]; [|discriminate].
  destruct (Rename_outcome (absFromPath s Args) (absToPath s Args) s1)
    as (result & s2 & -> & _).
  destruct result; simpl; congruence.
Qed.


End MvOutcomes.

(* ================================================================= *)
(** * [main] *)

Section MainFacts.
Local Open Scope list_scope.
Variable bytes : Type.
Variable ParseHTML : bytes -> Html.Document.
Variable RenderHTML : Html.Document -> error + bytes.
Variable ParseInt : string -> option Z.
Implicit Types (s : OS bytes) (Args : list string).

Lemma PrintHelpText_returns s :
  PrintHelpText s = Return tt (help_printed s)
  /\ tree (help_printed s) = tree s
  /\ cwd (help_printed s) = cwd s
  /\ calls (help_printed s) = calls s
  /\ exists lines, length lines = 8 /\ stdout (help_printed s) = stdout s ++ lines.
Proof.
  unfold help_printed. repeat split.
  eexists [_; _; _; _; _; _; _; _]. split; [reflexivity|].
  simpl. rewrite <- !app_assoc. reflexivity.
Qed.

Lemma app_neq_self (A : Type) (l lines : list A) :
  lines <> [] -> l ++ lines <> l.
Proof.
  intros Hne E. apply (f_equal (@length A)) in E.
  rewrite length_app in E. destruct lines; [congruence | simpl in E; lia].
Qed.

Lemma serve_outcome Args s :
  (exists code, serve ParseInt Args s = Ended (Exit code s)
                /\ (code = 0 \/ code = 2)%Z)
  \/ (exists line, serve ParseInt Args s = Ended (Exit 1 (print s line)))
  \/ exists flags,
       FlagSet_Parse ParseInt
         {| serverPort := DEFAULT_SERVER_PORT;
            serverDesiredDirectory := DEFAULT_SERVER_DIRECTORY |}
         (skipn 2 Args) = inr flags
       /\ exists root,
            ZkRoot s (Filepath.Join [cwd s; serverDesiredDirectory flags])
            = (root, None)
            /\ serve ParseInt Args s
               = ListenAndServe (":" ++ FormatInt (serverPort flags)) root
                   (print s ("Listening on http://localhost:"
                             ++ FormatInt (serverPort flags) ++ newline))
                   (fun err =>
                      match err with
                      | Some err =>
                          bind (Printf ("Error starting HTTP server: "
                                        ++ Error err ++ newline))
                            (fun _ => os_Exit 1)
                      | None => ret tt
                      end).
Proof.
  unfold serve.
  destruct (FlagSet_Parse ParseInt _ (skipn 2 Args)) as [e|flags] eqn:P.
  - left. destruct e; eauto.
  - destruct (ZkRoot s _) as [root [err|]] eqn:Z.
    + right; left. eexists. reflexivity.
    + right; right. exists flags. split; [reflexivity|].
      exists root. split; [exact Z | reflexivity].
Qed.

(** X11.  Only [mv] and [move] touch the file system: under every other
    command, and without a command, [main] leaves the tree and the working
    directory as they are and makes no call that can change them, up to
    the end of the process or to the call of [http.ListenAndServe]. *)
Theorem main_changes_files_only_on_mv Args s :
  String.eqb (nth 1 Args "") "mv" || String.eqb (nth 1 Args "") "move" = false
  \/ length Args < 2 ->
  tree (state_of (main ParseHTML RenderHTML ParseInt Args s)) = tree s
  /\ cwd (state_of (main ParseHTML RenderHTML ParseInt Args s)) = cwd s
  /\ calls (state_of (main ParseHTML RenderHTML ParseInt Args s)) = calls s.
Proof.
  intros H. unfold main.
  destruct (Nat.ltb_spec (length Args) 2) as [Hlt|Hge].
  { repeat split. }
  destruct H as [H|H]; [|lia].
  destruct (String.eqb (nth 1 Args "") "version"); [repeat split|].
  destruct (String.eqb (nth 1 Args "") "serve" || String.eqb (nth 1 Args "") "run").
  - destruct (serve_outcome Args s)
      as [(code & -> & _)|[(line & ->)|(flags & _ & root & _ & ->)]];
      repeat split.
  - rewrite H. repeat split.
Qed.

(** X12.  [main] prints the help text and ends the process with status
    2 when it is given no command or one it does not know, and in no
    other case does it end with status 2 after an output: [version]
    returns, [mv] ends with status 1 only, and [serve] ends with status 2
    only on an error of its flags, which prints nothing on the standard
    output. *)
Theorem main_help_exit_2 Args s :
  (exists s', main ParseHTML RenderHTML ParseInt Args s = Ended (Exit 2 s')
              /\ stdout s' <> stdout s)
  <-> (length Args < 2 \/ known_command (nth 1 Args "") = false).
Proof.
  assert (Help : exists s',
             Ended ((bind (@PrintHelpText bytes) (fun _ => os_Exit 2)) s)
             = Ended (Exit 2 s') /\ stdout s' <> stdout s).
  { eexists. split; [reflexivity|].
    simpl. rewrite <- !app_assoc. apply app_neq_self. discriminate. }
  unfold main, known_command.
  destruct (Nat.ltb_spec (length Args) 2) as [Hlt|Hge]; [split; auto|].
  destruct (String.eqb (nth 1 Args "") "version").
  { simpl. split; [intros (s' & H & _); discriminate|].
    intros [H|H]; [lia | discriminate]. }
  destruct (String.eqb (nth 1 Args "") "serve"),
           (String.eqb (nth 1 Args "") "run"); simpl;
    try (split; [|intros [H|H]; [lia | discriminate]];
         intros (s' & H & Hout);
         destruct (serve_outcome Args s)
           as [(code & E & _)|[(line & E)|(flags & _ & root & _ & E)]];
         rewrite E in H; try discriminate;
         injection H as _ <-; congruence).
  destruct (String.eqb (nth 1 Args "") "mv"),
           (String.eqb (nth 1 Args "") "move"); simpl;
    try (split; [|intros [H|H]; [lia | discriminate]];
         intros (s' & H & _); injection H as H;
         apply mv_exit_code in H; discriminate).
  split; auto.
Qed.

(** X13.  [serve] starts the server only under a root: when [main]
    comes to [http.ListenAndServe], the command was [serve] or [run], the
    flags were parsed, the directory served is the root that [ZkRoot]
    answers for the working directory joined with the directory of the
    flags (that path or what stands in it before a separator, with a
    marker that [os.Stat] did not report missing) and not the directory
    of the flags itself; the address is the port of the flags; the one
    line printed is the line that tells the address; and an error of the
    server is printed and ends the process with status 1. *)
Theorem serve_listens_only_under_a_root Args s addr dir s' after :
  main ParseHTML RenderHTML ParseInt Args s = ListenAndServe addr dir s' after ->
  (nth 1 Args "" = "serve" \/ nth 1 Args "" = "run")
  /\ exists flags,
       FlagSet_Parse ParseInt
         {| serverPort := DEFAULT_SERVER_PORT;
            serverDesiredDirectory := DEFAULT_SERVER_DIRECTORY |}
         (skipn 2 Args) = inr flags
       /\ ZkRoot s (Filepath.Join [cwd s; serverDesiredDirectory flags])
          = (dir, None)
       /\ cut_at_separator dir
            (Filepath.Join [cwd s; serverDesiredDirectory flags])
       /\ marker_missing s dir = false
       /\ addr = (":" ++ FormatInt (serverPort flags))%string
       /\ s' = print s ("Listening on http://localhost:"
                        ++ FormatInt (serverPort flags) ++ newline)
       /\ forall err s'',
            after (Some err) s''
            = Exit 1 (print s'' ("Error starting HTTP server: "
                                 ++ Error err ++ newline)).
Proof.
  unfold main.
  destruct (Nat.ltb (length Args) 2); [discriminate|].
  destruct (String.eqb (nth 1 Args "") "version"); [discriminate|].
  destruct (String.eqb_spec (nth 1 Args "") "serve") as [Hs|Hs];
    [|destruct (String.eqb_spec (nth 1 Args "") "run") as [Hr|Hr]]; simpl;
    try (destruct (String.eqb (nth 1 Args "") "mv" || String.eqb (nth 1 Args "") "move");
         discriminate).
  all: intros H; (split; [auto|]);
    destruct (serve_outcome Args s)
      as [(code & E & _)|[(line & E)|(flags & P & root & Z & E)]];
    rewrite E in H; try discriminate;
    injection H as <- <- <- <-;
    exists flags; (split; [exact P|]); (split; [exact Z|]);
    destruct (ZkRoot_found _ _ Z) as [Hc Hm];
    repeat split; auto.
Qed.

End MainFacts.

(* ================================================================= *)
(** * What the rewrite of a document changes *)

Section RewriteFacts.
Import Html.
Implicit Types (attr : list Attribute) (doc : Document).

Lemma SetAttr_SetAttr attr name v x :
  SetAttr (SetAttr attr name v) name x = SetAttr attr name x.
Proof.
  induction attr as [|a rest IH]; simpl.
  - rewrite String.eqb_refl. reflexivity.
  - destruct (String.eqb (Key a) name) eqn:E; simpl; rewrite E;
      [reflexivity | rewrite IH; reflexivity].
Qed.

Lemma length_SetAttr attr name v :
  snd (Attr attr name) = true -> length (SetAttr attr name v) = length attr.
Proof.
  induction attr as [|a rest IH]; simpl; [discriminate|].
  destruct (String.eqb (Key a) name); simpl; [reflexivity|].
  intros H. rewrite IH by exact H. reflexivity.
Qed.

Lemma map_a_node_compose f g n :
  map_a_node g (map_a_node f n) = map_a_node (fun attr => g (f attr)) n.
Proof.
  induction n as [data|data|tag attr children IH] using HNode_induction;
    simpl; try reflexivity.
  f_equal.
  - destruct (String.eqb tag "a"); reflexivity.
  - rewrite map_map. induction IH as [|c rest Hc _ IHrest]; [reflexivity|].
    simpl. rewrite Hc, IHrest. reflexivity.
Qed.

Lemma map_a_compose f g doc :
  map_a g (map_a f doc) = map_a (fun attr => g (f attr)) doc.
Proof.
  unfold map_a. rewrite map_map. apply map_ext. intros n.
  apply map_a_node_compose.
Qed.

Lemma map_a_node_ext f g n :
  (forall attr, f attr = g attr) -> map_a_node f n = map_a_node g n.
Proof.
  intros H.
  induction n as [data|data|tag attr children IH] using HNode_induction;
    simpl; try reflexivity.
  f_equal.
  - destruct (String.eqb tag "a"); [apply H | reflexivity].
  - induction IH as [|c rest Hc _ IHrest]; [reflexivity|].
    simpl. rewrite Hc, IHrest. reflexivity.
Qed.

Lemma map_a_ext f g doc :
  (forall attr, f attr = g attr) -> map_a f doc = map_a g doc.
Proof.
  intros H. unfold map_a. apply map_ext. intros n.
  apply map_a_node_ext. exact H.
Qed.

Lemma isReference_has_href from attr :
  isReference from attr = true -> snd (Attr attr "href") = true.
Proof. unfold isReference. intros H. apply andb_true_iff in H. tauto. Qed.

Lemma retarget_retarget from to attr :
  retarget from to (retarget from to attr) = retarget from to attr.
Proof.
  destruct (isReference from attr) eqn:E; unfold retarget; rewrite !E.
  - destruct (isReference from (SetAttr attr "href" to)); [|reflexivity].
    apply SetAttr_SetAttr.
  - reflexivity.
Qed.

Lemma SetAttr_retarget from to attr x :
  SetAttr (retarget from to attr) "href" x = SetAttr attr "href" x.
Proof.
  unfold retarget. destruct (isReference from attr); [|reflexivity].
  apply SetAttr_SetAttr.
Qed.

Lemma has_href_SetAttr attr name v :
  snd (Attr (SetAttr attr name v) name) = true.
Proof.
  induction attr as [|a rest IH]; simpl.
  - rewrite String.eqb_refl. reflexivity.
  - destruct (String.eqb (Key a) name) eqn:E; simpl; rewrite E;
      [reflexivity | exact IH].
Qed.

(** X14.  The rewrite of a document is idempotent: rewriting the
    rewritten document, with the same two paths, gives the rewritten
    document again, whether or not the destination is itself a link form
    of the source. *)
Theorem rewrite_is_idempotent (from to : string) doc :
  fst (FindEach_a (updateAnchor from to)
         (fst (FindEach_a (updateAnchor from to) doc false)) false)
  = fst (FindEach_a (updateAnchor from to) doc false).
Proof.
  rewrite !FindEach_a_spec. simpl. rewrite map_a_compose.
  apply map_a_ext. intros attr. apply retarget_retarget.
Qed.

(** X15.  The rewrite of a document changes the values of [href]
    attributes of anchors and nothing else: when every anchor of the
    document before and of the document after is given one and the same
    [href], the two documents are equal; and the rewrite adds no
    attribute and no [href]: each anchor has as many attributes as
    before, and has an [href] exactly when it had one. *)
Theorem rewrite_touches_only_href_values (from to : string) doc :
  (forall x,
      map_a (fun attr => SetAttr attr "href" x)
        (fst (FindEach_a (updateAnchor from to) doc false))
      = map_a (fun attr => SetAttr attr "href" x) doc)
  /\ map (@length Attribute)
       (Find_a (fst (FindEach_a (updateAnchor from to) doc false)))
     = map (@length Attribute) (Find_a doc)
  /\ map (fun attr => snd (Attr attr "href"))
       (Find_a (fst (FindEach_a (updateAnchor from to) doc false)))
     = map (fun attr => snd (Attr attr "href")) (Find_a doc).
Proof.
  rewrite FindEach_a_spec. simpl. split; [|split].
  - intros x. rewrite map_a_compose. apply map_a_ext. intros attr.
    apply SetAttr_retarget.
  - rewrite Find_a_map_a, map_map. apply map_ext. intros attr.
    unfold retarget. destruct (isReference from attr) eqn:E; [|reflexivity].
    apply length_SetAttr. apply isReference_has_href with (from := from).
    exact E.
  - rewrite Find_a_map_a, map_map. apply map_ext. intros attr.
    unfold retarget. destruct (isReference from attr) eqn:E; [|reflexivity].
    rewrite has_href_SetAttr. symmetry.
    apply isReference_has_href with (from := from). exact E.
Qed.

End RewriteFacts.

(* ================================================================= *)
(** * Directories in the way of the walk *)

Section WalkEdges.
Local Open Scope list_scope.
Variable bytes : Type.
Variable ParseHTML : bytes -> Html.Document.
Variable RenderHTML : Html.Document -> error + bytes.
Implicit Types (s : OS bytes) (d : DirEntry).

Variables from to : string.
Let fn := walkFn ParseHTML RenderHTML from to.

(** X16.  A directory that cannot be listed is passed over in silence:
    when its name does not end in [.html], the walk of it returns nil and
    leaves the state as it is, whatever the directory holds, and the walk
    of its parent goes on with the entries that follow it. *)
Theorem unlistable_directory_is_skipped
  (path dir name : string) d (entries rest : list (string * Node bytes)) s :
  Strings.HasSuffix (Name d) ".html" = false ->
  Strings.HasSuffix name ".html" = false ->
  walkDir fn path d (Dir false entries) s = Return None s
  /\ walkEntries fn dir ((name, Dir false entries) :: rest) s
     = walkEntries fn dir rest s.
Proof.
  intros Hd Hname.
  assert (W : forall p d0, Strings.HasSuffix (Name d0) ".html" = false ->
                walkDir fn p d0 (Dir false entries) s = Return None s).
  { intros p d0 H0. rewrite walkDir_Dir. unfold bind, fn.
    rewrite (fn_not_html ParseHTML RenderHTML from to s p d0 None H0).
    apply fn_not_html. exact H0. }
  split; [apply W; exact Hd|].
  change (walkEntries fn dir ((name, Dir false entries) :: rest) s)
    with (bind (walkDir fn (Filepath.Join [dir; name])
                  {| Name := name; IsDir := true |} (Dir false entries))
            (fun err => match err with
                        | Some _ => ret err
                        | None => walkEntries fn dir rest
                        end) s).
  unfold bind. rewrite W by exact Hname. reflexivity.
Qed.

Lemma Open_dir s path l listable entries :
  resolve s path = inr l ->
  lookup (tree s) l = Some (Dir listable entries) ->
  Open s path
  = if listable then inr l else inl (SyscallError EACCES).
Proof. intros Hr Hl. unfold Open. rewrite Hr, Hl. reflexivity. Qed.

(** One call of the function on a directory whose name ends in [.html]. *)
Lemma fn_on_directory s path d e l listable entries :
  Strings.HasSuffix (Name d) ".html" = true ->
  resolve s path = inr l ->
  lookup (tree s) l = Some (Dir listable entries) ->
  fn path (Some d) e s
  = Return (Some (SyscallError (if listable then EISDIR else EACCES))) s.
Proof.
  intros Hd Hr Hl. pose proof (Open_dir s path Hr Hl) as Ho.
  unfold fn.
  destruct (walkFn_cases ParseHTML RenderHTML from to path d e s)
    as [H|err H Ho'|l' err H Ho' Hread|l' mode data H Ho' Hl'
        |l' mode data err H Ho' Hl'|l' mode data data' H Ho' Hl'];
    try congruence; rewrite Ho in Ho'; destruct listable; try discriminate.
  - injection Ho' as <-. reflexivity.
  - injection Ho' as <-. unfold ReadAll in Hread. rewrite Hl in Hread.
    injection Hread as <-. reflexivity.
  - injection Ho' as <-. congruence.
  - injection Ho' as <-. congruence.
  - injection Ho' as <-. congruence.
Qed.

(** X17.  A directory whose name ends in [.html] stops the walk: the
    function opens it as a document, reading it fails ([EISDIR]; opening
    it fails with [EACCES] when it cannot be listed), the error is
    returned, and the walk ends there with the state as it is: neither
    the entries of the directory nor the entries that follow it are
    visited. *)
Theorem directory_named_like_a_document_stops_the_walk
  (path dir name : string) d s (l : loc) (listable : bool)
  (entries snapshot rest : list (string * Node bytes)) :
  Strings.HasSuffix (Name d) ".html" = true ->
  resolve s path = inr l ->
  lookup (tree s) l = Some (Dir listable entries) ->
  walkDir fn path d (Dir listable snapshot) s
  = Return (Some (SyscallError (if listable then EISDIR else EACCES))) s
  /\ (path = Filepath.Join [dir; name] ->
      d = {| Name := name; IsDir := true |} ->
      walkEntries fn dir ((name, Dir listable snapshot) :: rest) s
      = Return (Some (SyscallError (if listable then EISDIR else EACCES))) s).
Proof.
  intros Hd Hr Hl.
  assert (W : walkDir fn path d (Dir listable snapshot) s
              = Return (Some (SyscallError (if listable then EISDIR else EACCES))) s).
  { rewrite walkDir_Dir. unfold bind.
    rewrite (fn_on_directory s path d None Hd Hr Hl). reflexivity. }
  split; [exact W|].
  intros -> ->. apply walkEntries_stops. exact W.
Qed.

End WalkEdges.

(* ================================================================= *)
(** * What the rewrite pass achieves *)

Section PassFacts.
Local Open Scope list_scope.
Variable bytes : Type.
Variable ParseHTML : bytes -> Html.Document.
Variable RenderHTML : Html.Document -> error + bytes.
Implicit Types (s : OS bytes) (l r : loc).

Lemma WalkDir_inv
  (fn : string -> option DirEntry -> option error -> M bytes (option error))
  root s e s' :
  WalkDir root fn s = Return e s' ->
  (forall p err s0 e0 s1, fn p None err s0 <> Return e0 s1) ->
  exists info l n,
    Lstat s root = inr info /\ Name info = basename root
    /\ resolve s root = inr l /\ lookup (tree s) l = Some n
    /\ walkDir fn root info n s = Return e s'.
Proof.
  unfold WalkDir, Lstat, Stat. intros H Hnil.
  destruct (resolve s root) as [err|l]; [exfalso; eapply Hnil; exact H|].
  destruct (lookup (tree s) l) as [n|] eqn:Hl;
    [|exfalso; eapply Hnil; exact H].
  eexists _, l, n. split; [reflexivity|]. split; [reflexivity|].
  split; [reflexivity|]. split; [exact Hl | exact H].
Qed.

Lemma walkFn_nil from to p err s e s1 :
  walkFn ParseHTML RenderHTML from to p None err s <> Return e s1.
Proof. discriminate. Qed.

(** X18.  What a rewrite pass achieves.  Let the destination be no link
    form of the source, let the parser read back what the serialiser
    writes, and let the tree below the root be well formed with every
    directory listable.  When the walk returns nil and no write has
    failed, no document below the root refers to the source any more: in
    every file whose name ends in [.html], no anchor has an [href] that
    is a link form of the source. *)
Theorem rewrite_pass_is_complete (from to root : string) s s' l
  (n : Node bytes) :
  hrefMatches from to = false ->
  (forall doc data, RenderHTML doc = inr data -> ParseHTML data = doc) ->
  resolve s root = inr l ->
  lookup (tree s) l = Some n ->
  well_formed n = true -> all_listable n = true ->
  WalkDir root (walkFn ParseHTML RenderHTML from to) s = Return None s' ->
  failed_writes (calls s') = failed_writes (calls s) ->
  forall r mode data,
    lookup (tree s') (l ++ r) = Some (File mode data) ->
    Strings.HasSuffix (last r (basename root)) ".html" = true ->
    forall attr h,
      In attr (Html.Find_a (ParseHTML data)) -> href attr = Some h ->
      ~ In h (LinkFormSet from).
Proof.
  intros Hform Hround Hres Hl Hwf Hlist Hwalk Hcount r mode data Hr Hname.
  apply no_reference_iff.
  destruct (@WalkDir_inv _ _ _ _ _ Hwalk (@walkFn_nil from to))
    as (info & l0 & n0 & _ & Hinfo & Hres0 & Hl0 & W).
  rewrite Hres in Hres0. injection Hres0 as <-.
  rewrite Hl in Hl0. injection Hl0 as <-.
  assert (C : clean_below ParseHTML from s' l (Name info)).
  { apply (@first_pass_cleans bytes ParseHTML RenderHTML from to Hform Hround
             n root info l s s'); try assumption.
    rewrite lookup_shape, Hl. reflexivity. }
  pose proof (C r _ Hr) as K. rewrite Hinfo in K. simpl in K.
  rewrite Hname in K. simpl in K. apply negb_true_iff in K. exact K.
Qed.

Lemma unreferenced_lookup from r : forall (n : Node bytes) mode data,
  unreferenced ParseHTML from n = true ->
  lookup n r = Some (File mode data) ->
  existsb (isReference from) (Html.Find_a (ParseHTML data)) = false.
Proof.
  induction r as [|x r IH]; intros n mode data Hn Hl.
  - simpl in Hl. injection Hl as ->. simpl in Hn.
    apply negb_true_iff in Hn. exact Hn.
  - destruct n as [m d|m es]; [discriminate|].
    simpl in Hl. destruct (assoc x es) as [c|] eqn:Hx; [|discriminate].
    apply (IH c mode data); [|exact Hl].
    simpl in Hn. rewrite forallb_forall in Hn.
    apply (Hn (x, c)). apply assoc_In. exact Hx.
Qed.

(** X19.  Moving an item that no document refers to is the rename alone.
    When the tree below the root is well formed and no file below it
    holds an anchor whose [href] is a link form of the source, the walk
    makes no call and leaves the state as it is (even if it stops at an
    error), and [mv] is the call of [os.Rename] with its report. *)
Theorem mv_of_an_unreferenced_item (Args : list string) s
  (root rf rt : string) l (n : Node bytes) :
  4 <= length Args ->
  ZkRoot s (cwd s) = (root, None) ->
  zkRelative root (absFromPath s Args) = Some rf ->
  zkRelative root (absToPath s Args) = Some rt ->
  IsNotExist (err_of (Stat s (absFromPath s Args))) = false ->
  resolve s root = inr l ->
  lookup (tree s) l = Some n ->
  well_formed n = true ->
  unreferenced ParseHTML rf n = true ->
  final (WalkDir root
           (walkFn ParseHTML RenderHTML rf
              (Strings.TrimSuffix rt "/index.html")) s) = s
  /\ mv ParseHTML RenderHTML Args s
     = report_rename (Rename (absFromPath s Args) (absToPath s Args) s).
Proof.
  intros Hlen Hroot Hrf Hrt Hstat Hres Hl Hwf Hno.
  assert (W : exists e,
             WalkDir root
               (walkFn ParseHTML RenderHTML rf
                  (Strings.TrimSuffix rt "/index.html")) s = Return e s).
  { unfold WalkDir, Lstat, Stat. rewrite Hres, Hl.
    apply (@clean_pass bytes ParseHTML RenderHTML rf
             (Strings.TrimSuffix rt "/index.html") n root _ l s);
      try assumption.
    intros r n0 Hn0. rewrite lookup_app, Hl in Hn0.
    destruct n0 as [mode data|m es]; [|reflexivity].
    simpl. apply orb_true_iff. right. apply negb_true_iff.
    apply (unreferenced_lookup rf r n Hno Hn0). }
  destruct W as [e W]. split; [rewrite W; reflexivity|].
  rewrite (mv_unfold _ _ _ _ Hlen), Hroot, Hrf, Hrt, Hstat, W. reflexivity.
Qed.

End PassFacts.

(* ================================================================= *)
(** * The arguments of [mv] *)

Section MvArguments.
Variable bytes : Type.
Variable ParseHTML : bytes -> Html.Document.
Variable RenderHTML : Html.Document -> error + bytes.
Implicit Types (s : OS bytes).

Lemma clean_fold_skip_empty r (A B : list string) out :
  fold_left (Filepath.clean_step r) (A ++ "" :: B)%list out
  = fold_left (Filepath.clean_step r) (A ++ B)%list out.
Proof. rewrite !fold_left_app. reflexivity. Qed.

Lemma append_not_empty (a b : string) : a <> "" -> String.eqb (a ++ b) "" = false.
Proof. destruct a; [congruence | reflexivity]. Qed.

(** A doubled separator is read as one. *)
Lemma Clean_doubled_separator (a b : string) :
  a <> "" ->
  Filepath.Clean (a ++ "/" ++ "/" ++ b) = Filepath.Clean (a ++ "/" ++ b).
Proof.
  intros Ha. unfold Filepath.Clean.
  rewrite !append_not_empty by exact Ha.
  rewrite !rooted_append by exact Ha.
  change (a ++ "/" ++ "/" ++ b)
    with (a ++ String Filepath.Separator (String Filepath.Separator b)).
  change (a ++ "/" ++ b) with (a ++ String Filepath.Separator b).
  rewrite !Split_app_sep.
  change (Strings.Split Filepath.Separator (String Filepath.Separator b))
    with ("" :: Strings.Split Filepath.Separator b).
  rewrite clean_fold_skip_empty. reflexivity.
Qed.

Lemma Clean_trailing_separators (a : string) :
  a <> "" -> Filepath.Clean (a ++ "/" ++ "/") = Filepath.Clean a.
Proof.
  intros Ha. unfold Filepath.Clean.
  rewrite append_not_empty by exact Ha.
  rewrite rooted_append by exact Ha.
  assert (N : String.eqb a "" = false) by (destruct a; [congruence | reflexivity]).
  rewrite N.
  change (a ++ "/" ++ "/")
    with (a ++ String Filepath.Separator (String Filepath.Separator "")).
  rewrite Split_app_sep.
  change (Strings.Split Filepath.Separator (String Filepath.Separator ""))
    with [""; ""].
  rewrite clean_fold_skip_empty.
  replace (Strings.Split Filepath.Separator a ++ [""])%list
    with (Strings.Split Filepath.Separator a ++ "" :: [])%list by reflexivity.
  rewrite clean_fold_skip_empty, app_nil_r. reflexivity.
Qed.

(** An argument with a separator in front is joined to the working
    directory like the argument without it. *)
Lemma Join_leading_separator (wd p : string) :
  wd <> "" ->
  Filepath.Join [wd; String Filepath.Separator p] = Filepath.Join [wd; p].
Proof.
  intros Hwd. unfold Filepath.Join.
  assert (N : String.eqb wd "" = false) by (destruct wd; [congruence | reflexivity]).
  simpl filter. rewrite N. simpl negb. cbv iota.
  destruct p as [|c p].
  - simpl String.eqb. simpl negb. cbv iota.
    change (Strings.Join [wd; "/"] "/") with (wd ++ "/" ++ "/").
    change (Strings.Join [wd] "/") with wd.
    apply Clean_trailing_separators. exact Hwd.
  - simpl String.eqb. simpl negb. cbv iota.
    change (Strings.Join [wd; String Filepath.Separator (String c p)] "/")
      with (wd ++ "/" ++ "/" ++ String c p).
    change (Strings.Join [wd; String c p] "/") with (wd ++ "/" ++ String c p).
    apply Clean_doubled_separator. exact Hwd.
Qed.

(** X20.  [mv] reads its two paths from the working directory, also
    when they are written as absolute paths: a separator in front of an
    argument changes nothing.  The other arguments, the name of the
    program, the name of the command and what follows the two paths, are
    not read. *)
Theorem mv_reads_its_paths_from_the_working_directory
  (program command program' command' fromPath toPath : string)
  (more more' : list string) s :
  cwd s <> "" ->
  mv ParseHTML RenderHTML
    (program :: command :: String Filepath.Separator fromPath
       :: String Filepath.Separator toPath :: more) s
  = mv ParseHTML RenderHTML
      (program' :: command' :: fromPath :: toPath :: more') s.
Proof.
  intros Hwd. unfold mv. cbn [length nth Nat.ltb Nat.leb].
  unfold bind at 1 3. unfold Getwd, reads at 1 3.
  unfold bind at 1 2. unfold reads at 1 2.
  rewrite !(Join_leading_separator _ Hwd). reflexivity.
Qed.

End MvArguments.

(* ================================================================= *)
(** * The move itself *)

Section MoveFacts.
Local Open Scope list_scope.
Variable bytes : Type.
Implicit Types (s : OS bytes) (t n v : Node bytes) (l p : loc).

(** A new entry of a directory that is there can be looked up. *)
Lemma lookup_put_at_entry p : forall t x v m es,
  lookup t p = Some (Dir m es) ->
  lookup (put_at (p ++ [x]) v t) (p ++ [x]) = Some v.
Proof.
  induction p as [|y p IH]; intros t x v m es Hp.
  - simpl in Hp. injection Hp as ->. simpl.
    rewrite assoc_put_spec, String.eqb_refl. reflexivity.
  - destruct t as [mode data|m' es']; [discriminate|].
    simpl in Hp. destruct (assoc y es') as [c|] eqn:Hy; [|discriminate].
    change (put_at ((y :: p) ++ [x]) v (Dir m' es'))
      with (match p ++ [x], assoc y es' with
            | [], _ => Dir m' (assoc_put y v es')
            | _, Some c0 => Dir m' (assoc_put y (put_at (p ++ [x]) v c0) es')
            | _, None => Dir m' es'
            end).
    rewrite Hy.
    destruct (p ++ [x]) as [|z q] eqn:Hq; [destruct p; discriminate|].
    rewrite <- Hq. simpl. rewrite assoc_put_spec, String.eqb_refl.
    apply IH with (m := m) (es := es). exact Hp.
Qed.

(** Putting a node leaves what is missing elsewhere missing. *)
Lemma lookup_put_at_none l : forall t v l0,
  lookup t l0 = None -> (forall r, l0 <> l ++ r) ->
  lookup (put_at l v t) l0 = None.
Proof.
  induction l as [|x l IH]; intros t v l0 H0 Hne.
  - exfalso. apply (Hne l0). reflexivity.
  - destruct t as [mode data|m es]; [exact H0|].
    destruct l0 as [|y l0]; [discriminate|].
    simpl in H0.
    assert (Step : forall c,
               lookup (Dir m (assoc_put x c es)) (y :: l0)
               = if String.eqb y x then lookup c l0
                 else match assoc y es with
                      | Some c0 => lookup c0 l0
                      | None => None
                      end).
    { intros c. simpl. rewrite assoc_put_spec.
      destruct (String.eqb y x); reflexivity. }
    destruct l as [|x' l].
    + simpl put_at. rewrite Step.
      destruct (String.eqb_spec y x) as [->|Hy]; [|exact H0].
      exfalso. apply (Hne l0). reflexivity.
    + change (put_at (x :: x' :: l) v (Dir m es))
        with (match assoc x es with
              | Some c => Dir m (assoc_put x (put_at (x' :: l) v c) es)
              | None => Dir m es
              end).
      destruct (assoc x es) as [c|] eqn:Hx; [|exact H0].
      rewrite Step.
      destruct (String.eqb_spec y x) as [->|Hy]; [|exact H0].
      rewrite Hx in H0. apply IH; [exact H0|].
      intros r E. apply (Hne r). simpl. rewrite E. reflexivity.
Qed.

(** The entry removed is missing afterwards. *)
Lemma lookup_del_at_same l : forall t,
  well_formed t = true -> l <> [] -> lookup (del_at l t) l = None.
Proof.
  induction l as [|x l IH]; intros t Hwf Hne; [congruence|].
  destruct t as [mode data|m es]; [reflexivity|].
  destruct l as [|x' l].
  - simpl. rewrite assoc_del_spec, String.eqb_refl; [reflexivity|].
    apply well_formed_Dir in Hwf. tauto.
  - change (del_at (x :: x' :: l) (Dir m es))
      with (match assoc x es with
            | Some c => Dir m (assoc_put x (del_at (x' :: l) c) es)
            | None => Dir m es
            end).
    destruct (assoc x es) as [c|] eqn:Hx.
    + change (lookup (Dir m (assoc_put x (del_at (x' :: l) c) es)) (x :: x' :: l))
        with (match assoc x (assoc_put x (del_at (x' :: l) c) es) with
              | Some c0 => lookup c0 (x' :: l)
              | None => None
              end).
      rewrite assoc_put_spec, String.eqb_refl.
      apply IH; [|discriminate].
      apply well_formed_Dir in Hwf as [Hwf _].
      apply (Hwf (x, c)). apply assoc_In. exact Hx.
    + change (lookup (Dir m es) (x :: x' :: l))
        with (match assoc x es with
              | Some c0 => lookup c0 (x' :: l)
              | None => None
              end).
      rewrite Hx. reflexivity.
Qed.

(** A directory that is not below the entry removed is still there. *)
Lemma lookup_del_at_dir l : forall t p m es,
  lookup t p = Some (Dir m es) -> (forall r, p <> l ++ r) ->
  exists es', lookup (del_at l t) p = Some (Dir m es').
Proof.
  induction l as [|x l IH]; intros t p m es Hp Hne.
  - exfalso. apply (Hne p). reflexivity.
  - destruct t as [mode data|m0 es0]; [eauto|].
    destruct p as [|y p].
    + simpl in Hp. injection Hp as -> ->.
      destruct l as [|x' l]; [simpl; eauto|].
      change (del_at (x :: x' :: l) (Dir m es))
        with (match assoc x es with
              | Some c => Dir m (assoc_put x (del_at (x' :: l) c) es)
              | None => Dir m es
              end).
      destruct (assoc x es); simpl; eauto.
    + simpl in Hp.
      destruct l as [|x' l].
      * simpl. destruct (String.eqb_spec y x) as [->|Hy].
        -- exfalso. apply (Hne p). reflexivity.
        -- assert (E : assoc y (assoc_del x es0) = assoc y es0).
           { clear -Hy. induction es0 as [|[k c] es0 IHe]; [reflexivity|].
             simpl. destruct (String.eqb_spec x k) as [->|Hx].
             - destruct (String.eqb_spec y k); [congruence | reflexivity].
             - simpl. destruct (String.eqb y k); [reflexivity | exact IHe]. }
           rewrite E. destruct (assoc y es0); [eauto | discriminate].
      * change (del_at (x :: x' :: l) (Dir m0 es0))
          with (match assoc x es0 with
                | Some c => Dir m0 (assoc_put x (del_at (x' :: l) c) es0)
                | None => Dir m0 es0
                end).
        destruct (assoc x es0) as [c|] eqn:Hx; [|simpl; eauto].
        change (lookup (Dir m0 (assoc_put x (del_at (x' :: l) c) es0)) (y :: p))
          with (match assoc y (assoc_put x (del_at (x' :: l) c) es0) with
                | Some c0 => lookup c0 p
                | None => None
                end).
        rewrite assoc_put_spec.
        destruct (String.eqb_spec y x) as [->|Hy]; [|eauto].
        rewrite Hx in Hp. apply IH with (es := es); [exact Hp|].
        intros r E. apply (Hne r). simpl. rewrite E. reflexivity.
Qed.

(** What a rename that succeeds has done. *)
Lemma Rename_inv oldpath newpath s s2 :
  Rename oldpath newpath s = Return None s2 ->
  exists po no pn nn src,
    resolve_parent s oldpath = inr (po, no)
    /\ resolve_parent s newpath = inr (pn, nn)
    /\ lookup (tree s) (po ++ [no]) = Some src
    /\ ((po ++ [no] = pn ++ [nn] /\ tree s2 = tree s)
        \/ (po ++ [no] <> pn ++ [nn]
            /\ tree s2 = put_at (pn ++ [nn]) src (del_at (po ++ [no]) (tree s))
            /\ (forall r, po ++ [no] <> (pn ++ [nn]) ++ r)
            /\ (forall r, pn <> (po ++ [no]) ++ r))).
Proof.
  unfold Rename.
  destruct (match Lstat s newpath with inl _ => None | inr _ => _ end);
    [discriminate|].
  unfold sys_rename.
  destruct (resolve_parent s oldpath) as [e|[po no]]; [discriminate|].
  destruct (lookup (tree s) (po ++ [no])) as [src|] eqn:Lsrc; [|discriminate].
  destruct (resolve_parent s newpath) as [e|[pn nn]] eqn:Hnew; [discriminate|].
  intros H. exists po, no, pn, nn, src.
  split; [reflexivity|]. split; [reflexivity|]. split; [exact Lsrc|].
  destruct (resolve_parent_regular _ _ Hnew) as (_ & mp & esp & Lpn).
  destruct (loc_eqb (po ++ [no]) (pn ++ [nn])) eqn:Heq.
  { apply loc_eqb_eq in Heq. injection H as <-. left. auto. }
  apply loc_eqb_neq in Heq. right. split; [exact Heq|].
  assert (Above : forall r dst,
             lookup (tree s) (pn ++ [nn]) = dst ->
             po ++ [no] = (pn ++ [nn]) ++ r ->
             exists m e es, dst = Some (Dir m (e :: es))).
  { intros r dst Hdst E. destruct r as [|x r];
      [rewrite app_nil_r in E; congruence|].
    rewrite E in Lsrc.
    destruct (lookup_below_nonempty _ _ _ _ Lsrc) as (m & e & es & K).
    rewrite K in Hdst. eauto. }
  destruct src as [ms ds|ms ess].
  - assert (Below : forall r, pn <> (po ++ [no]) ++ r).
    { intros r E. rewrite E, lookup_app, Lsrc in Lpn.
      destruct r; discriminate. }
    destruct (lookup (tree s) (pn ++ [nn])) as [[md dd|md esd]|] eqn:Ld;
      try discriminate; injection H as <-; simpl;
      (split; [reflexivity|]); (split; [|exact Below]); intros r E;
      destruct (Above r _ eq_refl E) as (m & e & es & K); discriminate.
  - destruct (is_prefix (po ++ [no]) (pn ++ [nn])) eqn:Hpre; [discriminate|].
    assert (Below : forall r, pn <> (po ++ [no]) ++ r).
    { intros r E. rewrite E, <- app_assoc, is_prefix_app_true in Hpre.
      discriminate. }
    destruct (lookup (tree s) (pn ++ [nn])) as [[md dd|md [|ed esd]]|] eqn:Ld;
      try discriminate; injection H as <-; simpl;
      (split; [reflexivity|]); (split; [|exact Below]); intros r E;
      destruct (Above r _ eq_refl E) as (m & e & es & K); discriminate.
Qed.

End MoveFacts.

Section TheMove.
Local Open Scope list_scope.
Variable bytes : Type.
Variable ParseHTML : bytes -> Html.Document.
Variable RenderHTML : Html.Document -> error + bytes.
Implicit Types (s : OS bytes) (Args : list string).

(** X21.  [mv] moves the item.  When [mv] returns, in a well-formed
    tree, the rewrite pass has run from the root with the two relative
    paths and has left a state [s1]; the two paths have named an entry of
    a directory each; the tree [mv] leaves is the tree of [s1] with the
    entry of the source taken out and put at the destination (the tree of
    [s1] itself when the two are one place).  So what stood at the source
    after the rewrite pass stands at the destination, and, unless the two
    are one place, nothing stands at the source any more; the working
    directory and the standard output are as they were. *)
Theorem mv_moves_the_item Args s s2 :
  mv ParseHTML RenderHTML Args s = Return tt s2 ->
  well_formed (tree s) = true ->
  exists zkRootDirectory zkRelativeFromPath zkRelativeToPath walkErr s1
         po no pn nn src,
    ZkRoot s (cwd s) = (zkRootDirectory, None)
    /\ zkRelative zkRootDirectory (absFromPath s Args) = Some zkRelativeFromPath
    /\ zkRelative zkRootDirectory (absToPath s Args) = Some zkRelativeToPath
    /\ WalkDir zkRootDirectory
         (walkFn ParseHTML RenderHTML zkRelativeFromPath
            (Strings.TrimSuffix zkRelativeToPath "/index.html")) s
       = Return walkErr s1
    /\ resolve_parent s (absFromPath s Args) = inr (po, no)
    /\ resolve_parent s (absToPath s Args) = inr (pn, nn)
    /\ lookup (tree s1) (po ++ [no]) = Some src
    /\ tree s2
       = (if loc_eqb (po ++ [no]) (pn ++ [nn]) then tree s1
          else put_at (pn ++ [nn]) src (del_at (po ++ [no]) (tree s1)))
    /\ lookup (tree s2) (pn ++ [nn]) = Some src
    /\ (po ++ [no] <> pn ++ [nn] -> lookup (tree s2) (po ++ [no]) = None)
    /\ cwd s2 = cwd s
    /\ stdout s2 = stdout s.
Proof.
  intros Hmv Hwf.
  destruct (Nat.lt_ge_cases (length Args) 4) as [Hlt|Hlen].
  { rewrite (@length_lt_4 bytes ParseHTML RenderHTML Args Hlt) in Hmv.
    discriminate. }
  rewrite (mv_unfold _ _ _ _ Hlen) in Hmv.
  destruct (ZkRoot s (cwd s)) as [root [err|]] eqn:Hroot; [discriminate|].
  destruct (zkRelative root (absFromPath s Args)) as [rf|] eqn:Hrf;
    [|discriminate].
  destruct (zkRelative root (absToPath s Args)) as [rt|] eqn:Hrt;
    [|discriminate].
  destruct (IsNotExist _); [discriminate|].
  pose proof (WalkDir_rewrites ParseHTML RenderHTML rf
                (Strings.TrimSuffix rt "/index.html") root s) as W.
  destruct (WalkDir root _ s) as [e s1|code s1|s1] eqn:Hwalk;
    try discriminate.
  simpl in W.
  destruct (Rename_outcome (absFromPath s Args) (absToPath s Args) s1)
    as (result & s2' & Hren & _ & Ro & Rw & _).
  rewrite Hren in Hmv. destruct result as [err|]; [discriminate|].
  simpl in Hmv. injection Hmv as ->.
  destruct (@Rename_inv _ _ _ _ _ Hren)
    as (po & no & pn & nn & src & Hold & Hnew & Lsrc & Hcase).
  pose proof W as (Wt & Wc & Wo & _).
  rewrite (@resolve_parent_same_shape bytes s s1 _ Wt Wc) in Hold.
  rewrite (@resolve_parent_same_shape bytes s s1 _ Wt Wc) in Hnew.
  exists root, rf, rt, e, s1, po, no, pn, nn, src.
  split; [reflexivity|]. split; [exact Hrf|]. split; [exact Hrt|].
  split; [exact Hwalk|].
  split; [exact Hold|]. split; [exact Hnew|]. split; [exact Lsrc|].
  assert (Rest : cwd s2 = cwd s /\ stdout s2 = stdout s)
    by (split; congruence).
  destruct Hcase as [[E ->]|(Hne & -> & Habove & Hbelow)].
  - rewrite E, loc_eqb_refl. split; [reflexivity|].
    split; [rewrite <- E; exact Lsrc|]. split; [congruence | exact Rest].
  - apply loc_eqb_neq in Hne as Hneb. rewrite Hneb.
    split; [reflexivity|].
    assert (Hwf1 : well_formed (tree s1) = true).
    { rewrite (@well_formed_shape bytes (tree s) (tree s1) Wt). exact Hwf. }
    rewrite <- (@resolve_parent_same_shape bytes s s1 _ Wt Wc) in Hnew.
    destruct (@resolve_parent_regular _ _ _ _ _ Hnew) as (_ & mp & esp & Lpn).
    destruct (@lookup_del_at_dir _ (po ++ [no]) _ _ _ _ Lpn Hbelow) as [es' Lpn'].
    split; [|split; [|exact Rest]].
    + eapply lookup_put_at_entry. exact Lpn'.
    + intros _. apply lookup_put_at_none; [|exact Habove].
      apply lookup_del_at_same; [exact Hwf1|].
      destruct po; discriminate.
Qed.

End TheMove.

(* ================================================================= *)
(** * Paths inside the project *)

Section InsideTheProject.
Local Open Scope list_scope.
Variable bytes : Type.
Variable ParseHTML : bytes -> Html.Document.
Variable RenderHTML : Html.Document -> error + bytes.
Implicit Types (s : OS bytes) (Args : list string) (l r : loc).

Lemma Join_app (a b : list string) (sep : string) :
  a <> [] -> b <> [] ->
  Strings.Join (a ++ b) sep
  = (Strings.Join a sep ++ sep ++ Strings.Join b sep)%string.
Proof.
  intros Ha Hb. induction a as [|x a IH]; [congruence|].
  destruct a as [|y a].
  - destruct b as [|z b]; [congruence | reflexivity].
  - change (Strings.Join ((x :: y :: a) ++ b) sep)
      with (x ++ sep ++ Strings.Join ((y :: a) ++ b) sep)%string.
    rewrite IH by discriminate.
    change (Strings.Join (x :: y :: a) sep)
      with (x ++ sep ++ Strings.Join (y :: a) sep)%string.
    rewrite !string_app_assoc. reflexivity.
Qed.

Lemma path_to_app l r : path_to (l ++ r) = (path_to l ++ path_to r)%string.
Proof.
  destruct r as [|y r].
  - rewrite app_nil_r. symmetry. apply string_app_nil_r.
  - unfold path_to.
    change ("" :: l ++ y :: r) with (("" :: l) ++ y :: r).
    rewrite Join_app by discriminate. reflexivity.
Qed.

Lemma Join_regular_not_empty (names : list string) :
  names <> [] -> Forall (fun x => regular x = true) names ->
  String.eqb (Strings.Join names "/") "" = false.
Proof.
  intros Hne Hreg. destruct names as [|x names]; [congruence|].
  inversion Hreg as [|? ? Hx _]; subst.
  destruct x as [|c x]; [discriminate|].
  destruct names; reflexivity.
Qed.

(** Joining a path of names to the path of a directory. *)
Lemma Join_path_to_names l (names : list string) :
  l <> [] -> Forall (fun x => regular x = true) l ->
  names <> [] -> Forall (fun x => regular x = true) names ->
  Filepath.Join [path_to l; Strings.Join names "/"] = path_to (l ++ names).
Proof.
  intros Hl Hreg Hn Hregn. unfold Filepath.Join.
  assert (N1 : String.eqb (path_to l) "" = false)
    by (destruct l; [congruence | reflexivity]).
  simpl filter. rewrite N1, (Join_regular_not_empty Hn Hregn).
  simpl negb. cbv iota.
  change (Strings.Join [path_to l; Strings.Join names "/"] "/")
    with (path_to l ++ "/" ++ Strings.Join names "/")%string.
  replace (path_to l ++ "/" ++ Strings.Join names "/")%string
    with (path_to (l ++ names)).
  - apply Clean_path_to.
    + destruct l; [congruence | discriminate].
    + apply Forall_app. auto.
  - rewrite path_to_app. destruct names; [congruence | reflexivity].
Qed.

(** X22.  The paths of an item inside the project.  Let the working
    directory be [/r1/.../rk/b1/.../bm], let [ZkRoot] answer [/r1/.../rk]
    for it, and let an argument of [mv] be [n1/.../nj], all of them names
    of directory entries.  Then the absolute path that [mv] makes of the
    argument is [/r1/.../rk/b1/.../bm/n1/.../nj], and the project-relative
    path is [/b1/.../bm/n1/.../nj]: the way from the root to the item,
    every name with a separator before it.  With both arguments of this
    kind and a root that is there, [mv] does not panic. *)
Theorem paths_inside_the_project Args s (lroot below fnames tnames : loc) n :
  4 <= length Args ->
  lroot <> [] -> fnames <> [] -> tnames <> [] ->
  Forall (fun x => regular x = true) (lroot ++ below) ->
  Forall (fun x => regular x = true) fnames ->
  Forall (fun x => regular x = true) tnames ->
  cwd s = path_to (lroot ++ below) ->
  ZkRoot s (cwd s) = (path_to lroot, None) ->
  nth 2 Args "" = Strings.Join fnames "/" ->
  nth 3 Args "" = Strings.Join tnames "/" ->
  lookup (tree s) lroot = Some n ->
  absFromPath s Args = path_to (lroot ++ below ++ fnames)
  /\ absToPath s Args = path_to (lroot ++ below ++ tnames)
  /\ zkRelative (path_to lroot) (absFromPath s Args)
     = Some (path_to (below ++ fnames))
  /\ zkRelative (path_to lroot) (absToPath s Args)
     = Some (path_to (below ++ tnames))
  /\ forall s', mv ParseHTML RenderHTML Args s <> Panic s'.
Proof.
  intros Hlen Hroot Hf Ht Hreg Hregf Hregt Hcwd Hzk Hfrom Hto Hn.
  assert (Hne : lroot ++ below <> []) by (destruct lroot; [congruence | discriminate]).
  assert (A1 : absFromPath s Args = path_to (lroot ++ below ++ fnames)).
  { unfold absFromPath. rewrite Hcwd, Hfrom, app_assoc.
    apply Join_path_to_names; assumption. }
  assert (A2 : absToPath s Args = path_to (lroot ++ below ++ tnames)).
  { unfold absToPath. rewrite Hcwd, Hto, app_assoc.
    apply Join_path_to_names; assumption. }
  assert (R1 : zkRelative (path_to lroot) (absFromPath s Args)
               = Some (path_to (below ++ fnames))).
  { rewrite A1, path_to_app. apply zkRelative_append. }
  assert (R2 : zkRelative (path_to lroot) (absToPath s Args)
               = Some (path_to (below ++ tnames))).
  { rewrite A2, path_to_app. apply zkRelative_append. }
  repeat split; try assumption.
  intros s'. rewrite (mv_unfold _ _ _ _ Hlen), Hzk, R1, R2.
  destruct (IsNotExist _); [discriminate|].
  destruct (WalkDir_outcome ParseHTML RenderHTML (path_to (below ++ fnames))
              (Strings.TrimSuffix (path_to (below ++ tnames)) "/index.html")
              (path_to lroot) s) as [(e & s1 & ->)|[[e He] _]].
  - destruct (Rename_outcome (absFromPath s Args) (absToPath s Args) s1)
      as (result & s2 & -> & _). destruct result; discriminate.
  - apply Forall_app in Hreg as [Hreg _].
    unfold Lstat, Stat in He.
    rewrite (@resolve_path_to bytes s lroot n Hroot Hreg Hn), Hn in He.
    discriminate.
Qed.

(** X23.  A destination that is a directory is refused.  When the
    destination names a directory that is there, and the source names
    another entry that is there, [os.Rename] answers [EEXIST] without a
    system call: [mv] does not move the source into the directory.  It
    ends the process with status 1 after the rewrite pass has run: the
    tree is the one that the pass has left, with the references
    rewritten and nothing moved. *)
Theorem mv_onto_a_directory_fails Args s (root rf rt : string)
  (lo ln : loc) (src : Node bytes) (listable : bool)
  (entries : list (string * Node bytes)) :
  4 <= length Args ->
  ZkRoot s (cwd s) = (root, None) ->
  zkRelative root (absFromPath s Args) = Some rf ->
  zkRelative root (absToPath s Args) = Some rt ->
  err_of (Lstat s root) = None ->
  resolve s (absFromPath s Args) = inr lo ->
  lookup (tree s) lo = Some src ->
  resolve s (absToPath s Args) = inr ln ->
  lookup (tree s) ln = Some (Dir listable entries) ->
  lo <> ln ->
  exists walkErr s1 s',
    WalkDir root
      (walkFn ParseHTML RenderHTML rf (Strings.TrimSuffix rt "/index.html")) s
    = Return walkErr s1
    /\ mv ParseHTML RenderHTML Args s = Exit 1 s'
    /\ tree s' = tree s1
    /\ calls s'
       = calls s1
         ++ [CallRename (absFromPath s Args) (absToPath s Args)
               (Some (SyscallError EEXIST))].
Proof.
  intros Hlen Hzk Hrf Hrt Hroot Hlo Hsrc Hln Hdir Hne.
  destruct (WalkDir_outcome ParseHTML RenderHTML rf
              (Strings.TrimSuffix rt "/index.html") root s)
    as [(e & s1 & W)|[[err He] _]]; [|rewrite He in Hroot; discriminate].
  pose proof (WalkDir_rewrites ParseHTML RenderHTML rf
                (Strings.TrimSuffix rt "/index.html") root s) as R.
  rewrite W in R. simpl in R. pose proof R as (Rt & Rc & _).
  assert (Ren : Rename (absFromPath s Args) (absToPath s Args) s1
                = Return (Some (SyscallError EEXIST))
                    (log_call s1
                       (CallRename (absFromPath s Args) (absToPath s Args)
                          (Some (SyscallError EEXIST))))).
  { unfold Rename, Lstat.
    rewrite !(@Stat_same_shape bytes s s1 _ Rt Rc).
    rewrite !(@resolve_same_shape bytes s s1 _ Rt Rc).
    unfold Stat. rewrite Hlo, Hln, Hdir, Hsrc. simpl.
    assert (E : loc_eqb lo ln = false) by (apply loc_eqb_neq; exact Hne).
    rewrite E. simpl. rewrite orb_true_r. reflexivity. }
  exists e, s1. eexists. split; [exact W|].
  rewrite (mv_unfold _ _ _ _ Hlen), Hzk, Hrf, Hrt.
  unfold Stat at 1. rewrite Hlo, Hsrc. simpl IsNotExist. cbv iota.
  rewrite W, Ren. simpl. repeat split.
Qed.

End InsideTheProject.

(* ================================================================= *)
(** * The link forms of a path inside the project *)

Section LinkForms.
Local Open Scope list_scope.
Implicit Types (l : loc) (x : string).

Lemma chars_append (a b : string) :
  list_ascii_of_string (a ++ b)
  = list_ascii_of_string a ++ list_ascii_of_string b.
Proof. induction a as [|c a IH]; simpl; [|rewrite IH]; reflexivity. Qed.

Lemma lacks_chars x c :
  lacks Filepath.Separator x = true -> In c (list_ascii_of_string x) ->
  Ascii.eqb c Filepath.Separator = false.
Proof.
  induction x as [|c0 x IH]; simpl; intros H Hin; [contradiction|].
  apply andb_true_iff in H as [H0 H]. destruct Hin as [<-|Hin].
  - apply negb_true_iff in H0. exact H0.
  - apply IH; assumption.
Qed.

(** A path that ends in a name has no trailing separator to strip. *)
Lemma strip_nothing (p x : string) :
  x <> "" -> lacks Filepath.Separator x = true ->
  string_of_list_ascii
    (rev (Filepath.strip_trailing_seps (rev (list_ascii_of_string (p ++ x)))))
  = (p ++ x)%string.
Proof.
  intros Hx Hl. rewrite chars_append, rev_app_distr.
  assert (K : Filepath.strip_trailing_seps
                (rev (list_ascii_of_string x) ++ rev (list_ascii_of_string p))
              = rev (list_ascii_of_string x) ++ rev (list_ascii_of_string p)).
  { destruct (rev (list_ascii_of_string x)) as [|c r] eqn:E.
    - exfalso. apply (f_equal (@rev ascii)) in E. rewrite rev_involutive in E.
      simpl in E. destruct x; [congruence | discriminate].
    - simpl. rewrite (@lacks_chars x c Hl); [reflexivity|].
      apply in_rev. rewrite E. left; reflexivity. }
  rewrite K, <- rev_app_distr, rev_involutive, <- chars_append.
  apply string_of_list_ascii_of_string.
Qed.

Lemma regular_not_empty x : regular x = true -> x <> "".
Proof. intros H ->. discriminate. Qed.

Lemma drop_length_append (a b : string) :
  Strings.drop (String.length a) (a ++ b) = b.
Proof. apply drop_append. Qed.

(** [filepath.Base] of a path that ends in a name is the name. *)
Lemma Base_path_to l x :
  regular x = true -> Filepath.Base (path_to (l ++ [x])) = x.
Proof.
  intros Hx. pose proof (regular_not_empty Hx) as Hne.
  pose proof (regular_lacks _ Hx) as Hl.
  unfold Filepath.Base. rewrite path_to_snoc.
  assert (N : String.eqb (path_to l ++ "/" ++ x) "" = false).
  { destruct (path_to l); reflexivity. }
  rewrite N.
  replace (path_to l ++ "/" ++ x)%string with ((path_to l ++ "/") ++ x)%string
    by (rewrite string_app_assoc; reflexivity).
  rewrite (strip_nothing (path_to l ++ "/") Hne Hl).
  replace ((path_to l ++ "/") ++ x)%string
    with (path_to l ++ String Filepath.Separator x)%string
    by (rewrite string_app_assoc; reflexivity).
  rewrite LastIndex_append by exact Hl.
  assert (D : Strings.drop (String.length (path_to l) + 1)
                (path_to l ++ String Filepath.Separator x) = x).
  { replace (path_to l ++ String Filepath.Separator x)%string
      with ((path_to l ++ "/") ++ x)%string
      by (rewrite string_app_assoc; reflexivity).
    replace (String.length (path_to l) + 1)
      with (String.length (path_to l ++ "/"))
      by (rewrite length_append; reflexivity).
    apply drop_append. }
  destruct (Z.of_nat (String.length (path_to l))) eqn:Z0; try lia.
  - replace (Z.to_nat 0) with 0 by reflexivity.
    assert (String.length (path_to l) = 0) as L0 by lia.
    rewrite L0 in D. simpl Nat.add in *. rewrite D.
    destruct x; [congruence | reflexivity].
  - rewrite <- Z0, Nat2Z.id, D. destruct x; [congruence | reflexivity].
Qed.

Lemma take_length_append (a b : string) :
  Strings.take (String.length a) (a ++ b) = a.
Proof. apply take_append. Qed.

(** [filepath.Dir] of a path that ends in a name. *)
Lemma Dir_path_to l x :
  Forall (fun y => regular y = true) l -> regular x = true ->
  Filepath.Dir (path_to (l ++ [x]))
  = match l with [] => "/" | _ => path_to l end.
Proof.
  intros Hreg Hx. pose proof (regular_lacks _ Hx) as Hl.
  unfold Filepath.Dir. rewrite path_to_snoc.
  change (path_to l ++ "/" ++ x)%string
    with (path_to l ++ String Filepath.Separator x)%string.
  rewrite LastIndex_append by exact Hl.
  replace (Z.to_nat (Z.of_nat (String.length (path_to l)) + 1))
    with (String.length (path_to l ++ "/"))
    by (rewrite length_append; simpl; lia).
  replace (path_to l ++ String Filepath.Separator x)%string
    with ((path_to l ++ "/") ++ x)%string
    by (rewrite string_app_assoc; reflexivity).
  rewrite take_append.
  destruct l as [|y l]; [reflexivity|].
  unfold Filepath.Clean.
  assert (N : String.eqb (path_to (y :: l) ++ "/") "" = false) by reflexivity.
  assert (R : Filepath.rooted (path_to (y :: l) ++ "/") = true) by reflexivity.
  rewrite N, R.
  change (path_to (y :: l) ++ "/")%string
    with (path_to (y :: l) ++ String Filepath.Separator "")%string.
  rewrite Split_app_sep, Split_path_to by exact Hreg.
  change (Strings.Split Filepath.Separator "") with [""].
  change (("" :: y :: l) ++ [""]) with ("" :: (y :: l) ++ "" :: []).
  change (fold_left (Filepath.clean_step true) ("" :: (y :: l) ++ [""]) [])
    with (fold_left (Filepath.clean_step true) ((y :: l) ++ "" :: []) []).
  rewrite clean_fold_skip_empty, app_nil_r.
  rewrite clean_fold_regular by exact Hreg.
  rewrite app_nil_r, rev_involutive. reflexivity.
Qed.

Lemma HasSuffix_append (a suffix : string) :
  Strings.HasSuffix (a ++ suffix) suffix = true.
Proof.
  unfold Strings.HasSuffix. rewrite length_append.
  replace (String.length a + String.length suffix - String.length suffix)
    with (String.length a) by lia.
  rewrite drop_append, String.eqb_refl.
  destruct (Nat.leb_spec (String.length suffix)
              (String.length a + String.length suffix)); [reflexivity | lia].
Qed.

Lemma path_to_snoc_append l x y :
  path_to (l ++ [(x ++ y)%string]) = (path_to (l ++ [x])%list ++ y)%string.
Proof. rewrite !path_to_snoc, !string_app_assoc. reflexivity. Qed.

(** X24.  The link forms of a path inside the project, as [mv] tests
    them.  For a page [/n1/.../nk/x.html] that is not an index, an
    [href] is taken for a reference exactly when it is the path itself or
    the path without [.html]; for an index [/n1/.../nk/index.html],
    exactly when it is the path itself, the directory [/n1/.../nk] (the
    path [/] for the index of the root) or the path without [.html].
    The test is equality of strings. *)
Theorem link_forms_inside_the_project l x :
  Forall (fun y => regular y = true) l ->
  regular (x ++ ".html") = true ->
  (forall h,
      hrefMatches (path_to (l ++ [(x ++ ".html")%string])) h = true
      <-> h = path_to (l ++ [(x ++ ".html")%string])
          \/ (x = "index" /\ h = match l with [] => "/" | _ => path_to l end)
          \/ h = path_to (l ++ [x]))
  /\ LinkFormSet (path_to (l ++ [(x ++ ".html")%string]))
     = [path_to (l ++ [(x ++ ".html")%string])]
       ++ (if String.eqb x "index"
           then [match l with [] => "/" | _ => path_to l end] else [])
       ++ [path_to (l ++ [x])].
Proof.
  intros Hreg Hx.
  assert (B : String.eqb (Filepath.Base (path_to (l ++ [(x ++ ".html")%string])))
                "index.html"
              = String.eqb x "index").
  { rewrite Base_path_to by exact Hx.
    destruct (String.eqb_spec x "index") as [->|Hn]; [reflexivity|].
    apply String.eqb_neq. intros E. apply Hn.
    change "index.html" with ("index" ++ ".html")%string in E.
    clear -E. revert E. generalize "index". intros y.
    revert y. induction x as [|c x IH]; intros [|c' y] E; simpl in E;
      try reflexivity.
    - injection E as <- E. destruct y as [|? [|? [|? [|? [|? ?]]]]]; discriminate.
    - injection E as -> E. destruct x as [|? [|? [|? [|? [|? ?]]]]]; discriminate.
    - injection E as <- E. f_equal. apply IH. exact E. }
  assert (S : Strings.HasSuffix (path_to (l ++ [(x ++ ".html")%string])) ".html"
              = true).
  { rewrite path_to_snoc_append. apply HasSuffix_append. }
  assert (T : Strings.take
                (String.length (path_to (l ++ [(x ++ ".html")%string])) - 5)
                (path_to (l ++ [(x ++ ".html")%string]))
              = path_to (l ++ [x])).
  { rewrite path_to_snoc_append, length_append.
    replace (String.length (path_to (l ++ [x])) + String.length ".html" - 5)
      with (String.length (path_to (l ++ [x]))) by (simpl; lia).
    apply take_append. }
  assert (F : LinkFormSet (path_to (l ++ [(x ++ ".html")%string]))
              = [path_to (l ++ [(x ++ ".html")%string])]
                ++ (if String.eqb x "index"
                    then [match l with [] => "/" | _ => path_to l end] else [])
                ++ [path_to (l ++ [x])]).
  { unfold LinkFormSet. rewrite B, S, T.
    rewrite Dir_path_to by assumption. reflexivity. }
  split; [|exact F].
  intros h. rewrite hrefMatches_LinkFormSet, F.
  destruct (String.eqb_spec x "index") as [->|Hn]; simpl.
  - split.
    + intros [ <- | [ <- | [ <- | [] ] ] ]; auto.
    + intros [ -> | [ [_ ->] | -> ] ]; auto.
  - split.
    + intros [ <- | [ <- | [] ] ]; auto.
    + intros [ -> | [ [E _] | -> ] ]; auto; congruence.
Qed.

End LinkForms.

(* ================================================================= *)
(** * The destination of the links, and the root that [serve] finds *)

Section Destination.
Local Open Scope list_scope.
Implicit Types (l : loc) (x : string).

Lemma HasSuffix_inv (s suffix : string) :
  Strings.HasSuffix s suffix = true ->
  s = (Strings.take (String.length s - String.length suffix) s ++ suffix)%string.
Proof.
  unfold Strings.HasSuffix. intros H. apply andb_true_iff in H as [_ H].
  apply String.eqb_eq in H.
  pose proof (take_drop (String.length s - String.length suffix) s) as K.
  rewrite H in K. symmetry. exact K.
Qed.

(** A path that ends in a name ends in [/index.html] exactly when the
    name is [index.html]. *)
Lemma HasSuffix_index l x :
  regular x = true ->
  Strings.HasSuffix (path_to (l ++ [x])) "/index.html"
  = String.eqb x "index.html".
Proof.
  intros Hx. destruct (String.eqb_spec x "index.html") as [->|Hn].
  - rewrite path_to_snoc. apply (HasSuffix_append (path_to l) "/index.html").
  - destruct (Strings.HasSuffix (path_to (l ++ [x])) "/index.html") eqn:E;
      [|reflexivity].
    exfalso. apply HasSuffix_inv in E. rewrite path_to_snoc in E.
    set (a := Strings.take _ _) in E.
    change (path_to l ++ "/" ++ x)%string
      with (path_to l ++ String Filepath.Separator x)%string in E.
    change (a ++ "/index.html")%string
      with (a ++ String Filepath.Separator "index.html")%string in E.
    symmetry in E.
    destruct (@cuts_compare _ _ _ _ _ E (regular_lacks _ Hx))
      as [[_ E']|[mid E']]; [congruence|].
    rewrite E', string_app_assoc in E. apply string_app_inv_head in E.
    simpl in E. injection E as E.
    assert (K : lacks Filepath.Separator "index.html" = true) by reflexivity.
    rewrite E, lacks_cut in K. discriminate.
Qed.

(** X26.  The destination of the links.  For a destination
    [/n1/.../nk/x] inside the project the anchors get the path as it
    stands, unless [x] is [index.html]: then they get the directory
    [/n1/.../nk], and for the index of the root itself the empty
    string. *)
Theorem destination_of_links l x :
  regular x = true ->
  Strings.TrimSuffix (path_to (l ++ [x])) "/index.html"
  = if String.eqb x "index.html" then path_to l else path_to (l ++ [x]).
Proof.
  intros Hx. unfold Strings.TrimSuffix. rewrite (@HasSuffix_index l x Hx).
  destruct (String.eqb_spec x "index.html") as [->|Hn]; [|reflexivity].
  rewrite path_to_snoc, length_append.
  replace (String.length (path_to l) + String.length ("/" ++ "index.html")
           - String.length "/index.html")
    with (String.length (path_to l)) by (simpl; lia).
  apply take_append.
Qed.

Lemma clean_fold_skip_dot r (A B : list string) out :
  fold_left (Filepath.clean_step r) (A ++ "." :: B) out
  = fold_left (Filepath.clean_step r) (A ++ B) out.
Proof. rewrite !fold_left_app. reflexivity. Qed.

(** X27.  [serve] without a directory and [mv] look for the same root:
    from a working directory [/x1/.../xn], the directory [.] that [serve]
    joins to it by default changes nothing. *)
Theorem serve_and_mv_search_from_the_same_directory
  (bytes : Type) (s : OS bytes) (names : loc) :
  names <> [] -> Forall (fun y => regular y = true) names ->
  cwd s = path_to names ->
  Filepath.Join [cwd s; DEFAULT_SERVER_DIRECTORY] = cwd s
  /\ ZkRoot s (Filepath.Join [cwd s; DEFAULT_SERVER_DIRECTORY])
     = ZkRoot s (cwd s).
Proof.
  intros Hne Hreg Hcwd.
  assert (J : Filepath.Join [cwd s; DEFAULT_SERVER_DIRECTORY] = cwd s).
  { rewrite Hcwd. unfold Filepath.Join, DEFAULT_SERVER_DIRECTORY.
    assert (N : String.eqb (path_to names) "" = false)
      by (destruct names; [congruence | reflexivity]).
    simpl filter. rewrite N. simpl negb. cbv iota.
    change (Strings.Join [path_to names; "."] "/")
      with (path_to names ++ String Filepath.Separator ".")%string.
    rewrite <- (@Clean_path_to names Hne Hreg) at 2.
    unfold Filepath.Clean.
    rewrite append_not_empty, N, rooted_append
      by (destruct names; [congruence | discriminate]).
    rewrite Split_app_sep.
    change (Strings.Split Filepath.Separator ".") with ["."].
    rewrite clean_fold_skip_dot, app_nil_r. reflexivity. }
  split; [exact J | rewrite J; reflexivity].
Qed.

End Destination.

(* ================================================================= *)
(** * The files that the walk writes *)

Section WrittenFiles.
Local Open Scope list_scope.

(** [basename] of a path that ends in a name, after nothing or after a
    separator. *)
Lemma basename_ends_with_name (P name : string) :
  P = "" \/ (exists Q, P = (Q ++ "/")%string) ->
  regular name = true ->
  basename (P ++ name) = name.
Proof.
  intros HP Hreg.
  pose proof (regular_not_empty Hreg) as Hne.
  pose proof (regular_lacks _ Hreg) as Hl.
  assert (Strip : forall c rest,
             (P ++ name)%string = String c rest ->
             string_of_list_ascii
               (rev (Filepath.strip_trailing_seps
                       (rev (list_ascii_of_string rest)))) = rest).
  { intros c rest E. destruct P as [|c0 P'].
    - simpl in E. subst name. destruct rest as [|c1 rest]; [reflexivity|].
      simpl in Hl. apply andb_true_iff in Hl as [_ Hl].
      apply (@strip_nothing "" (String c1 rest)); [discriminate | exact Hl].
    - simpl in E. injection E as _ <-. apply strip_nothing; assumption. }
  unfold basename.
  destruct (P ++ name)%string as [|c rest] eqn:E.
  { destruct P; [simpl in E; congruence | discriminate]. }
  rewrite (Strip c rest eq_refl). rewrite <- E.
  assert (NotRoot : String.eqb (P ++ name) "/" = false).
  { apply String.eqb_neq. intros K.
    destruct HP as [->|[Q ->]].
    - simpl in K. subst name. discriminate.
    - apply (f_equal String.length) in K. rewrite !length_append in K.
      simpl in K. destruct name; [congruence | simpl in K; lia]. }
  rewrite NotRoot.
  destruct HP as [->|[Q ->]].
  - simpl append.
    destruct (Strings.LastIndex name Filepath.Separator) eqn:L;
      try reflexivity; exfalso.
    + pose proof (@LastIndex_some Filepath.Separator name) as K.
      rewrite L in K. destruct K as (a & b & -> & _); [discriminate|].
      rewrite lacks_cut in Hl. discriminate.
    + pose proof (@LastIndex_some Filepath.Separator name) as K.
      rewrite L in K. destruct K as (a & b & -> & _); [discriminate|].
      rewrite lacks_cut in Hl. discriminate.
  - replace ((Q ++ "/") ++ name)%string
      with (Q ++ String Filepath.Separator name)%string
      by (rewrite string_app_assoc; reflexivity).
    rewrite LastIndex_append by exact Hl.
    assert (D : Strings.drop (String.length Q + 1)
                  (Q ++ String Filepath.Separator name) = name).
    { replace (Q ++ String Filepath.Separator name)%string
        with ((Q ++ "/") ++ name)%string
        by (rewrite string_app_assoc; reflexivity).
      replace (String.length Q + 1) with (String.length (Q ++ "/"))
        by (rewrite length_append; reflexivity).
      apply drop_append. }
    destruct (Z.of_nat (String.length Q)) eqn:Z0; try lia.
    + replace (Z.to_nat 0) with 0 by reflexivity.
      assert (String.length Q = 0) as L0 by lia.
      rewrite L0 in D. exact D.
    + rewrite <- Z0, Nat2Z.id. exact D.
Qed.

Lemma Clean_regular name : regular name = true -> Filepath.Clean name = name.
Proof.
  intros Hreg. pose proof (regular_not_empty Hreg) as Hne.
  pose proof (regular_lacks _ Hreg) as Hl.
  unfold Filepath.Clean.
  assert (N : String.eqb name "" = false) by (apply String.eqb_neq; exact Hne).
  assert (R : Filepath.rooted name = false).
  { destruct name as [|c name]; [congruence|]. simpl in Hl |- *.
    apply andb_true_iff in Hl as [Hc _]. apply negb_true_iff in Hc. exact Hc. }
  rewrite N, R, (Split_lacks _ _ Hl). simpl fold_left.
  rewrite clean_step_regular by exact Hreg. reflexivity.
Qed.

(** What [filepath.Join] makes of a path and a name ends in the name. *)
Lemma Join_ends_with_name (path name : string) :
  regular name = true ->
  exists P,
    Filepath.Join [path; name] = (P ++ name)%string
    /\ (P = "" \/ exists Q, P = (Q ++ "/")%string).
Proof.
  intros Hreg. pose proof (regular_not_empty Hreg) as Hne.
  pose proof (regular_lacks _ Hreg) as Hl.
  assert (N : String.eqb name "" = false) by (apply String.eqb_neq; exact Hne).
  unfold Filepath.Join. simpl filter. rewrite N. simpl negb.
  destruct (String.eqb_spec path "") as [->|Hp]; simpl negb; cbv iota.
  - exists "". split; [|left; reflexivity].
    change (Strings.Join [name] "/") with name. apply Clean_regular. exact Hreg.
  - change (Strings.Join [path; name] "/")
      with (path ++ String Filepath.Separator name)%string.
    unfold Filepath.Clean.
    rewrite append_not_empty, rooted_append by exact Hp.
    rewrite Split_app_sep, (Split_lacks _ _ Hl), fold_left_app.
    cbn [fold_left]. rewrite !clean_step_regular by exact Hreg.
    set (out := fold_left (Filepath.clean_step (Filepath.rooted path))
                  (Strings.Split Filepath.Separator path) []).
    simpl rev.
    assert (J : forall y r,
               Strings.Join ((y :: r) ++ [name]) "/"
               = (Strings.Join (y :: r) "/" ++ "/" ++ name)%string).
    { intros y r. apply Join_snoc. discriminate. }
    destruct (Filepath.rooted path); destruct (rev out) as [|y r].
    + exists "/". split; [reflexivity | right; exists ""; reflexivity].
    + exists ("/" ++ Strings.Join (y :: r) "/" ++ "/")%string. split.
      * rewrite J, !string_app_assoc. reflexivity.
      * right. exists ("/" ++ Strings.Join (y :: r) "/")%string.
        rewrite !string_app_assoc. reflexivity.
    + exists "". split; [reflexivity | left; reflexivity].
    + exists (Strings.Join (y :: r) "/" ++ "/")%string. split.
      * change (match (y :: r) ++ [name] with
                | [] => "."
                | _ :: _ => Strings.Join ((y :: r) ++ [name]) "/"
                end) with (Strings.Join ((y :: r) ++ [name]) "/").
        rewrite J, !string_app_assoc. reflexivity.
      * right. exists (Strings.Join (y :: r) "/"). reflexivity.
Qed.

Lemma basename_Join (path name : string) :
  regular name = true -> basename (Filepath.Join [path; name]) = name.
Proof.
  intros Hreg. destruct (@Join_ends_with_name path name Hreg) as (P & -> & HP).
  apply basename_ends_with_name; assumption.
Qed.

Variable bytes : Type.
Variable ParseHTML : bytes -> Html.Document.
Variable RenderHTML : Html.Document -> error + bytes.
Implicit Types (s : OS bytes) (d : DirEntry).

Variables from to : string.
Let fn := walkFn ParseHTML RenderHTML from to.

(** The calls made since the state [s0] are calls of [WriteFile] on
    documents. *)
Let documents_only (s0 s' : OS bytes) : Prop :=
  exists cs, calls s' = calls s0 ++ cs /\ forallb writes_a_document cs = true.

Lemma documents_only_refl s : documents_only s s.
Proof. unfold documents_only. exists []. rewrite app_nil_r. auto. Qed.

Lemma fn_documents_only s0 s path d e :
  Name d = basename path ->
  documents_only s0 s ->
  documents_only s0 (final (fn path (Some d) e s)).
Proof.
  unfold documents_only. intros Hname (cs & Hcs & Hall). unfold fn.
  destruct (walkFn_cases ParseHTML RenderHTML from to path d e s)
    as [ | | | | |l mode data data' Hhtml Ho Hl Href Hrender];
    try (exists cs; split; assumption).
  simpl final. unfold after_write.
  assert (W : writes_a_document (CallWriteFile path (Some l) None) = true
              /\ writes_a_document
                   (CallWriteFile path (Some l) (Some (SyscallError EACCES)))
                 = true).
  { simpl. rewrite <- Hname. auto. }
  destruct W as [W1 W2].
  destruct (may_write mode); simpl.
  - exists (cs ++ [CallWriteFile path (Some l) None]).
    rewrite Hcs, <- app_assoc, forallb_app, Hall. simpl in W1 |- *.
    rewrite W1. split; reflexivity.
  - exists (cs ++ [CallWriteFile path (Some l) (Some (SyscallError EACCES))]).
    rewrite Hcs, <- app_assoc, forallb_app, Hall. simpl in W2 |- *.
    rewrite W2. split; reflexivity.
Qed.

Lemma walkDir_documents_only n : forall s0 s path d,
  well_formed n = true ->
  Name d = basename path ->
  documents_only s0 s ->
  documents_only s0 (final (walkDir fn path d n s)).
Proof.
  induction n as [mode data|listable entries IH] using Node_induction;
    intros s0 s path d Hwf Hname Hs.
  - rewrite walkDir_File. unfold bind.
    pose proof (@fn_documents_only s0 s path d None Hname Hs) as H1.
    destruct (fn path (Some d) None s) as [[e|] s1|code s1|s1]; exact H1.
  - rewrite walkDir_Dir. unfold bind.
    pose proof (@fn_documents_only s0 s path d None Hname Hs) as H1.
    destruct (fn path (Some d) None s) as [[e|] s1|code s1|s1];
      try exact H1.
    simpl in H1.
    destruct listable; [|apply fn_documents_only; assumption].
    apply well_formed_Dir in Hwf as [Hwf _].
    clear Hs. revert s1 H1.
    induction IH as [|[name c] rest Hc _ IHrest]; intros s1 H1; [exact H1|].
    simpl. unfold bind.
    destruct (Hwf (name, c) (or_introl eq_refl)) as [Hreg Hwfc].
    simpl in Hreg, Hwfc.
    pose proof (Hc s0 s1 (Filepath.Join [path; name])
                  {| Name := name; IsDir := is_dir c |} Hwfc
                  (eq_sym (@basename_Join path name Hreg)) H1) as H2.
    simpl in H2.
    destruct (walkDir fn _ _ c s1) as [[e|] s2|code s2|s2]; try exact H2.
    apply IHrest; [|exact H2].
    intros e0 He0. apply Hwf. right. exact He0.
Qed.

(** X28.  The walk writes documents only: in a well-formed tree, every
    call that the walk of [mv] makes is a call of [WriteFile] on a path
    whose last element ends in [.html]. *)
Theorem only_documents_are_written (root : string) s (l : loc)
  (n : Node bytes) :
  resolve s root = inr l ->
  lookup (tree s) l = Some n ->
  well_formed n = true ->
  exists cs,
    calls (final (WalkDir root (walkFn ParseHTML RenderHTML from to) s))
    = calls s ++ cs
    /\ forallb writes_a_document cs = true.
Proof.
  intros Hres Hl Hwf. unfold WalkDir, Lstat, Stat. rewrite Hres, Hl.
  apply (@walkDir_documents_only n s s root
           {| Name := basename root; IsDir := is_dir n |} Hwf eq_refl).
  apply documents_only_refl.
Qed.

End WrittenFiles.

(* ================================================================= *)
(** * The walk as a sequence of calls *)

Section WalkOrder.
Local Open Scope list_scope.
Variable bytes : Type.
Variable fn : string -> option DirEntry -> option error -> M bytes (option error).
Implicit Types (s : OS bytes) (n : Node bytes).

Lemma run_calls_app vs ws s :
  run_calls fn (vs ++ ws) s
  = bind (run_calls fn vs)
      (fun err => match err with
                  | Some _ => ret err
                  | None => run_calls fn ws
                  end) s.
Proof.
  revert s. induction vs as [|[[p d] e] vs IH]; intros s; [reflexivity|].
  simpl. unfold bind.
  destruct (fn p (Some d) e s) as [[err|] s1|code s1|s1]; try reflexivity.
  rewrite IH. reflexivity.
Qed.

(** The walk below an entry makes the calls of [visits], in that order,
    and ends at the first error. *)
Lemma walkDir_run_calls n : forall path d s,
  walkDir fn path d n s = run_calls fn (visits path d n) s.
Proof.
  induction n as [mode data|listable entries IH] using Node_induction;
    intros path d s.
  - rewrite walkDir_File. reflexivity.
  - rewrite walkDir_Dir. simpl. unfold bind at 1 2.
    destruct (fn path (Some d) None s) as [[err|] s1|code s1|s1];
      try reflexivity.
    destruct listable.
    + revert s1. induction IH as [|[name c] rest Hc _ IHrest]; intros s1;
        [reflexivity|].
      simpl. rewrite run_calls_app. unfold bind. rewrite Hc.
      destruct (run_calls fn _ s1) as [[err|] s2|code s2|s2]; try reflexivity.
      apply IHrest.
    + simpl. unfold bind.
      destruct (fn path (Some d) (Some (SyscallError EACCES)) s1)
        as [[err|] s2|code s2|s2]; reflexivity.
Qed.

(** The same for [filepath.WalkDir], when its root names an entry. *)
Lemma WalkDir_run_calls root s l n :
  resolve s root = inr l -> lookup (tree s) l = Some n ->
  WalkDir root fn s
  = run_calls fn
      (visits root {| Name := basename root; IsDir := is_dir n |} n) s.
Proof.
  intros Hres Hn. unfold WalkDir, Lstat, Stat. rewrite Hres, Hn.
  apply walkDir_run_calls.
Qed.

(** A call that returns an error is the last one; after a call that
    returns nil the calls that remain are made. *)
Lemma run_calls_at before path d e after s s1 :
  run_calls fn before s = Return None s1 ->
  run_calls fn (before ++ (path, d, e) :: after) s
  = bind (fn path (Some d) e)
      (fun err => match err with
                  | Some _ => ret err
                  | None => run_calls fn after
                  end) s1.
Proof.
  intros H. rewrite run_calls_app. unfold bind at 1. rewrite H. reflexivity.
Qed.

End WalkOrder.

Section WalkErrors.
Local Open Scope list_scope.
Variable bytes : Type.
Variable ParseHTML : bytes -> Html.Document.
Variable RenderHTML : Html.Document -> error + bytes.
Implicit Types (s : OS bytes) (Args : list string).

Lemma WriteFile_returns path (data : bytes) s :
  exists result s', WriteFile path data s = Return result s'.
Proof.
  unfold WriteFile.
  destruct (resolve s path) as [[]|l].
  - destruct (resolve_parent s path) as [e|[parent name]]; eauto.
  - eauto.
  - eauto.
  - eauto.
  - eauto.
  - eauto.
  - eauto.
  - destruct (lookup (tree s) l) as [[mode d|m es]|]; eauto.
    destruct (may_write mode); eauto.
Qed.

(** The function given to the walk on a document: the next step after each
    call that succeeded. *)
Lemma walkFn_document from to path d e s l doc :
  Strings.HasSuffix (Name d) ".html" = true ->
  Open s path = inr l ->
  NewDocumentFromReader ParseHTML s l = inr doc ->
  walkFn ParseHTML RenderHTML from to path (Some d) e s
  = if snd (Html.FindEach_a (updateAnchor from to) doc false) then
      match RenderHTML (fst (Html.FindEach_a (updateAnchor from to) doc false))
      with
      | inl err => Return (Some err) s
      | inr data' =>
          bind (WriteFile path data') (fun _ => ret None) s
      end
    else Return None s.
Proof.
  intros Hhtml Hopen Hdoc. unfold walkFn. rewrite Hhtml.
  unfold bind at 1, reads at 1. rewrite Hopen.
  unfold bind at 1, reads at 1. rewrite Hdoc.
  destruct (Html.FindEach_a (updateAnchor from to) doc false) as [doc' found].
  simpl. destruct found; [|reflexivity].
  destruct (RenderHTML doc'); reflexivity.
Qed.

(** C5, as the program has it.  The function given to the walk returns an
    error exactly when the entry is a document that cannot be opened,
    cannot be read, or refers to the moved path and cannot be serialised;
    it has changed nothing then.  The answer of [WriteFile] is dropped:
    whatever it is, the function returns nil.  [filepath.WalkDir] makes
    its calls in order: a call that returns an error ends the walk with
    that error and the calls that remain are not made; after a call that
    returns nil the walk goes on.  The walk prints nothing and collects
    nothing, and [mv] calls [os.Rename] on the state the walk left,
    whatever error the walk returned. *)
Theorem walk_errors_and_the_rename (from to : string) (s : OS bytes) :
  (forall path d e err s',
      walkFn ParseHTML RenderHTML from to path (Some d) e s
      = Return (Some err) s'
      <-> s' = s
          /\ Strings.HasSuffix (Name d) ".html" = true
          /\ (Open s path = inl err
              \/ exists l,
                  Open s path = inr l
                  /\ (NewDocumentFromReader ParseHTML s l = inl err
                      \/ exists doc,
                          NewDocumentFromReader ParseHTML s l = inr doc
                          /\ snd (Html.FindEach_a (updateAnchor from to)
                                    doc false) = true
                          /\ RenderHTML
                               (fst (Html.FindEach_a (updateAnchor from to)
                                       doc false)) = inl err)))
  /\ (forall path d e l doc data',
         Strings.HasSuffix (Name d) ".html" = true ->
         Open s path = inr l ->
         NewDocumentFromReader ParseHTML s l = inr doc ->
         snd (Html.FindEach_a (updateAnchor from to) doc false) = true ->
         RenderHTML (fst (Html.FindEach_a (updateAnchor from to) doc false))
         = inr data' ->
         exists result s',
           WriteFile path data' s = Return result s'
           /\ walkFn ParseHTML RenderHTML from to path (Some d) e s
              = Return None s')
  /\ (forall root l n before path d e after s1,
         resolve s root = inr l ->
         lookup (tree s) l = Some n ->
         visits root {| Name := basename root; IsDir := is_dir n |} n
         = before ++ (path, d, e) :: after ->
         run_calls (walkFn ParseHTML RenderHTML from to) before s
         = Return None s1 ->
         (forall err s2,
             walkFn ParseHTML RenderHTML from to path (Some d) e s1
             = Return (Some err) s2 ->
             WalkDir root (walkFn ParseHTML RenderHTML from to) s
             = Return (Some err) s2)
         /\ (forall s2,
                walkFn ParseHTML RenderHTML from to path (Some d) e s1
                = Return None s2 ->
                WalkDir root (walkFn ParseHTML RenderHTML from to) s
                = run_calls (walkFn ParseHTML RenderHTML from to) after s2))
  /\ (forall Args zkRootDirectory zkRelativeFromPath zkRelativeToPath
             walkErr s1,
         4 <= length Args ->
         ZkRoot s (cwd s) = (zkRootDirectory, None) ->
         zkRelative zkRootDirectory (absFromPath s Args)
         = Some zkRelativeFromPath ->
         zkRelative zkRootDirectory (absToPath s Args)
         = Some zkRelativeToPath ->
         IsNotExist (err_of (Stat s (absFromPath s Args))) = false ->
         WalkDir zkRootDirectory
           (walkFn ParseHTML RenderHTML zkRelativeFromPath
              (Strings.TrimSuffix zkRelativeToPath "/index.html")) s
         = Return walkErr s1 ->
         stdout s1 = stdout s
         /\ mv ParseHTML RenderHTML Args s
            = report_rename
                (Rename (absFromPath s Args) (absToPath s Args) s1)).
Proof.
  split; [|split; [|split]].
  - intros path d e err s'. split.
    + intros H.
      assert (Hhtml : Strings.HasSuffix (Name d) ".html" = true).
      { destruct (Strings.HasSuffix (Name d) ".html") eqn:K; [reflexivity|].
        unfold walkFn in H. rewrite K in H. discriminate. }
      destruct (Open s path) as [err0|l] eqn:Ho.
      { unfold walkFn in H. rewrite Hhtml in H.
        unfold bind, reads, ret in H. rewrite Ho in H.
        injection H as <- <-. auto. }
      destruct (NewDocumentFromReader ParseHTML s l) as [err0|doc] eqn:Hd.
      { unfold walkFn in H. rewrite Hhtml in H.
        unfold bind, reads, ret in H. rewrite Ho, Hd in H.
        injection H as <- <-.
        split; [reflexivity|]. split; [exact Hhtml|].
        right. exists l. auto. }
      rewrite (walkFn_document from to path d e s Hhtml Ho Hd) in H.
      destruct (snd (Html.FindEach_a (updateAnchor from to) doc false))
        eqn:Hfound; [|discriminate].
      destruct (RenderHTML _) as [err0|data'] eqn:Hr.
      * injection H as <- <-.
        split; [reflexivity|]. split; [exact Hhtml|].
        right. exists l. split; [reflexivity|]. right. exists doc. auto.
      * unfold bind, ret in H.
        destruct (WriteFile path data' s); discriminate.
    + intros (-> & Hhtml & [Ho|(l & Ho & [Hd|(doc & Hd & Hfound & Hr)])]).
      * unfold walkFn. rewrite Hhtml. unfold bind, reads, ret.
        rewrite Ho. reflexivity.
      * unfold walkFn. rewrite Hhtml. unfold bind, reads, ret.
        rewrite Ho, Hd. reflexivity.
      * rewrite (walkFn_document from to path d e s Hhtml Ho Hd), Hfound, Hr.
        reflexivity.
  - intros path d e l doc data' Hhtml Ho Hd Hfound Hr.
    rewrite (walkFn_document from to path d e s Hhtml Ho Hd), Hfound, Hr.
    destruct (WriteFile_returns path data' s) as (result & s' & W).
    exists result, s'. split; [exact W|].
    unfold bind, ret. rewrite W. reflexivity.
  - intros root l n before path d e after s1 Hres Hn Hvisits Hbefore.
    rewrite (@WalkDir_run_calls _ _ _ _ _ _ Hres Hn), Hvisits.
    rewrite (@run_calls_at _ _ _ _ _ _ _ _ _ Hbefore). unfold bind.
    split.
    + intros err s2 ->. reflexivity.
    + intros s2 ->. reflexivity.
  - intros Args root rf rt walkErr s1 Hlen Hroot Hrf Hrt Hstat Hwalk. split.
    + change s1 with (final (Return walkErr s1) : OS bytes).
      rewrite <- Hwalk.
      apply (@WalkDir_preserves bytes _ (fun s0 => stdout s0 = stdout s));
        [|reflexivity].
      intros p d0 e0 s0 H0. rewrite walkFn_stdout. exact H0.
    + rewrite (mv_unfold _ _ _ _ Hlen), Hroot, Hrf, Hrt, Hstat, Hwalk.
      reflexivity.
Qed.

End WalkErrors.

(* ================================================================= *)
(** * The checks of [mv] before the walk *)

Section MvChecks.
Local Open Scope list_scope.
Variable bytes : Type.
Variable ParseHTML : bytes -> Html.Document.
Variable RenderHTML : Html.Document -> error + bytes.
Implicit Types (s : OS bytes) (Args : list string).

(** What [mv] does once it has found the root and cut both paths. *)
Lemma mv_after_the_slices Args s root rf rt :
  4 <= length Args ->
  ZkRoot s (cwd s) = (root, None) ->
  zkRelative root (absFromPath s Args) = Some rf ->
  zkRelative root (absToPath s Args) = Some rt ->
  IsNotExist (err_of (Stat s (absFromPath s Args))) = false ->
  (exists walkErr s1,
      WalkDir root
        (walkFn ParseHTML RenderHTML rf (Strings.TrimSuffix rt "/index.html")) s
      = Return walkErr s1
      /\ mv ParseHTML RenderHTML Args s
         = report_rename (Rename (absFromPath s Args) (absToPath s Args) s1))
  \/ ((exists e, Lstat s root = inl e)
      /\ mv ParseHTML RenderHTML Args s = Panic s).
Proof.
  intros Hlen Hroot Hrf Hrt Hstat.
  rewrite (mv_unfold _ _ _ _ Hlen), Hroot, Hrf, Hrt, Hstat.
  destruct (@WalkDir_outcome bytes ParseHTML RenderHTML rf
              (Strings.TrimSuffix rt "/index.html") root s)
    as [(e & s1 & E)|[He E]]; rewrite E.
  - left. exists e, s1. split; reflexivity.
  - right. split; [exact He | reflexivity].
Qed.



(** C6, as the program has it.  The project-relative path is the absolute
    path without its first [len(root)] bytes, and nothing checks that the
    path lies under the root: a path at least as long as the root gives
    what is left after that many bytes, whatever its first bytes are; a
    path under the root gives the rest with its leading separator; a path
    shorter than the root makes the slice expression panic.  [mv] goes on
    with what the two slices give: when either path is shorter than the
    root it panics, and otherwise, under the root or not, it checks the
    source, walks the root with the two slices, and calls [os.Rename] on
    the two absolute paths. *)
Theorem relative_path_is_an_unchecked_slice (zkRootDirectory absPath : string) :
  (String.length zkRootDirectory <= String.length absPath ->
   exists rel,
     zkRelative zkRootDirectory absPath = Some rel
     /\ absPath = (Strings.take (String.length zkRootDirectory) absPath ++ rel)%string
     /\ String.length rel
        = String.length absPath - String.length zkRootDirectory)
  /\ (forall rest,
         zkRelative zkRootDirectory (zkRootDirectory ++ rest) = Some rest)
  /\ (String.length absPath < String.length zkRootDirectory ->
      zkRelative zkRootDirectory absPath = None)
  /\ (forall Args s,
         4 <= length Args ->
         ZkRoot s (cwd s) = (zkRootDirectory, None) ->
         (String.length (absFromPath s Args) < String.length zkRootDirectory
          \/ String.length (absToPath s Args) < String.length zkRootDirectory ->
          mv ParseHTML RenderHTML Args s = Panic s)
         /\ (String.length zkRootDirectory <= String.length (absFromPath s Args) ->
             String.length zkRootDirectory <= String.length (absToPath s Args) ->
             if IsNotExist (err_of (Stat s (absFromPath s Args))) then
               mv ParseHTML RenderHTML Args s
               = Exit 1 (print s ("File " ++ absFromPath s Args
                                  ++ " does not exist" ++ newline))
             else
               (exists walkErr s1,
                   WalkDir zkRootDirectory
                     (walkFn ParseHTML RenderHTML
                        (Strings.drop (String.length zkRootDirectory)
                           (absFromPath s Args))
                        (Strings.TrimSuffix
                           (Strings.drop (String.length zkRootDirectory)
                              (absToPath s Args)) "/index.html")) s
                   = Return walkErr s1
                   /\ mv ParseHTML RenderHTML Args s
                      = report_rename
                          (Rename (absFromPath s Args) (absToPath s Args) s1))
               \/ ((exists e, Lstat s zkRootDirectory = inl e)
                   /\ mv ParseHTML RenderHTML Args s = Panic s))).
Proof.
  assert (Long : forall p,
             String.length zkRootDirectory <= String.length p ->
             zkRelative zkRootDirectory p
             = Some (Strings.drop (String.length zkRootDirectory) p)).
  { intros p Hle. unfold zkRelative, Strings.slice_from.
    destruct (Nat.leb_spec (String.length zkRootDirectory) (String.length p));
      [reflexivity | lia]. }
  assert (Short : forall p,
             String.length p < String.length zkRootDirectory ->
             zkRelative zkRootDirectory p = None).
  { intros p Hlt. unfold zkRelative, Strings.slice_from.
    destruct (Nat.leb_spec (String.length zkRootDirectory) (String.length p));
      [lia | reflexivity]. }
  split; [|split; [|split]].
  - intros Hle. exists (Strings.drop (String.length zkRootDirectory) absPath).
    split; [apply Long; exact Hle|]. split.
    + symmetry; apply take_drop.
    + apply length_drop; assumption.
  - intros rest. apply zkRelative_append.
  - apply Short.
  - intros Args s Hlen Hroot. split.
    + intros Hshort. rewrite (mv_unfold _ _ _ _ Hlen), Hroot.
      destruct Hshort as [H|H]; rewrite (Short _ H); [reflexivity|].
      destruct (zkRelative zkRootDirectory (absFromPath s Args)); reflexivity.
    + intros Hfrom Hto.
      destruct (IsNotExist (err_of (Stat s (absFromPath s Args)))) eqn:Hstat.
      * rewrite (mv_unfold _ _ _ _ Hlen), Hroot, (Long _ Hfrom), (Long _ Hto),
          Hstat. reflexivity.
      * apply mv_after_the_slices; auto.
Qed.

End MvChecks.

(* ================================================================= *)
(** * The further properties at concrete inputs *)

Section Instances.
Import Html Example Cases.

(** X2 at a concrete input: from [/proj/notes] in scenario A the root is
    [/proj], and [/proj/notes] has no marker. *)
Lemma ZkRoot_nearest_witness :
  ZkRoot (scenarioA "/notes/a.html" "/proj/notes") "/proj/notes"
  = ("/proj", None)
  /\ marker_missing (scenarioA "/notes/a.html" "/proj/notes") "/proj/notes"
     = true.
Proof.
  assert (H : ZkRoot (scenarioA "/notes/a.html" "/proj/notes") "/proj/notes"
              = ("/proj", None)) by (vm_compute; reflexivity).
  split; [exact H|].
  apply (@ZkRoot_nearest Document (scenarioA "/notes/a.html" "/proj/notes")
           "/proj/notes" "/proj" "/proj/notes" H).
  - exists "". split; [reflexivity | left; reflexivity].
  - simpl; lia.
Defined.

(** X3 at a concrete input: with the marker in [/] only, the search from
    [/a/b] fails, and [/a] has no marker. *)
Lemma ZkRoot_fails_only_without_marker_witness :
  ZkRoot (start marker_at_root "/a/b") "/a/b" = not_found
  /\ marker_missing (start marker_at_root "/a/b") "/a" = true.
Proof.
  assert (H : ZkRoot (start marker_at_root "/a/b") "/a/b"
              = ("", Some (ErrorString ".zk-root cannot be found")))
    by (vm_compute; reflexivity).
  split; [exact H|].
  apply (@ZkRoot_fails_only_without_marker Document
           (start marker_at_root "/a/b") "/a/b" "" _ "/a" H).
  - exists "/b". split; [reflexivity | right; exists "b"; reflexivity].
  - discriminate.
Defined.

(** X4 at a concrete input. *)
Lemma ZkRoot_idempotent_witness :
  ZkRoot (scenarioA "/notes/a.html" "/proj/notes") "/proj/notes"
  = ("/proj", None)
  /\ ZkRoot (scenarioA "/notes/a.html" "/proj/notes") "/proj"
     = ("/proj", None).
Proof.
  assert (H : ZkRoot (scenarioA "/notes/a.html" "/proj/notes") "/proj/notes"
              = ("/proj", None)) by (vm_compute; reflexivity).
  split; [exact H|].
  apply (@ZkRoot_idempotent Document _ "/proj/notes" "/proj" H).
Defined.

(** X5 at a concrete input: the working directory [/proj/notes] of
    scenario A. *)
Lemma ZkRoot_from_cwd_witness :
  lookup (tree (scenarioA "/notes/a.html" "/proj/notes")) ["proj"; "notes"]
  = Some (Dir true [("a.html", File rw note)])
  /\ nearest_marked (tree (scenarioA "/notes/a.html" "/proj/notes")) []
       ["proj"; "notes"] = Some ["proj"]
  /\ ZkRoot (scenarioA "/notes/a.html" "/proj/notes")
       (cwd (scenarioA "/notes/a.html" "/proj/notes"))
     = ("/proj", None).
Proof.
  assert (H : lookup (tree (scenarioA "/notes/a.html" "/proj/notes"))
                ["proj"; "notes"]
              = Some (Dir true [("a.html", File rw note)])) by reflexivity.
  split; [exact H|]. split; [reflexivity|].
  apply (proj2 (@ZkRoot_from_cwd Document
                  (scenarioA "/notes/a.html" "/proj/notes")
                  ["proj"; "notes"] true [("a.html", File rw note)]
                  ltac:(discriminate) ltac:(repeat constructor) H)).
  reflexivity.
Defined.

(** X6 at a concrete input: the index of scenario A. *)
Lemma ZkRoot_of_a_regular_file_witness :
  lookup (tree (scenarioA "/notes/a.html" "/proj")) ["proj"; "index.html"]
  = Some (File rw (linking "/notes/a.html"))
  /\ ZkRoot (scenarioA "/notes/a.html" "/proj") "/proj/index.html"
     = ("/proj/index.html", None).
Proof.
  assert (H : lookup (tree (scenarioA "/notes/a.html" "/proj"))
                ["proj"; "index.html"]
              = Some (File rw (linking "/notes/a.html"))) by reflexivity.
  split; [exact H|].
  apply (proj2 (@ZkRoot_of_a_regular_file Document
                  (scenarioA "/notes/a.html" "/proj")
                  ["proj"; "index.html"] rw (linking "/notes/a.html")
                  ltac:(discriminate) ltac:(repeat constructor) H)).
Defined.

(** X8 at a concrete input: the move of scenario A. *)
Lemma mv_returns_after_the_rename_witness :
  mv Parse Render (mv_args "notes/a.html" "archive/a.html")
    (scenarioA "/notes/a.html" "/proj")
  = Return tt
      {| tree := projectA_moved [] (linking "/archive/a.html") note;
         cwd := "/proj";
         stdout := [];
         calls :=
           [CallWriteFile "/proj/index.html" (Some ["proj"; "index.html"]) None;
            CallRename "/proj/notes/a.html" "/proj/archive/a.html" None] |}
  /\ exists cs,
       [CallWriteFile "/proj/index.html" (Some ["proj"; "index.html"]) None;
        CallRename "/proj/notes/a.html" "/proj/archive/a.html" None]
       = ([] ++ cs
          ++ [CallRename "/proj/notes/a.html" "/proj/archive/a.html" None])%list
       /\ forallb is_write cs = true.
Proof.
  assert (H : mv Parse Render (mv_args "notes/a.html" "archive/a.html")
                (scenarioA "/notes/a.html" "/proj")
              = Return tt
                  {| tree := projectA_moved [] (linking "/archive/a.html") note;
                     cwd := "/proj";
                     stdout := [];
                     calls :=
                       [CallWriteFile "/proj/index.html"
                          (Some ["proj"; "index.html"]) None;
                        CallRename "/proj/notes/a.html" "/proj/archive/a.html"
                          None] |}) by (vm_compute; reflexivity).
  split; [exact H|].
  exact (proj2 (proj2 (proj2 (@mv_returns_after_the_rename Document Parse Render
                                _ _ _ H)))).
Defined.

(** X9 at a concrete input: the source [..] is shorter than the root. *)
Lemma mv_panics_before_any_effect_witness :
  mv Parse Render (mv_args ".." "x.html") (start project_and_other "/proj")
  = Panic (start project_and_other "/proj")
  /\ exists root,
       ZkRoot (start project_and_other "/proj") "/proj" = (root, None)
       /\ (zkRelative root "/" = None
           \/ zkRelative root "/proj/x.html" = None
           \/ exists e, Lstat (start project_and_other "/proj") root = inl e).
Proof.
  assert (H : mv Parse Render (mv_args ".." "x.html")
                (start project_and_other "/proj")
              = Panic (start project_and_other "/proj"))
    by (vm_compute; reflexivity).
  split; [exact H|].
  exact (proj2 (@mv_panics_before_any_effect Document Parse Render _ _ _ H)).
Defined.


(** X11 at a concrete input: [zk version]. *)
Lemma main_changes_files_only_on_mv_witness :
  tree (state_of (main Parse Render ParseDecimal ["zk"; "version"]
                    (scenarioA "/notes/a.html" "/proj")))
  = tree (scenarioA "/notes/a.html" "/proj")
  /\ cwd (state_of (main Parse Render ParseDecimal ["zk"; "version"]
                      (scenarioA "/notes/a.html" "/proj")))
     = cwd (scenarioA "/notes/a.html" "/proj")
  /\ calls (state_of (main Parse Render ParseDecimal ["zk"; "version"]
                        (scenarioA "/notes/a.html" "/proj")))
     = calls (scenarioA "/notes/a.html" "/proj").
Proof.
  apply (@main_changes_files_only_on_mv Document Parse Render ParseDecimal
           ["zk"; "version"] (scenarioA "/notes/a.html" "/proj")).
  left. reflexivity.
Defined.

(** X13 at a concrete input: [zk serve -p 9000] in [/proj/notes]. *)
Lemma serve_listens_only_under_a_root_witness :
  exists flags,
    FlagSet_Parse ParseDecimal
      {| serverPort := DEFAULT_SERVER_PORT;
         serverDesiredDirectory := DEFAULT_SERVER_DIRECTORY |}
      (skipn 2 serve_args) = inr flags
    /\ ZkRoot (scenarioA "/notes/a.html" "/proj/notes")
         (Filepath.Join [cwd (scenarioA "/notes/a.html" "/proj/notes");
                         serverDesiredDirectory flags])
       = ("/proj", None)
    /\ marker_missing (scenarioA "/notes/a.html" "/proj/notes") "/proj" = false.
Proof.
  destruct (@serve_listens_only_under_a_root Document Parse Render ParseDecimal
              serve_args (scenarioA "/notes/a.html" "/proj/notes")
              ":9000" "/proj"
              (print (scenarioA "/notes/a.html" "/proj/notes")
                 ("Listening on http://localhost:9000" ++ newline))
              (fun err =>
                 match err with
                 | Some err =>
                     bind (Printf ("Error starting HTTP server: "
                                   ++ Error err ++ newline))
                       (fun _ => os_Exit 1)
                 | None => ret tt
                 end)
              eq_refl)
    as (_ & flags & P & Z & _ & M & _).
  exists flags. split; [exact P|]. split; [exact Z | exact M].
Defined.

End Instances.

Section MoreInstances.
Import Html Example Cases.

(** X16 at a concrete input: a directory [private] that cannot be listed
    and holds a document with a reference. *)
Lemma unlistable_directory_is_skipped_witness :
  walkDir (walkFn Parse Render "/notes/a.html" "/archive/a.html")
    "/proj/private" {| Name := "private"; IsDir := true |}
    (Dir false [("x.html", File rw (linking "/notes/a.html"))])
    (scenarioA "/notes/a.html" "/proj")
  = Return None (scenarioA "/notes/a.html" "/proj").
Proof.
  apply (proj1 (@unlistable_directory_is_skipped Document Parse Render
                  "/notes/a.html" "/archive/a.html"
                  "/proj/private" "/proj" "private"
                  {| Name := "private"; IsDir := true |}
                  [("x.html", File rw (linking "/notes/a.html"))] []
                  (scenarioA "/notes/a.html" "/proj") eq_refl eq_refl)).
Defined.

(** X17 at a concrete input: the directory [/proj/a.html]. *)
Lemma directory_named_like_a_document_stops_the_walk_witness :
  walkDir (walkFn Parse Render "/notes/a.html" "/archive/a.html")
    "/proj/a.html" {| Name := "a.html"; IsDir := true |}
    (Dir true [("x.html", File rw (linking "/notes/a.html"))])
    (start project_with_a_directory_document "/proj")
  = Return (Some (SyscallError EISDIR))
      (start project_with_a_directory_document "/proj")
  /\ hrefs_at Parse
       (final (mv Parse Render (mv_args "notes/a.html" "archive.html")
                 (start project_with_a_directory_document "/proj")))
       ["proj"; "index.html"]
     = Some [Some "/notes/a.html"].
Proof.
  split; [|vm_compute; reflexivity].
  apply (proj1 (@directory_named_like_a_document_stops_the_walk
                  Document Parse Render "/notes/a.html" "/archive/a.html"
                  "/proj/a.html" "/proj" "a.html"
                  {| Name := "a.html"; IsDir := true |}
                  (start project_with_a_directory_document "/proj")
                  ["proj"; "a.html"] true
                  [("x.html", File rw (linking "/notes/a.html"))]
                  [("x.html", File rw (linking "/notes/a.html"))] []
                  eq_refl eq_refl eq_refl)).
Defined.

(** X18 at a concrete input: the rewrite pass of scenario A. *)
Lemma rewrite_pass_is_complete_witness :
  WalkDir "/proj" (walkFn Parse Render "/notes/a.html" "/archive/a.html")
    (scenarioA "/notes/a.html" "/proj")
  = Return None
      {| tree := projectA [] (linking "/archive/a.html") note;
         cwd := "/proj";
         stdout := [];
         calls :=
           [CallWriteFile "/proj/index.html" (Some ["proj"; "index.html"]) None] |}
  /\ forall attr h,
       In attr (Find_a (Parse (linking "/archive/a.html"))) ->
       href attr = Some h -> ~ In h (LinkFormSet "/notes/a.html").
Proof.
  assert (H : WalkDir "/proj"
                (walkFn Parse Render "/notes/a.html" "/archive/a.html")
                (scenarioA "/notes/a.html" "/proj")
              = Return None
                  {| tree := projectA [] (linking "/archive/a.html") note;
                     cwd := "/proj";
                     stdout := [];
                     calls :=
                       [CallWriteFile "/proj/index.html"
                          (Some ["proj"; "index.html"]) None] |})
    by (vm_compute; reflexivity).
  split; [exact H|].
  apply (@rewrite_pass_is_complete Document Parse Render
           "/notes/a.html" "/archive/a.html" "/proj"
           (scenarioA "/notes/a.html" "/proj") _ ["proj"]
           (below_proj "/notes/a.html")
           eq_refl
           (fun doc data E => match E in _ = r return
                                match r with inr d => d = doc | inl _ => True end
                              with eq_refl => eq_refl end)
           eq_refl eq_refl eq_refl eq_refl H eq_refl
           ["index.html"] rw (linking "/archive/a.html") eq_refl eq_refl).
Defined.

(** X19 at a concrete input: scenario A with an index that refers to
    another page. *)
Lemma mv_of_an_unreferenced_item_witness :
  mv Parse Render (mv_args "notes/a.html" "archive/a.html")
    (scenarioA "/elsewhere.html" "/proj")
  = report_rename
      (Rename "/proj/notes/a.html" "/proj/archive/a.html"
         (scenarioA "/elsewhere.html" "/proj")).
Proof.
  apply (proj2 (@mv_of_an_unreferenced_item Document Parse Render
                  (mv_args "notes/a.html" "archive/a.html")
                  (scenarioA "/elsewhere.html" "/proj")
                  "/proj" "/notes/a.html" "/archive/a.html" ["proj"]
                  (below_proj "/elsewhere.html")
                  ltac:(simpl; lia) ltac:(vm_compute; reflexivity)
                  eq_refl eq_refl ltac:(vm_compute; reflexivity)
                  eq_refl eq_refl eq_refl
                  eq_refl)).
Defined.

(** X20 at a concrete input: the paths of scenario A written with a
    separator in front. *)
Lemma mv_reads_its_paths_from_the_working_directory_witness :
  mv Parse Render ["zk"; "move"; "/notes/a.html"; "/archive/a.html"; "more"]
    (scenarioA "/notes/a.html" "/proj")
  = mv Parse Render (mv_args "notes/a.html" "archive/a.html")
      (scenarioA "/notes/a.html" "/proj").
Proof.
  apply (@mv_reads_its_paths_from_the_working_directory Document Parse Render
           "zk" "move" "zk" "mv" "notes/a.html" "archive/a.html" ["more"] []
           (scenarioA "/notes/a.html" "/proj")).
  discriminate.
Defined.

(** X21 at a concrete input: the move of scenario A. *)
Lemma mv_moves_the_item_witness :
  let s := scenarioA "/notes/a.html" "/proj" in
  let s2 :=
    {| tree := projectA_moved [] (linking "/archive/a.html") note;
       cwd := "/proj";
       stdout := [];
       calls :=
         [CallWriteFile "/proj/index.html" (Some ["proj"; "index.html"]) None;
          CallRename "/proj/notes/a.html" "/proj/archive/a.html" None] |} in
  exists zkRootDirectory zkRelativeFromPath zkRelativeToPath walkErr s1
         po no pn nn src,
    ZkRoot s "/proj" = (zkRootDirectory, None)
    /\ zkRelative zkRootDirectory "/proj/notes/a.html" = Some zkRelativeFromPath
    /\ zkRelative zkRootDirectory "/proj/archive/a.html" = Some zkRelativeToPath
    /\ WalkDir zkRootDirectory
         (walkFn Parse Render zkRelativeFromPath
            (Strings.TrimSuffix zkRelativeToPath "/index.html")) s
       = Return walkErr s1
    /\ resolve_parent s "/proj/notes/a.html" = inr (po, no)
    /\ resolve_parent s "/proj/archive/a.html" = inr (pn, nn)
    /\ lookup (tree s1) (po ++ [no])%list = Some src
    /\ tree s2
       = (if loc_eqb (po ++ [no])%list (pn ++ [nn])%list then tree s1
          else put_at (pn ++ [nn])%list src (del_at (po ++ [no])%list (tree s1)))
    /\ lookup (tree s2) (pn ++ [nn])%list = Some src
    /\ ((po ++ [no])%list <> (pn ++ [nn])%list ->
        lookup (tree s2) (po ++ [no])%list = None)
    /\ cwd s2 = cwd s
    /\ stdout s2 = stdout s.
Proof.
  apply (@mv_moves_the_item Document Parse Render
           (mv_args "notes/a.html" "archive/a.html")
           (scenarioA "/notes/a.html" "/proj")
           {| tree := projectA_moved [] (linking "/archive/a.html") note;
              cwd := "/proj";
              stdout := [];
              calls :=
                [CallWriteFile "/proj/index.html"
                   (Some ["proj"; "index.html"]) None;
                 CallRename "/proj/notes/a.html" "/proj/archive/a.html"
                   None] |}).
  - vm_compute; reflexivity.
  - reflexivity.
Defined.

(** X22 at a concrete input: the paths of scenario A. *)
Lemma paths_inside_the_project_witness :
  absFromPath (scenarioA "/notes/a.html" "/proj")
    (mv_args "notes/a.html" "archive/a.html") = "/proj/notes/a.html"
  /\ absToPath (scenarioA "/notes/a.html" "/proj")
       (mv_args "notes/a.html" "archive/a.html") = "/proj/archive/a.html"
  /\ zkRelative "/proj"
       (absFromPath (scenarioA "/notes/a.html" "/proj")
          (mv_args "notes/a.html" "archive/a.html")) = Some "/notes/a.html"
  /\ zkRelative "/proj"
       (absToPath (scenarioA "/notes/a.html" "/proj")
          (mv_args "notes/a.html" "archive/a.html")) = Some "/archive/a.html"
  /\ forall s',
       mv Parse Render (mv_args "notes/a.html" "archive/a.html")
         (scenarioA "/notes/a.html" "/proj") <> Panic s'.
Proof.
  apply (@paths_inside_the_project Document Parse Render
           (mv_args "notes/a.html" "archive/a.html")
           (scenarioA "/notes/a.html" "/proj")
           ["proj"] [] ["notes"; "a.html"] ["archive"; "a.html"]
           (below_proj "/notes/a.html")).
  - simpl; lia.
  - discriminate.
  - discriminate.
  - discriminate.
  - repeat constructor.
  - repeat constructor.
  - repeat constructor.
  - reflexivity.
  - vm_compute; reflexivity.
  - reflexivity.
  - reflexivity.
  - reflexivity.
Defined.

(** X23 at a concrete input: the note of scenario A moved onto the
    directory [/proj/archive]. *)
Lemma mv_onto_a_directory_fails_witness :
  exists walkErr s1 s',
    WalkDir "/proj" (walkFn Parse Render "/notes/a.html" "/archive")
      (scenarioA "/notes/a.html" "/proj")
    = Return walkErr s1
    /\ mv Parse Render (mv_args "notes/a.html" "archive")
         (scenarioA "/notes/a.html" "/proj") = Exit 1 s'
    /\ tree s' = tree s1
    /\ calls s'
       = (calls s1
          ++ [CallRename "/proj/notes/a.html" "/proj/archive"
                (Some (SyscallError EEXIST))])%list.
Proof.
  apply (@mv_onto_a_directory_fails Document Parse Render
           (mv_args "notes/a.html" "archive")
           (scenarioA "/notes/a.html" "/proj")
           "/proj" "/notes/a.html" "/archive"
           ["proj"; "notes"; "a.html"] ["proj"; "archive"]
           (File rw note) true []).
  - simpl; lia.
  - vm_compute; reflexivity.
  - reflexivity.
  - reflexivity.
  - reflexivity.
  - reflexivity.
  - reflexivity.
  - reflexivity.
  - reflexivity.
  - discriminate.
Defined.

(** X24 at a concrete input: the forms of [/notes/a.html] and of
    [/notes/index.html]. *)
Lemma link_forms_inside_the_project_witness :
  LinkFormSet "/notes/a.html" = ["/notes/a.html"; "/notes/a"]
  /\ (forall h,
         hrefMatches "/notes/index.html" h = true
         <-> h = "/notes/index.html"
             \/ ("index" = "index" /\ h = "/notes") \/ h = "/notes/index").
Proof.
  split.
  - apply (proj2 (@link_forms_inside_the_project ["notes"] "a"
                    ltac:(repeat constructor) eq_refl)).
  - apply (proj1 (@link_forms_inside_the_project ["notes"] "index"
                    ltac:(repeat constructor) eq_refl)).
Defined.

End MoreInstances.

Section LastInstances.
Import Html Example Cases.

(** X26 at a concrete input: the destinations [/notes/a/index.html] and
    [/index.html]. *)
Lemma destination_of_links_witness :
  Strings.TrimSuffix "/notes/a/index.html" "/index.html" = "/notes/a"
  /\ Strings.TrimSuffix "/index.html" "/index.html" = "".
Proof.
  split.
  - apply (@destination_of_links ["notes"; "a"] "index.html" eq_refl).
  - apply (@destination_of_links [] "index.html" eq_refl).
Defined.

(** X27 at a concrete input: the working directory [/proj/notes]. *)
Lemma serve_and_mv_search_from_the_same_directory_witness :
  Filepath.Join ["/proj/notes"; DEFAULT_SERVER_DIRECTORY] = "/proj/notes"
  /\ ZkRoot (scenarioA "/notes/a.html" "/proj/notes")
       (Filepath.Join ["/proj/notes"; DEFAULT_SERVER_DIRECTORY])
     = ZkRoot (scenarioA "/notes/a.html" "/proj/notes") "/proj/notes".
Proof.
  apply (@serve_and_mv_search_from_the_same_directory Document
           (scenarioA "/notes/a.html" "/proj/notes") ["proj"; "notes"]).
  - discriminate.
  - repeat constructor.
  - reflexivity.
Defined.

(** X28 at a concrete input: the rewrite pass of scenario A. *)
Lemma only_documents_are_written_witness :
  exists cs,
    calls (final (WalkDir "/proj"
                    (walkFn Parse Render "/notes/a.html" "/archive/a.html")
                    (scenarioA "/notes/a.html" "/proj")))
    = ([] ++ cs)%list
    /\ forallb writes_a_document cs = true.
Proof.
  apply (@only_documents_are_written Document Parse Render
           "/notes/a.html" "/archive/a.html" "/proj"
           (scenarioA "/notes/a.html" "/proj") ["proj"]
           (below_proj "/notes/a.html") eq_refl eq_refl eq_refl).
Defined.

End LastInstances.

(* ================================================================= *)
(** * The walk and the checks at concrete inputs *)

Section CheckInstances.
Import Html Example Cases.


(** C5 at a concrete input: the project with a document that cannot be
    read.  The walk has called the function on [/proj] and on the marker;
    the call on [/proj/a.html] returns the error of [os.Open], and the
    walk ends with it in the state it started in: the four calls that
    remain, one of them on [/proj/index.html], are not made. *)
Lemma walk_errors_and_the_rename_witness :
  WalkDir "/proj" (walkFn Parse Render "/notes/x.html" "/archive/x.html")
    (start (project_locked unreadable) "/proj")
  = Return (Some (SyscallError EACCES))
      (start (project_locked unreadable) "/proj").
Proof.
  refine (proj1
    (proj1 (proj2 (proj2
       (@walk_errors_and_the_rename Document Parse Render
          "/notes/x.html" "/archive/x.html"
          (start (project_locked unreadable) "/proj"))))
       "/proj" ["proj"]
       (Dir true
          [(".zk-root", File rw []);
           ("a.html", File unreadable (page [TextNode "locked"]));
           ("archive", Dir true []);
           ("index.html", File rw (linking "/notes/x.html"));
           ("notes", Dir true [("x.html", File rw note)])])
       [("/proj", {| Name := "proj"; IsDir := true |}, None);
        ("/proj/.zk-root", {| Name := ".zk-root"; IsDir := false |}, None)]
       "/proj/a.html" {| Name := "a.html"; IsDir := false |} None
       [("/proj/archive", {| Name := "archive"; IsDir := true |}, None);
        ("/proj/index.html", {| Name := "index.html"; IsDir := false |}, None);
        ("/proj/notes", {| Name := "notes"; IsDir := true |}, None);
        ("/proj/notes/x.html", {| Name := "x.html"; IsDir := false |}, None)]
       (start (project_locked unreadable) "/proj")
       _ _ _ _)
    (SyscallError EACCES) (start (project_locked unreadable) "/proj") _);
    vm_compute; reflexivity.
Defined.

(** C6 at a concrete input: [/other/x.html] is not under the root
    [/proj]; [mv] walks the root with [r/x.html], the path without its
    first five bytes, and calls [os.Rename]. *)
Lemma relative_path_is_an_unchecked_slice_witness :
  (exists walkErr s1,
      WalkDir "/proj" (walkFn Parse Render "r/x.html" "/x.html")
        (start project_and_other "/proj")
      = Return walkErr s1
      /\ mv Parse Render (mv_args "../other/x.html" "x.html")
           (start project_and_other "/proj")
         = report_rename (Rename "/other/x.html" "/proj/x.html" s1))
  \/ ((exists e, Lstat (start project_and_other "/proj") "/proj" = inl e)
      /\ mv Parse Render (mv_args "../other/x.html" "x.html")
           (start project_and_other "/proj")
         = Panic (start project_and_other "/proj")).
Proof.
  exact (proj2
    (proj2 (proj2 (proj2
       (@relative_path_is_an_unchecked_slice Document Parse Render
          "/proj" "/other/x.html")))
       (mv_args "../other/x.html" "x.html")
       (start project_and_other "/proj")
       ltac:(simpl; lia) ltac:(vm_compute; reflexivity))
    ltac:(vm_compute; lia) ltac:(vm_compute; lia)).
Defined.

End CheckInstances.
